(** * n6 Event DB data backend API: model and properties

    A shallow embedding of [N6Lib-py2/n6lib/data_backend_api.py]:
    the transaction context manager [transact], the base query processor
    (access/client filtering, DB API error translation), the category
    counts processor and the time-windowed events query processor.

    Conventions of the embedding.
    - A Python call that may raise is a value of [result]; code that also
      mutates state is a function [S -> result A * S] ([Prog]).
    - [datetime.datetime] values are integers (microseconds since
      1970-01-01T00:00:00 on the UTC time line), [datetime.timedelta]
      values are integer differences; the arithmetic on them raises
      [OverflowError] outside the ranges Python gives them.
    - Python 2 [str] values are [string]s; dicts are [gmap]s, sets [gset]s.
    - Generators are run to completion by an eager consumer; what they
      would do step by step is recorded in an event trace. *)

From Stdlib Require Import ZArith List String Ascii Bool Lia Sorting.Sorted OrderedTypeEx.
From stdpp Require Import base option list gmap strings fin_maps sets sorting.
Import ListNotations.

Set Warnings "-clear-no-such-hyp".

Local Open Scope string_scope.
Local Open Scope list_scope.
Local Open Scope Z_scope.

(** ** Exceptions and results *)

Inductive exception : Type :=
  | AssertionError (msg : string)
  | DBAPIError (text statement params : string)
  | EventDatabaseError (summary : string)
  | NoContextToExitFrom
  | ContextManagerIsNotReentrantError
  | TypeError
  | AttributeError
  | KeyError
  | OtherException (tag : string).

Inductive result (A : Type) : Type :=
  | Return (a : A)
  | Raise (e : exception).
Arguments Return {A} a.
Arguments Raise {A} e.

(** Stateful, fallible code: explicit state passing. *)
Definition Prog (S A : Type) : Type := S -> result A * S.

Definition prog_raise {S A} (e : exception) : Prog S A := fun s => (Raise e, s).

(** ** Auxiliary Event-DB tools: the [transact] context manager *)

Module _EventDatabaseTransactionContextManager.

(** The SQLAlchemy scoped session [_DBSession] is an external object.
    The calls made on it are logged; whether a call raises is given
    by an oracle that sees the calls made so far. *)
Inductive session_call : Type := Flush | Commit | Rollback | Remove.

Definition SessionOracle : Type := list session_call -> session_call -> option exception.

Record State : Type := mkState {
  context_count : nat;              (* [_context_deposit.context_count] *)
  session_calls : list session_call (* calls made on [_DBSession], oldest first *)
}.

Section WithSession.
Variable oracle : SessionOracle.

Definition _DBSession (c : session_call) : Prog State unit :=
  fun s =>
    let s' := mkState (context_count s) (session_calls s ++ [c]) in
    match oracle (session_calls s) c with
    | Some e => (Raise e, s')
    | None => (Return tt, s')
    end.

Definition is_entered (s : State) : bool := (0 <? context_count s)%nat.

(** Modelled from the spec: [ThreadLocalContextDeposit.on_enter] of
    [n6lib.context_helpers] is not among the sources.  Entering while
    already entered fails with a reentrancy error (the nested context
    factory is [NotImplemented]); otherwise the outermost factory runs
    and the context is recorded. *)
Definition on_enter (outermost_context_factory : Prog State unit) : Prog State unit :=
  fun s =>
    if (0 <? context_count s)%nat
    then (Raise ContextManagerIsNotReentrantError, s)
    else match outermost_context_factory s with
         | (Return _, s') => (Return tt, mkState (S (context_count s')) (session_calls s'))
         | (Raise e, s') => (Raise e, s')
         end.

(** Modelled from the spec: [ThreadLocalContextDeposit.on_exit] of
    [n6lib.context_helpers] is not among the sources.  With no entered
    context it fails with the nothing-to-exit error; otherwise the
    innermost context is removed and the finalizer for its nesting
    level is called with the exception information, its return value
    being passed on. *)
Definition on_exit {A} (exc_type : option exception)
    (outermost_context_finalizer context_finalizer : option exception -> Prog State A)
  : Prog State A :=
  fun s =>
    match context_count s with
    | O => (Raise NoContextToExitFrom, s)
    | S n =>
        let s' := mkState n (session_calls s) in
        if (n =? 0)%nat
        then outermost_context_finalizer exc_type s'
        else context_finalizer exc_type s'
    end.

Definition __enter__ : Prog State unit :=
  on_enter (_DBSession Rollback).

(** Returns the [sys.exc_info()] of a failed flush, if any. *)
Definition _transaction_finalizer (exc_type : option exception)
  : Prog State (option exception) :=
  fun s =>
    match exc_type with
    | None =>
        match _DBSession Flush s with
        | (Raise flush_exc, s1) =>
            match _DBSession Rollback s1 with
            | (Return _, s2) => (Return (Some flush_exc), s2)
            | (Raise e, s2) => (Raise e, s2)
            end
        | (Return _, s1) =>
            match _DBSession Commit s1 with
            | (Return _, s2) => (Return None, s2)
            | (Raise e, s2) => (Raise e, s2)
            end
        end
    | Some _ =>
        match _DBSession Rollback s with
        | (Return _, s1) => (Return None, s1)
        | (Raise e, s1) => (Raise e, s1)
        end
    end.

Definition _never_called (_ : option exception) : Prog State (option exception) :=
  prog_raise (AssertionError "this code should never be called").

(** [__exit__] never returns a true value: a [Return tt] tells the
    [with] statement not to suppress the active exception. *)
Definition __exit__ (exc : option exception) : Prog State unit :=
  fun s =>
    match on_exit exc _transaction_finalizer _never_called s with
    | (Raise NoContextToExitFrom, s1) =>
        if is_entered s1
        then (Raise (AssertionError ""), s1)
        else (Raise NoContextToExitFrom, s1)
    | (Raise e, s1) =>
        match _DBSession Remove s1 with
        | (Return _, s2) => (Raise e, s2)
        | (Raise e', s2) => (Raise e', s2)
        end
    | (Return flush_exc_info, s1) =>
        match flush_exc_info with
        | Some flush_exc => (Raise flush_exc, s1)
        | None => (Return tt, s1)
        end
    end.

(** The [with transact: body] statement. *)
Definition with_transact {A} (body : Prog State A) : Prog State A :=
  fun s =>
    match __enter__ s with
    | (Raise e, s1) => (Raise e, s1)
    | (Return _, s1) =>
        match body s1 with
        | (Return a, s2) =>
            match __exit__ None s2 with
            | (Return _, s3) => (Return a, s3)
            | (Raise e, s3) => (Raise e, s3)
            end
        | (Raise exc, s2) =>
            match __exit__ (Some exc) s2 with
            | (Return _, s3) => (Raise exc, s3)
            | (Raise e, s3) => (Raise e, s3)
            end
        end
    end.
End WithSession.

End _EventDatabaseTransactionContextManager.


(** ** Collaborators that are not part of this module *)

(** Constants and helpers imported from other [n6lib] modules (and from
    the Python standard library) whose code is outside this file. *)
Class N6Lib : Type := {
  (** [n6lib.const.CATEGORY_ENUMS]: the canonical event categories. *)
  CATEGORY_ENUMS : list string;
  (** [n6lib.url_helpers.PROVISIONAL_URL_SEARCH_KEY_PREFIX]. *)
  PROVISIONAL_URL_SEARCH_KEY_PREFIX : string;
  (** [n6lib.common_helpers.make_exc_ascii_str]. *)
  make_exc_ascii_str : exception -> string;
  (** [n6lib.url_helpers.normalize_url(url, **url_norm_opts)]. *)
  normalize_url : string -> gmap string bool -> result string;
  (** [base64.urlsafe_b64decode(as_bytes(s))]. *)
  urlsafe_b64decode : string -> result string
}.

(** Records written with [LOGGER]. Format arguments are kept as data. *)
Inductive log_record : Type :=
  | LogDbApiError (error_summary statement params : string)
  | LogUrlWithoutUrlData (url : string)
  | LogUrlDataWithoutProvisionalUrl (url : option string)
  | LogUrlDataNotValid.

(** ** Rows of the Event DB *)

Definition DateTime : Type := Z.

(** A row of the [event] table ([n6NormalizedData]); because of the
    denormalization several rows may share an [id]. *)
Record EventRow : Type := mkEventRow {
  ev_id : string;
  ev_time : DateTime;
  ev_category : string
}.

(** A row of the [client_to_event] table ([n6ClientToEvent]). *)
Record ClientToEventRow : Type := mkClientToEventRow {
  cl_id : string;
  cl_time : DateTime;
  cl_client : string
}.

(** A row of [event LEFT OUTER JOIN client_to_event]. *)
Definition JoinedRow : Type := (EventRow * option ClientToEventRow)%type.

(** An SQL boolean clause, as the predicate it denotes on a joined row
    (a comparison with a NULL column denotes [false]). *)
Definition ColumnElement : Type := JoinedRow -> bool.

Definition or_ (clauses : list ColumnElement) : ColumnElement :=
  fun j => existsb (fun c => c j) clauses.
Definition and_ (clauses : list ColumnElement) : ColumnElement :=
  fun j => forallb (fun c => c j) clauses.

(** [model.time >= since], [cl_model.time >= since], [cl_model.id == model.id]
    and [cl_model.client.in_(org_ids)]. *)
Definition model_time_ge (since : DateTime) : ColumnElement :=
  fun j => since <=? ev_time (fst j).
Definition cl_model_time_ge (since : DateTime) : ColumnElement :=
  fun j => match snd j with Some cl => since <=? cl_time cl | None => false end.
Definition cl_model_id_eq_model_id : ColumnElement :=
  fun j => match snd j with
           | Some cl => bool_decide (cl_id cl = ev_id (fst j))
           | None => false
           end.
Definition client_column_in_ (org_ids : list string) : ColumnElement :=
  fun j => match snd j with
           | Some cl => bool_decide (cl_client cl ∈ org_ids)
           | None => false
           end.

(** An SQLAlchemy [Query] on the two tables: the ON clause of the outer
    join (if joined) and the clauses given to [.filter()]. *)
Record Query : Type := mkQuery {
  q_outerjoin : option ColumnElement;
  q_filter : list ColumnElement
}.

Definition Query_filter (query : Query) (clause : ColumnElement) : Query :=
  mkQuery (q_outerjoin query) (q_filter query ++ [clause]).
Definition Query_outerjoin (query : Query) (on_clause : ColumnElement) : Query :=
  mkQuery (Some on_clause) (q_filter query).

(** The content of the two tables. *)
Record Tables : Type := mkTables {
  tbl_event : list EventRow;
  tbl_client_to_event : list ClientToEventRow
}.

(** Rows produced by the FROM/JOIN/WHERE part of a query. *)
Definition joined_rows (t : Tables) (on_clause : option ColumnElement) : list JoinedRow :=
  flat_map (fun e =>
    match on_clause with
    | None => [(e, None)]
    | Some on_ =>
        match List.filter (fun cl => on_ (e, Some cl)) (tbl_client_to_event t) with
        | [] => [(e, None)]
        | matching => map (fun cl => (e, Some cl)) matching
        end
    end) (tbl_event t).

Definition selected_rows (t : Tables) (query : Query) : list JoinedRow :=
  List.filter (fun j => forallb (fun c => c j) (q_filter query))
              (joined_rows t (q_outerjoin query)).

(** [SELECT category, COUNT(DISTINCT id) ... GROUP BY category]. *)
Definition count_distinct_ids (category : string) (rows : list JoinedRow) : nat :=
  length (remove_dups (map (fun j => ev_id (fst j))
    (List.filter (fun j => bool_decide (ev_category (fst j) = category)) rows))).

Definition category_counts (rows : list JoinedRow) : list (string * nat) :=
  map (fun c => (c, count_distinct_ids c rows))
      (remove_dups (map (fun j => ev_category (fst j)) rows)).

(** What answers the counts query: the database ([query.all()]). *)
Definition CountsExecutor : Type := Query -> result (list (string * nat)).

Definition sql_counts (t : Tables) : CountsExecutor :=
  fun query => Return (category_counts (selected_rows t query)).

(** ** [_BaseQueryProcessor] *)

Module _BaseQueryProcessor.

Definition DB_API_ERROR_MESSAGE_MAX_LENGTH : nat := 200.

Record t : Type := mk {
  _access_filtering_conditions : list ColumnElement;
  _client_org_ids : option (list string)
}.

(** Python truth value of a list. *)
Definition truthy {A} (l : list A) : bool :=
  match l with [] => false | _ => true end.

Definition __init__ (access_filtering_conditions : list ColumnElement)
    (client_org_ids : option (list string)) : result t :=
  if negb (truthy access_filtering_conditions) then Raise (AssertionError "")
  else match client_org_ids with
       | Some [] => Raise (AssertionError "")
       | _ => Return (mk access_filtering_conditions client_org_ids)
       end.

Definition query__access_filtering (self : t) (query : Query) : result Query :=
  if negb (truthy (_access_filtering_conditions self)) then Raise (AssertionError "")
  else Return (Query_filter query (or_ (_access_filtering_conditions self))).

Definition query__client_filtering (self : t) (query : Query) : result Query :=
  match _client_org_ids self with
  | Some client_org_ids =>
      if negb (truthy client_org_ids) then Raise (AssertionError "")
      else Return (Query_filter query (client_column_in_ client_org_ids))
  | None => Return query
  end.

(** [s.replace('\n', ' ')] *)
Fixpoint replace_newlines (s : string) : string :=
  match s with
  | EmptyString => EmptyString
  | String c rest =>
      String (if Ascii.eqb c "010"%char then " "%char else c) (replace_newlines rest)
  end.

Section WithLib.
Context `{N6Lib}.

Definition _format_db_api_error_summary (exc : exception) : string :=
  let error_shortened_msg :=
    substring 0 DB_API_ERROR_MESSAGE_MAX_LENGTH (make_exc_ascii_str exc) in
  ("DB API error - " ++ replace_newlines error_shortened_msg ++ "...")%string.

(** The context manager, applied to the outcome of its body; the
    second component is what it logs. *)
Definition handling_db_api_error {A} (body : result A) : result A * list log_record :=
  match body with
  | Raise (DBAPIError text statement params) =>
      let error_summary := _format_db_api_error_summary (DBAPIError text statement params) in
      (Raise (EventDatabaseError error_summary),
       [LogDbApiError error_summary statement params])
  | _ => (body, [])
  end.
End WithLib.

End _BaseQueryProcessor.

(** ** [_CountsQueryProcessor] *)

Module _CountsQueryProcessor.
Import _BaseQueryProcessor.

Section WithLib.
Context `{N6Lib}.

Definition _build_query_for_counts_per_category (self : t) (since : DateTime)
  : result Query :=
  let query := mkQuery None [] in
  let query := Query_outerjoin query
                 (and_ [cl_model_id_eq_model_id; cl_model_time_ge since]) in
  let query := Query_filter query (model_time_ge since) in
  match query__access_filtering self query with
  | Raise e => Raise e
  | Return query => query__client_filtering self query
  end.

Definition illegal_categories (category_to_count : gmap string nat) : gset string :=
  dom category_to_count ∖ list_to_set CATEGORY_ENUMS.

(** The message of the [AssertionError] is kept as the template: the
    [repr]s of the illegal categories that the source formats into it
    are left out. *)
Definition _verify_no_illegal_categories (category_to_count : gmap string nat)
  : result unit :=
  if bool_decide (illegal_categories category_to_count = ∅)
  then Return tt
  else Raise (AssertionError "illegal categories got from the Event DB: {}").

(** [dict.fromkeys(keys, value)] and [d.update(pairs)]. *)
Definition dict_fromkeys (keys : list string) (value : nat) : gmap string nat :=
  foldr (fun k d => <[k := value]> d) ∅ keys.
Definition dict_update (d : gmap string nat) (pairs : list (string * nat))
  : gmap string nat :=
  foldl (fun d kv => <[kv.1 := kv.2]> d) d pairs.

Definition get_counts_per_category (execute : CountsExecutor) (self : t)
    (since : DateTime) : result (gmap string nat) * list log_record :=
  let category_to_count := dict_fromkeys CATEGORY_ENUMS 0%nat in
  match _build_query_for_counts_per_category self since with
  | Raise e => (Raise e, [])
  | Return query =>
      match handling_db_api_error (execute query) with
      | (Raise e, logged) => (Raise e, logged)
      | (Return category_count_pairs, logged) =>
          let category_to_count := dict_update category_to_count category_count_pairs in
          match _verify_no_illegal_categories category_to_count with
          | Raise e => (Raise e, logged)
          | Return _ =>
              if bool_decide (dom category_to_count
                              = (list_to_set CATEGORY_ENUMS : gset string))
              then (Return category_to_count, logged)
              else (Raise (AssertionError ""), logged)
          end
      end
  end.
End WithLib.

End _CountsQueryProcessor.

(** ** [N6DataBackendAPI] *)

Record AuthData : Type := mkAuthData {
  org_id : string;
  user_id : string
}.

Module N6DataBackendAPI.

Definition DEFAULT_DAY_STEP : Z := 1.

Section WithLib.
Context `{N6Lib}.

Definition get_counts_per_category (execute : CountsExecutor) (auth_data : AuthData)
    (access_filtering_conditions : list ColumnElement) (since : DateTime)
  : result (gmap string nat) * list log_record :=
  if negb (_BaseQueryProcessor.truthy access_filtering_conditions)
  then (Raise (AssertionError "filtering conditions not provided"), [])
  else
    match _BaseQueryProcessor.__init__ access_filtering_conditions
                                       (Some [org_id auth_data]) with
    | Raise e => (Raise e, [])
    | Return query_processor =>
        _CountsQueryProcessor.get_counts_per_category execute query_processor since
    end.
End WithLib.

End N6DataBackendAPI.


(** ** Rows fetched by the events query and raw result dicts *)

(** A value stored in the [url_data] dict. *)
Inductive url_data_item : Type :=
  | UdStr (s : string)
  | UdOpts (url_norm_opts : gmap string bool)
  | UdOther.

(** The object found under [custom['url_data']]. *)
Inductive PyObject : Type :=
  | PyNone
  | PyDict (d : gmap string url_data_item)
  | PyOtherObject.

Record Custom : Type := mkCustom {
  custom_url_data : option PyObject;   (* [None]: no such key *)
  custom_rest : gmap string string
}.

(** A row of the events query: the mapped columns of [event] (those
    that matter here) and the [client] column of [client_to_event]. *)
Record FetchedRow : Type := mkFetchedRow {
  row_id : string;
  row_time : DateTime;
  row_modified : DateTime;
  row_category : string;
  row_url : option string;
  row_custom : option Custom;
  row_client : option string
}.

Record ResultDict : Type := mkResultDict {
  res_id : string;
  res_time : DateTime;
  res_modified : DateTime;
  res_category : string;
  res_url : option string;
  res_custom : option Custom;
  res_client : gset string
}.

(** Modelled from the spec: [n6lib.db_events.make_raw_result_dict] is not
    among the sources.  The result record takes the non-varying
    attributes of the representative row and the given set of client
    organization ids as its [client]. *)
Definition make_raw_result_dict (sample_row : FetchedRow) (org_client_ids : gset string)
  : ResultDict :=
  mkResultDict (row_id sample_row) (row_time sample_row) (row_modified sample_row)
               (row_category sample_row) (row_url sample_row) (row_custom sample_row)
               org_client_ids.

(** *** Grouping *)

(** [itertools.groupby]: maximal runs of consecutive elements with equal keys. *)
Fixpoint groupby {A K : Type} `{EqDecision K} (key : A -> K) (l : list A) : list (list A) :=
  match l with
  | [] => []
  | x :: rest =>
      match groupby key rest with
      | (y :: g) :: groups =>
          if decide (key x = key y) then (x :: y :: g) :: groups
          else [x] :: (y :: g) :: groups
      | _ => [[x]]
      end
  end.

(** [sorted(rows, key=attrgetter('id'))]: a stable sort. *)
Fixpoint insert_by_id (r : FetchedRow) (sorted : list FetchedRow) : list FetchedRow :=
  match sorted with
  | [] => [r]
  | x :: rest =>
      if String.leb (row_id r) (row_id x) then r :: x :: rest
      else x :: insert_by_id r rest
  end.

Definition sorted_by_id (rows : list FetchedRow) : list FetchedRow :=
  foldr insert_by_id [] rows.

(** Modelled from the spec: [n6lib.common_helpers.iter_grouped_by_attr]
    is not among the sources.  Rows are grouped consecutively by the
    attribute; with [presort] they are sorted by it first.  This is the
    grouping by [id] of the rows of one time group; the grouping of the
    row stream by [time] is done row by row in [on_row] below. *)
Definition iter_grouped_by_id_presorted (same_time_rows : list FetchedRow)
  : list (list FetchedRow) :=
  groupby row_id (sorted_by_id same_time_rows).

(** *** Time windows *)

Definition timedelta_days (days : Z) : Z := days * 86400000000.
Definition timedelta_hours (hours : Z) : Z := hours * 3600000000.

(** [datetime.datetime.min] (0001-01-01T00:00:00) and
    [datetime.datetime.max] (9999-12-31T23:59:59.999999), in
    microseconds since 1970-01-01T00:00:00. *)
Definition datetime_min : DateTime := -62135596800000000.
Definition datetime_max : DateTime := 253402300799999999.

Definition OverflowError : exception := OtherException "OverflowError".

(** [datetime.timedelta(days=days)]: the number of days of a
    [timedelta] has a magnitude of at most 999999999. *)
Definition timedelta (days : Z) : result Z :=
  if Z.abs days <=? 999999999 then Return (timedelta_days days) else Raise OverflowError.

(** [dt + delta] and [dt - delta] for a [datetime] and a [timedelta]:
    the result has to be a [datetime]. *)
Definition datetime_add (dt : DateTime) (delta : Z) : result DateTime :=
  if (datetime_min <=? dt + delta) && (dt + delta <=? datetime_max)
  then Return (dt + delta)
  else Raise OverflowError.

Definition datetime_sub (dt : DateTime) (delta : Z) : result DateTime :=
  if (datetime_min <=? dt - delta) && (dt - delta <=? datetime_max)
  then Return (dt - delta)
  else Raise OverflowError.

Inductive operator : Type := op_ge | op_le | op_lt.

(** [functools.partial(with_flipped_args(op), bound)]: maps a column to
    the clause [op(column, bound)]. *)
Record ColumnElementTransformer : Type := partial {
  cmp_operator : operator;
  cmp_bound : DateTime
}.

Definition holds (c : ColumnElementTransformer) (time : DateTime) : bool :=
  match cmp_operator c with
  | op_ge => cmp_bound c <=? time
  | op_le => time <=? cmp_bound c
  | op_lt => time <? cmp_bound c
  end.

(** A time window: [(compare_to_time_lower, compare_to_time_upper)]. *)
Definition Step : Type := (ColumnElementTransformer * ColumnElementTransformer)%type.

Definition admits (step : Step) (time : DateTime) : bool :=
  holds (fst step) time && holds (snd step) time.

(** *** Queries, the database and the run state *)

(** The query made by [_build_actual_query]: the base query of the step
    (all filters of [_query_base], the step's time comparisons, the outer
    join and [ORDER BY time DESC]) with its LIMIT and OFFSET. *)
Record ActualQuery : Type := mkActualQuery {
  aq_step : Step;
  aq_limit : option Z;
  aq_offset : option nat
}.

(** The database as seen by one events processor during one run, in
    which the table does not change: the rows the base query of a step
    selects, in the order the database returns them, and the failure
    (if any) of executing a given query.  A failure is one raised when
    the query is executed, before its first row; an error that arrives
    while the rows of the cursor are being fetched is not covered.  The
    LIMIT/OFFSET queries of one step are answered with consecutive
    slices of the one row list of the step; a database is free to order
    rows of equal [time] differently from one query to the next, which
    is not covered either: the properties that depend on it assume
    [pages_are_slices] (below). *)
Record EventDB : Type := mkEventDB {
  db_rows : Step -> list FetchedRow;
  db_fault : ActualQuery -> option exception
}.

Definition execute (db : EventDB) (query : ActualQuery) : result (list FetchedRow) :=
  match db_fault db query with
  | Some e => Raise e
  | None =>
      let rows := db_rows db (aq_step query) in
      let rows := match aq_offset query with Some o => drop o rows | None => rows end in
      Return (match aq_limit query with Some l => take (Z.to_nat l) rows | None => rows end)
  end.

Inductive event : Type :=
  | EvQuery (query : ActualQuery)      (* a query is executed *)
  | EvYield (result_dict : ResultDict) (* [generate_query_results] yields *)
  | EvLog (record : log_record).

Definition yielded (trace : list event) : list ResultDict :=
  omap (fun ev => match ev with EvYield r => Some r | _ => None end) trace.

Definition queries (trace : list event) : list ActualQuery :=
  omap (fun ev => match ev with EvQuery q => Some q | _ => None end) trace.

(** How the consumption of [generate_query_results()] ends. *)
Inductive ending : Type :=
  | CapReached            (* [return] after [enough_results_produced()] *)
  | Exhausted             (* all steps done *)
  | Raised (e : exception)
  | OutOfFuel.            (* the step generator has not ended within its fuel *)

Abbreviation UrlNormCache :=
  (gmap (gmap string bool) (gmap string bool * option (gset string))).

Record RunState : Type := mkRunState {
  produced : nat;               (* [_results_counter[0]] *)
  pending : list FetchedRow;    (* rows of the time group being collected *)
  url_norm_cache : UrlNormCache;(* [self._url_normalization_data_cache] *)
  trace : list event            (* oldest first *)
}.

Definition initial_state : RunState := mkRunState 0 [] ∅ [].

(** ** [_EventsQueryProcessor] *)

Module _EventsQueryProcessor.

Definition YIELD_PER : nat := 100.

(** The filters of [_query_base] (parameters, access, client) are part
    of what the [EventDB] answers; of [_filtering_params] only the
    lookups made by [_preprocess_result_dict] are used here. *)
Record t : Type := mk {
  _day_step : Z;
  _opt_limit : option Z;
  _time_constraints : DateTime * option DateTime * option DateTime;
  _filtering_params : gmap string (list string)
}.

(** The [while] loop of [_time_comparisons_per_step].  Besides the
    steps yielded, how the generator stopped: [None] when the loop has
    ended, [Some (Raised e)] when the subtraction of [step_delta] has
    raised, [Some OutOfFuel] when [fuel] iterations were not enough. *)
Fixpoint _time_comparisons_loop (fuel : nat) (time_min step_delta time_lower : DateTime)
    (time_upper : option DateTime) {struct fuel} : list Step * option ending :=
  if (time_min <? time_lower) || bool_decide (time_upper = None) then
    match fuel with
    | O => ([], Some OutOfFuel)
    | S fuel' =>
        let time_upper' := time_lower in
        match datetime_sub time_upper' step_delta with
        | Raise e => ([], Some (Raised e))
        | Return lowered =>
            let time_lower' := Z.max time_min lowered in
            let '(steps, stopped) :=
              _time_comparisons_loop fuel' time_min step_delta time_lower'
                                     (Some time_upper') in
            ((partial op_ge time_lower', partial op_lt time_upper') :: steps, stopped)
        end
    end
  else ([], None).

(** The steps the generator yields and how it stopped (see
    [_time_comparisons_loop]); what is raised before the first [yield]
    leaves no step. *)
Definition _time_comparisons_per_step (fuel : nat) (utcnow : DateTime) (self : t)
  : list Step * option ending :=
  let '(time_min, time_max, time_until) := _time_constraints self in
  match timedelta (_day_step self) with
  | Raise e => ([], Some (Raised e))
  | Return step_delta =>
      match time_until with
      | None =>
          match (match time_max with
                 | Some time_max => Return time_max
                 | None => datetime_add utcnow (timedelta_hours 1)
                 end) with
          | Raise e => ([], Some (Raised e))
          | Return time_upper =>
              match datetime_sub time_upper step_delta with
              | Raise e => ([], Some (Raised e))
              | Return lowered =>
                  let time_lower := Z.max time_min lowered in
                  let '(steps, stopped) :=
                    _time_comparisons_loop fuel time_min step_delta time_lower
                                           (Some time_upper) in
                  ((partial op_ge time_lower, partial op_le time_upper) :: steps, stopped)
              end
          end
      | Some time_until =>
          _time_comparisons_loop fuel time_min step_delta time_until None
      end
  end.

Definition _build_actual_query (self : t) (cur_step_query_base : Step)
    (cur_step_fetched_rows_count : nat) (produced_results_count : nat)
  : result (ActualQuery * option Z) :=
  match _opt_limit self with
  | Some opt_limit =>
      let still_expected := opt_limit - Z.of_nat produced_results_count in
      if 0 <? still_expected then
        let reserve := Z.max 100 (still_expected / 4) in
        let query_limit := still_expected + reserve in
        Return (mkActualQuery cur_step_query_base (Some query_limit)
                              (Some cur_step_fetched_rows_count),
                Some query_limit)
      else Raise (AssertionError
                    "_build_actual_query() called after reaching `opt.limit`?!")
  | None => Return (mkActualQuery cur_step_query_base None None, None)
  end.

Definition enough_results_produced (self : t) (st : RunState) : bool :=
  match _opt_limit self with
  | Some opt_limit => opt_limit <=? Z.of_nat (produced st)
  | None => false
  end.

Definition _make_result_dict (same_id_rows : list FetchedRow) : result ResultDict :=
  match same_id_rows with
  | [] => Raise (OtherException "IndexError")
  | sample_row :: _ =>
      let org_client_ids : gset string := list_to_set (omap row_client same_id_rows) in
      Return (make_raw_result_dict sample_row org_client_ids)
  end.

Definition startswith (s prefix : string) : bool := String.prefix prefix s.

Fixpoint map_result {A B} (f : A -> result B) (l : list A) : result (list B) :=
  match l with
  | [] => Return []
  | a :: l' =>
      match f a with
      | Raise e => Raise e
      | Return b =>
          match map_result f l' with
          | Raise e => Raise e
          | Return bs => Return (b :: bs)
          end
      end
  end.

Section WithLib.
Context `{N6Lib}.

(** What [_preprocess_result_dict] stores in the cache when the
    options are not in it yet: the normalizer (given by the options
    it is a partial application with) and, if the query has
    [url.b64] parameters, the set of their normalized values. *)
Definition new_url_norm_cache_item (self : t) (url_norm_opts : gmap string bool)
  : result (gmap string bool * option (gset string)) :=
  match _filtering_params self !! "url.b64" with
  | Some param_urls =>
      match map_result (fun u => normalize_url u url_norm_opts) param_urls with
      | Raise e => Raise e
      | Return normalized => Return (url_norm_opts, Some (list_to_set normalized))
      end
  | None => Return (url_norm_opts, None)
  end.

(** The cache lookup of [_preprocess_result_dict], filling the cache on a miss. *)
Definition url_norm_cache_item (self : t) (url_norm_cache : UrlNormCache)
    (url_norm_opts : gmap string bool)
  : result (gmap string bool * option (gset string)) * UrlNormCache :=
  match url_norm_cache !! url_norm_opts with
  | Some item => (Return item, url_norm_cache)
  | None =>
      match new_url_norm_cache_item self url_norm_opts with
      | Raise e => (Raise e, url_norm_cache)
      | Return item => (Return item, <[url_norm_opts := item]> url_norm_cache)
      end
  end.

(** Every cached item is what would be computed for its key. *)
Definition cache_coherent (self : t) (url_norm_cache : UrlNormCache) : Prop :=
  forall url_norm_opts item,
    url_norm_cache !! url_norm_opts = Some item ->
    new_url_norm_cache_item self url_norm_opts = Return item.

Definition _preprocess_result_dict (self : t) (url_norm_cache : UrlNormCache)
    (result_dict : ResultDict)
  : result (option ResultDict) * UrlNormCache * list log_record :=
  let custom := res_custom result_dict in
  let url_data := match custom with
                  | Some c => custom_url_data c
                  | None => None
                  end in
  let result_dict :=
    mkResultDict (res_id result_dict) (res_time result_dict) (res_modified result_dict)
      (res_category result_dict) (res_url result_dict)
      (match custom with
       | Some c => Some (mkCustom None (custom_rest c))
       | None => None
       end)
      (res_client result_dict) in
  let url := res_url result_dict in
  let provisional :=
    match url with
    | Some u => startswith u PROVISIONAL_URL_SEARCH_KEY_PREFIX
    | None => false
    end in
  match url_data with
  | None | Some PyNone =>
      match url with
      | Some u =>
          if provisional
          then (Return None, url_norm_cache, [LogUrlWithoutUrlData u])
          else (Return (Some result_dict), url_norm_cache, [])
      | None => (Return (Some result_dict), url_norm_cache, [])
      end
  | Some url_data =>
      if negb provisional
      then (Return None, url_norm_cache, [LogUrlDataWithoutProvisionalUrl url])
      else
        match url_data with
        | PyDict d =>
            if bool_decide (dom d = ({["url_orig"; "url_norm_opts"]} : gset string))
            then
              match (match d !! "url_orig" with
                     | Some (UdStr s) => urlsafe_b64decode s
                     | Some _ => Raise TypeError
                     | None => Raise KeyError
                     end) with
              | Raise e => (Raise e, url_norm_cache, [])
              | Return url_orig =>
                  match (match d !! "url_norm_opts" with
                         | Some (UdOpts o) => Return o
                         | Some _ => Raise AttributeError
                         | None => Raise KeyError
                         end) with
                  | Raise e => (Raise e, url_norm_cache, [])
                  | Return url_norm_opts =>
                      match url_norm_cache_item self url_norm_cache url_norm_opts with
                      | (Raise e, cache') => (Raise e, cache', [])
                      | (Return (normalizer_opts, param_urls_norm), cache') =>
                          match normalize_url url_orig normalizer_opts with
                          | Raise e => (Raise e, cache', [])
                          | Return result_url_norm =>
                              let kept :=
                                mkResultDict (res_id result_dict) (res_time result_dict)
                                  (res_modified result_dict) (res_category result_dict)
                                  (Some result_url_norm) (res_custom result_dict)
                                  (res_client result_dict) in
                              match param_urls_norm with
                              | Some urls =>
                                  if bool_decide (result_url_norm ∈ urls)
                                  then (Return (Some kept), cache', [])
                                  else (Return None, cache', [])
                              | None => (Return (Some kept), cache', [])
                              end
                          end
                      end
                  end
              end
            else (Return None, url_norm_cache, [LogUrlDataNotValid])
        | _ => (Return None, url_norm_cache, [LogUrlDataNotValid])
        end
  end.

Definition produce_result_or_none (self : t) (same_id_rows : list FetchedRow)
    (st : RunState) : result (option ResultDict) * RunState :=
  match _make_result_dict same_id_rows with
  | Raise e => (Raise e, st)
  | Return result_dict =>
      let '(r, cache', logged) :=
        _preprocess_result_dict self (url_norm_cache st) result_dict in
      let st1 := mkRunState (produced st) (pending st) cache'
                            (trace st ++ map EvLog logged) in
      match r with
      | Raise e => (Raise e, st1)
      | Return None => (Return None, st1)
      | Return (Some result_dict) =>
          (Return (Some result_dict),
           mkRunState (S (produced st1)) (pending st1) (url_norm_cache st1) (trace st1))
      end
  end.

(** The inner loop of [generate_query_results] over the id groups of
    one time group; [Some] ending means the generator is left. *)
Fixpoint for_same_id_rows (self : t) (groups : list (list FetchedRow)) (st : RunState)
  : option ending * RunState :=
  match groups with
  | [] => (None, st)
  | same_id_rows :: groups' =>
      match produce_result_or_none self same_id_rows st with
      | (Raise e, st1) => (Some (Raised e), st1)
      | (Return r, st1) =>
          let st2 :=
            match r with
            | Some result_dict =>
                mkRunState (produced st1) (pending st1) (url_norm_cache st1)
                           (trace st1 ++ [EvYield result_dict])
            | None => st1
            end in
          if enough_results_produced self st2 then
            if bool_decide (Some (Z.of_nat (produced st2)) = _opt_limit self)
            then (Some CapReached, st2)
            else (Some (Raised (AssertionError "")), st2)
          else for_same_id_rows self groups' st2
      end
  end.

Definition for_same_time_rows (self : t) (same_time_rows : list FetchedRow)
    (st : RunState) : option ending * RunState :=
  for_same_id_rows self (iter_grouped_by_id_presorted same_time_rows) st.

(** One row arrives from [rows_generator]: it joins the time group
    being collected, or closes it (the closed group is then
    processed) and starts the next one. *)
Definition on_row (self : t) (row : FetchedRow) (st : RunState)
  : option ending * RunState :=
  match pending st with
  | [] => (None, mkRunState (produced st) [row] (url_norm_cache st) (trace st))
  | first :: _ =>
      if bool_decide (row_time first = row_time row)
      then (None, mkRunState (produced st) (pending st ++ [row])
                             (url_norm_cache st) (trace st))
      else
        match for_same_time_rows self (pending st)
                (mkRunState (produced st) [] (url_norm_cache st) (trace st)) with
        | (Some e, st') => (Some e, st')
        | (None, st') =>
            (None, mkRunState (produced st') [row] (url_norm_cache st') (trace st'))
        end
  end.

(** [for row in iterator: ... yield row] *)
Fixpoint for_row_in_iterator (self : t) (rows : list FetchedRow) (st : RunState)
  : option ending * RunState :=
  match rows with
  | [] => (None, st)
  | row :: rows' =>
      match on_row self row st with
      | (Some e, st') => (Some e, st')
      | (None, st') => for_row_in_iterator self rows' st'
      end
  end.

Definition log_all (logged : list log_record) (st : RunState) : RunState :=
  mkRunState (produced st) (pending st) (url_norm_cache st)
             (trace st ++ map EvLog logged).

(** The [while True] loop of [_fetch_rows_for_single_step]; every
    further iteration follows a query that returned as many rows as
    its (positive) limit, so [fuel] bounds the number of queries. *)
Fixpoint _fetch_rows_for_single_step_loop (fuel : nat) (db : EventDB) (self : t)
    (cur_step_query_base : Step) (cur_step_fetched_rows_count : nat) (st : RunState)
  : option ending * RunState :=
  match fuel with
  | O => (Some OutOfFuel, st)
  | S fuel' =>
      match _build_actual_query self cur_step_query_base
              cur_step_fetched_rows_count (produced st) with
      | Raise e => (Some (Raised e), st)
      | Return (query, query_limit) =>
          let st := mkRunState (produced st) (pending st) (url_norm_cache st)
                               (trace st ++ [EvQuery query]) in
          match _BaseQueryProcessor.handling_db_api_error (execute db query) with
          | (Raise e, logged) => (Some (Raised e), log_all logged st)
          | (Return rows, logged) =>
              match for_row_in_iterator self rows (log_all logged st) with
              | (Some e, st') => (Some e, st')
              | (None, st') =>
                  let cur_query_fetched_rows_count := length rows in
                  match query_limit with
                  | None => (None, st')
                  | Some query_limit =>
                      if Z.of_nat cur_query_fetched_rows_count <? query_limit
                      then (None, st')
                      else _fetch_rows_for_single_step_loop fuel' db self
                             cur_step_query_base
                             (cur_step_fetched_rows_count
                              + cur_query_fetched_rows_count)%nat st'
                  end
              end
          end
      end
  end.

Definition _fetch_rows_for_single_step (db : EventDB) (self : t)
    (step : Step) (st : RunState) : option ending * RunState :=
  _fetch_rows_for_single_step_loop (S (length (db_rows db step))) db self step 0%nat st.

Fixpoint _fetch_rows_from_db (db : EventDB) (self : t) (steps : list Step)
    (st : RunState) : option ending * RunState :=
  match steps with
  | [] => (None, st)
  | step :: steps' =>
      match _fetch_rows_for_single_step db self step st with
      | (Some e, st') => (Some e, st')
      | (None, st') => _fetch_rows_from_db db self steps' st'
      end
  end.

(** [generate_query_results()] consumed to its end.  [fuel] bounds
    the number of time windows asked from the step generator; the
    windows are asked for one by one, so that what stops the step
    generator takes effect after the rows of the steps it has yielded. *)
Definition generate_query_results (fuel : nat) (utcnow : DateTime) (db : EventDB)
    (self : t) : ending * RunState :=
  let '(steps, stopped) := _time_comparisons_per_step fuel utcnow self in
  match _fetch_rows_from_db db self steps initial_state with
  | (Some e, st) => (e, st)
  | (None, st) =>
      match stopped with
      | Some e => (e, st)
      | None =>
        let last_group :=
          match pending st with
          | [] => (None, st)
          | _ => for_same_time_rows self (pending st)
                   (mkRunState (produced st) [] (url_norm_cache st) (trace st))
          end in
        match last_group with
        | (Some e, st') => (e, st')
        | (None, st') =>
            match _opt_limit self with
            | None => (Exhausted, st')
            | Some opt_limit =>
                if Z.of_nat (produced st') <? opt_limit
                then (Exhausted, st')
                else (Raised (AssertionError ""), st')
            end
        end
      end
  end.
End WithLib.

End _EventsQueryProcessor.

(** ** What the step loop computes, as a relation *)

(** [loop_run time_min step_delta time_lower time_upper steps]: started
    with the given [time_lower] and [time_upper], the [while] loop of
    [_time_comparisons_per_step] ends after yielding exactly [steps],
    none of its subtractions having raised. *)
Inductive loop_run (time_min step_delta : DateTime)
  : DateTime -> option DateTime -> list Step -> Prop :=
  | loop_exit (time_lower time_upper : DateTime) :
      time_lower <= time_min ->
      loop_run time_min step_delta time_lower (Some time_upper) []
  | loop_iteration (time_lower : DateTime) (time_upper : option DateTime)
      (steps : list Step) :
      time_min < time_lower \/ time_upper = None ->
      loop_run time_min step_delta
               (Z.max time_min (time_lower - step_delta)) (Some time_lower) steps ->
      loop_run time_min step_delta time_lower time_upper
               ((partial op_ge (Z.max time_min (time_lower - step_delta)),
                 partial op_lt time_lower) :: steps).

(** A number of iterations after which the loop has ended, for a positive step. *)
Definition enough_fuel (time_min step_delta time_lower : DateTime) : nat :=
  Z.to_nat ((time_lower - time_min) / step_delta) + 2.

Definition lower_bound (step : Step) : DateTime := cmp_bound (fst step).
Definition upper_bound (step : Step) : DateTime := cmp_bound (snd step).

(** The id shared by the rows of an id group. *)
Definition group_id (same_id_rows : list FetchedRow) : string :=
  match same_id_rows with
  | [] => ""
  | sample_row :: _ => row_id sample_row
  end.

Definition id_le (r1 r2 : FetchedRow) : Prop := String.leb (row_id r1) (row_id r2) = true.

(** The [custom] dict without its [url_data] item. *)
Definition without_url_data (result_dict : ResultDict) : ResultDict :=
  mkResultDict (res_id result_dict) (res_time result_dict) (res_modified result_dict)
    (res_category result_dict) (res_url result_dict)
    (match res_custom result_dict with
     | Some c => Some (mkCustom None (custom_rest c))
     | None => None
     end)
    (res_client result_dict).

Definition with_url (url : string) (result_dict : ResultDict) : ResultDict :=
  mkResultDict (res_id result_dict) (res_time result_dict) (res_modified result_dict)
    (res_category result_dict) (Some url) (res_custom result_dict) (res_client result_dict).

Definition url_data_of (result_dict : ResultDict) : option PyObject :=
  match res_custom result_dict with
  | Some c => custom_url_data c
  | None => None
  end.

Definition url_is_provisional `{N6Lib} (result_dict : ResultDict) : bool :=
  match res_url result_dict with
  | Some u => _EventsQueryProcessor.startswith u PROVISIONAL_URL_SEARCH_KEY_PREFIX
  | None => false
  end.

Definition well_formed_url_data (url_orig_b64 : string) (url_norm_opts : gmap string bool)
  : PyObject :=
  PyDict (<["url_orig" := UdStr url_orig_b64]>
            (<["url_norm_opts" := UdOpts url_norm_opts]> ∅)).

(** ** Invariants of a run *)

(** The counter agrees with what has been yielded and has not reached the cap. *)
Definition counting (opt_limit : option Z) (st : RunState) : Prop :=
  produced st = length (yielded (trace st))
  /\ match opt_limit with
     | Some N => Z.of_nat (produced st) < N
     | None => True
     end.

(** What holds when the generator is left with ending [e]. *)
Definition ended (opt_limit : option Z) (e : ending) (st : RunState) : Prop :=
  produced st = length (yielded (trace st))
  /\ (e = CapReached ->
      opt_limit = Some (Z.of_nat (produced st))
      /\ exists earlier result_dict, trace st = earlier ++ [EvYield result_dict])
  /\ (e <> CapReached ->
      match opt_limit with
      | Some N => Z.of_nat (produced st) < N
      | None => True
      end).

(** ** Time order of a run *)

Definition newer_first : relation DateTime := fun t t' => t' <= t.

Definition rows_newer_first : relation FetchedRow :=
  fun r r' => row_time r' <= row_time r.

Definition results_newer_first : relation ResultDict :=
  fun r r' => res_time r' <= res_time r.

(** The times of what has been yielded, then of the rows being collected. *)
Definition times_of (st : RunState) : list DateTime :=
  map res_time (yielded (trace st)) ++ map row_time (pending st).

Definition in_time_order (st : RunState) : Prop :=
  StronglySorted newer_first (times_of st)
  /\ forall r r', r ∈ pending st -> r' ∈ pending st -> row_time r = row_time r'.

(** Each per-step query returns the rows of its time window, ordered
    by [time] descending. *)
Definition answers_in_time_order (db : EventDB) : Prop :=
  forall step,
    StronglySorted rows_newer_first (db_rows db step)
    /\ Forall (fun r => admits step (row_time r) = true) (db_rows db step).

(** Every time admitted by the later step is before every time admitted
    by the earlier one. *)
Definition step_before (step step' : Step) : Prop :=
  forall t t', admits step t = true -> admits step' t' = true -> t' < t.

(** The rows answered for the later step are not newer than those
    answered for the earlier one. *)
Definition rows_of_later_step_older (db : EventDB) (step step' : Step) : Prop :=
  forall r r', r ∈ db_rows db step -> r' ∈ db_rows db step' -> row_time r' <= row_time r.

(** ** Sample data *)

(** A small stand-in for the collaborators: three categories, a URL
    normalizer that lower-cases nothing and keeps the URL, an identity
    decoder. *)
Definition sample_lib : N6Lib := {|
  CATEGORY_ENUMS := ["bots"; "cnc"; "phish"];
  PROVISIONAL_URL_SEARCH_KEY_PREFIX := "SY:";
  make_exc_ascii_str := fun e =>
    match e with
    | DBAPIError text _ _ => text
    | _ => ""
    end;
  normalize_url := fun url _ => Return url;
  urlsafe_b64decode := fun s => Return s
|}.

Definition sample_row (id : string) (time : DateTime) (client : option string)
  : FetchedRow :=
  mkFetchedRow id time time "bots" None None client.

(** Rows of three moments, newest first; the event ["a"] is stored as
    two rows, one per client organization. *)
Definition sample_rows : list FetchedRow :=
  [ sample_row "b" 300 (Some "org2");
    sample_row "a" 200 (Some "org1");
    sample_row "c" 200 None;
    sample_row "a" 200 (Some "org2");
    sample_row "d" 100 (Some "org1") ].

(** A database answering every step with those of [sample_rows] the step admits. *)
Definition sample_db : EventDB :=
  mkEventDB (fun step => List.filter (fun r => admits step (row_time r)) sample_rows)
            (fun _ => None).

Definition sample_processor (opt_limit : option Z) : _EventsQueryProcessor.t :=
  _EventsQueryProcessor.mk 1 opt_limit (0, Some 1000, None) ∅.

(** A candidate result with well-formed [url_data] and the given [url]. *)
Definition sample_result_with_url_data (url : option string) : ResultDict :=
  mkResultDict "e" 200 200 "phish" url
    (Some (mkCustom (Some (well_formed_url_data "http://example.com/" ∅)) ∅)) ∅.

(** Samples for the counts per category. *)
Definition any_row : ColumnElement := fun _ => true.

Definition sample_tables : Tables :=
  mkTables [ mkEventRow "a" 200 "bots"; mkEventRow "a" 200 "bots";
             mkEventRow "b" 300 "cnc"; mkEventRow "c" 400 "bots" ]
           [ mkClientToEventRow "a" 200 "org1"; mkClientToEventRow "b" 300 "org2";
             mkClientToEventRow "c" 400 "org2" ].

Definition sample_auth_data : AuthData := mkAuthData "org1" "user@example.org".

Definition sample_counts_processor : _BaseQueryProcessor.t :=
  _BaseQueryProcessor.mk [any_row] None.

Definition sample_counts_query : Query :=
  mkQuery (Some (and_ [cl_model_id_eq_model_id; cl_model_time_ge 0]))
          [model_time_ge 0; or_ [any_row]].

Definition sample_counts_executor : CountsExecutor :=
  fun _ => Return [("bots", 3%nat); ("phish", 1%nat)].

Definition sample_bad_counts_executor : CountsExecutor :=
  fun _ => Return [("bots", 3%nat); ("bogus", 1%nat)].

(** A processor for an open-ended query one day and a bit before [utcnow + 1h]. *)
Definition open_ended_processor : _EventsQueryProcessor.t :=
  _EventsQueryProcessor.mk 1 None (3600000000 - 86400000000 - 5, None, None) ∅.

Definition until_processor : _EventsQueryProcessor.t :=
  _EventsQueryProcessor.mk 1 None (100, None, Some (100 + 86400000000 + 5)) ∅.

(** A processor with steps of a million days, and one whose [time_min]
    is [datetime.min], with [time_max] a day and a half later. *)
Definition long_step_processor : _EventsQueryProcessor.t :=
  _EventsQueryProcessor.mk 1000000 None (0, None, None) ∅.

Definition near_datetime_min_processor : _EventsQueryProcessor.t :=
  _EventsQueryProcessor.mk 1 None
    (datetime_min, Some (datetime_min + 86400000000 + 43200000000), None) ∅.

(** Sample sessions used to exercise the transaction scope. *)
Definition healthy_session : _EventDatabaseTransactionContextManager.SessionOracle :=
  fun _ _ => None.

Definition failing_flush_session : _EventDatabaseTransactionContextManager.SessionOracle :=
  fun _ c =>
    match c with
    | _EventDatabaseTransactionContextManager.Flush => Some (OtherException "IntegrityError")
    | _ => None
    end.

(** The rollback of [__enter__] (the first call) succeeds, every later
    rollback of this session fails. *)
Definition failing_rollback_session : _EventDatabaseTransactionContextManager.SessionOracle :=
  fun calls c =>
    match c, calls with
    | _EventDatabaseTransactionContextManager.Rollback, _ :: _ =>
        Some (OtherException "OperationalError")
    | _, _ => None
    end.

Definition entered_state : _EventDatabaseTransactionContextManager.State :=
  _EventDatabaseTransactionContextManager.mkState 1 [_EventDatabaseTransactionContextManager.Rollback].

(** ** Auxiliary notions for further properties *)

(** The upper end of the queried time range when [time.until] is absent. *)
Definition effective_time_upper (utcnow : DateTime) (time_max : option DateTime) : DateTime :=
  match time_max with
  | Some time_max => time_max
  | None => utcnow + timedelta_hours 1
  end.

(** The [datetime] arithmetic of the step generator stays in range:
    [day_step] is a number of days a [timedelta] can hold, and
    [time_min] and the upper end of the queried range ([time_until],
    else [time_max], else [utcnow] + 1 hour) are [datetime] values at
    least [day_step] days after [datetime.min]. *)
Definition windows_in_range (utcnow : DateTime) (self : _EventsQueryProcessor.t) : Prop :=
  let '(time_min, time_max, time_until) := _EventsQueryProcessor._time_constraints self in
  let step_delta := timedelta_days (_EventsQueryProcessor._day_step self) in
  let top := match time_until with
             | Some time_until => time_until
             | None => effective_time_upper utcnow time_max
             end in
  _EventsQueryProcessor._day_step self <= 999999999
  /\ datetime_min + step_delta <= time_min <= datetime_max
  /\ datetime_min + step_delta <= top <= datetime_max.

(** The trace without the queries: what is yielded and logged, in order. *)
Definition without_queries (trace : list event) : list event :=
  List.filter (fun ev => match ev with EvQuery _ => false | _ => true end) trace.

(** Two states that differ at most in the queries recorded in their traces. *)
Definition same_progress (st st' : RunState) : Prop :=
  produced st = produced st'
  /\ pending st = pending st'
  /\ url_norm_cache st = url_norm_cache st'
  /\ without_queries (trace st) = without_queries (trace st').

Definition never_fails (db : EventDB) : Prop := forall query, db_fault db query = None.

(** No two rows of a time window share a [time]. *)
Definition tie_free (db : EventDB) : Prop :=
  forall step, NoDup (map row_time (db_rows db step)).

(** What makes the answers to the LIMIT/OFFSET queries of a run
    consecutive slices of one row list per time window, as [execute] has
    them: no LIMIT is used at all (there is no cap), or the rows of a
    window come ordered by [time] and no two of them share a [time], so
    that [ORDER BY time DESC] leaves the database no choice of order
    from one query to the next. *)
Definition pages_are_slices (db : EventDB) (self : _EventsQueryProcessor.t) : Prop :=
  _EventsQueryProcessor._opt_limit self = None
  \/ (answers_in_time_order db /\ tie_free db).

(** Rows of three moments, newest first, no two at the same time. *)
Definition distinct_times_rows : list FetchedRow :=
  [ sample_row "b" 300 (Some "org2");
    sample_row "a" 200 (Some "org1");
    sample_row "d" 100 (Some "org1") ].

Definition distinct_times_db : EventDB :=
  mkEventDB (fun step => List.filter (fun r => admits step (row_time r)) distinct_times_rows)
            (fun _ => None).

(** What [generate_query_results] does after the last row of the steps
    yielded: what has stopped the step generator, if anything, ends the
    run; once [rows_generator] is exhausted the last time group is
    processed and the final assertion is checked. *)
Definition after_last_row `{N6Lib} (self : _EventsQueryProcessor.t)
    (stopped : option ending) (st : RunState) : ending * RunState :=
  match stopped with
  | Some e => (e, st)
  | None =>
    let last_group :=
      match pending st with
      | [] => (None, st)
      | _ => _EventsQueryProcessor.for_same_time_rows self (pending st)
               (mkRunState (produced st) [] (url_norm_cache st) (trace st))
      end in
    match last_group with
    | (Some e, st') => (e, st')
    | (None, st') =>
        match _EventsQueryProcessor._opt_limit self with
        | None => (Exhausted, st')
        | Some opt_limit =>
            if Z.of_nat (produced st') <? opt_limit
            then (Exhausted, st')
            else (Raised (AssertionError ""), st')
        end
    end
  end.

(** The consumption of [generate_query_results] if the rows of every
    step were passed on in one go, without LIMIT and OFFSET. *)
Definition unpaged_query_results `{N6Lib} (fuel : nat) (utcnow : DateTime) (db : EventDB)
    (self : _EventsQueryProcessor.t) : ending * RunState :=
  let '(steps, stopped) := _EventsQueryProcessor._time_comparisons_per_step fuel utcnow self in
  match _EventsQueryProcessor.for_row_in_iterator self (concat (map (db_rows db) steps))
          initial_state with
  | (Some e, st) => (e, st)
  | (None, st) => after_last_row self stopped st
  end.

(** The trace of [st'] continues the trace of [st] without a query. *)
Definition grows_quietly (st st' : RunState) : Prop :=
  exists evs, trace st' = trace st ++ evs /\ queries evs = [].

(** An ending with which the processing of fetched rows leaves the generator. *)
Definition leaves_early (o : option ending) : Prop :=
  forall e, o = Some e -> e = CapReached \/ exists x, e = Raised x.

(** The query without LIMIT and OFFSET for a time window. *)
Definition unlimited_query (step : Step) : ActualQuery := mkActualQuery step None None.

(** Every query recorded in the trace has been answered by the database. *)
Definition all_answered (db : EventDB) (trace : list event) : Prop :=
  forall query, query ∈ queries trace -> db_fault db query = None.

(** The run has been left with [e] by a query the database failed on:
    the trace ends with that query and with what
    [handling_db_api_error] logs for the failure. *)
Definition ends_with_failed_query `{N6Lib} (db : EventDB) (e : ending)
    (trace : list event) : Prop :=
  exists earlier query err e',
    db_fault db query = Some err
    /\ all_answered db earlier
    /\ _BaseQueryProcessor.handling_db_api_error (A := list FetchedRow) (Raise err)
       = (Raise e', (_BaseQueryProcessor.handling_db_api_error
                       (A := list FetchedRow) (Raise err)).2)
    /\ e = Raised e'
    /\ trace = earlier ++ EvQuery query
                 :: map EvLog (_BaseQueryProcessor.handling_db_api_error
                                 (A := list FetchedRow) (Raise err)).2.

(** The LIMIT of a query built under the cap [opt_limit] when
    [produced_results_count] results have been produced. *)
Definition query_limit_for (opt_limit : Z) (produced_results_count : nat) : Z :=
  let still_expected := opt_limit - Z.of_nat produced_results_count in
  still_expected + Z.max 100 (still_expected / 4).

(** Every query of the trace has the LIMIT that fits the number of
    results yielded before it ([seen] counts those before the trace),
    and an OFFSET. *)
Fixpoint limits_follow_results (opt_limit : Z) (seen : nat) (trace : list event) : Prop :=
  match trace with
  | [] => True
  | EvQuery query :: trace' =>
      (Z.of_nat seen < opt_limit
       /\ aq_limit query = Some (query_limit_for opt_limit seen)
       /\ is_Some (aq_offset query))
      /\ limits_follow_results opt_limit seen trace'
  | EvYield _ :: trace' => limits_follow_results opt_limit (S seen) trace'
  | EvLog _ :: trace' => limits_follow_results opt_limit seen trace'
  end.

(** [_results_counter] counts the results yielded so far. *)
Definition tallied (st : RunState) : Prop := produced st = length (yielded (trace st)).

(** The same events processor without [opt.limit]. *)
Definition without_limit (self : _EventsQueryProcessor.t) : _EventsQueryProcessor.t :=
  _EventsQueryProcessor.mk (_EventsQueryProcessor._day_step self) None
    (_EventsQueryProcessor._time_constraints self)
    (_EventsQueryProcessor._filtering_params self).

(** The capped processing [capped] against the uncapped one [unlimited],
    started in the same state: both have done the same, or the capped
    one has left the generator and the uncapped one has gone on from
    there. *)
Definition cut_short (capped unlimited : option ending * RunState) : Prop :=
  capped = unlimited
  \/ (is_Some capped.1 /\ trace capped.2 `prefix_of` trace unlimited.2).

(** A row the database holds for one of the [steps]. *)
Definition fetched_from (db : EventDB) (steps : list Step) (row : FetchedRow) : Prop :=
  exists step, step ∈ steps /\ row ∈ db_rows db step.

(** The result is about the event of the row. *)
Definition stands_for (result_dict : ResultDict) (row : FetchedRow) : Prop :=
  res_id result_dict = row_id row /\ res_time result_dict = row_time row.

(** The event of the result and each of its clients are found in rows
    that satisfy [from_db]. *)
Definition backed_by (from_db : FetchedRow -> Prop) (result_dict : ResultDict) : Prop :=
  (exists row, from_db row /\ stands_for result_dict row)
  /\ forall org, org ∈ res_client result_dict ->
       exists row, from_db row /\ stands_for result_dict row /\ row_client row = Some org.

(** The rows being collected satisfy [from_db] and share their time,
    and what has been yielded is backed by such rows. *)
Definition sourced (from_db : FetchedRow -> Prop) (st : RunState) : Prop :=
  (forall r, r ∈ pending st -> from_db r)
  /\ (forall r r', r ∈ pending st -> r' ∈ pending st -> row_time r = row_time r')
  /\ Forall (backed_by from_db) (yielded (trace st)).

(** A row the secondary URL filter lets through as it is: no
    [url_data] in its [custom], and no provisional [url]. *)
Definition plain_row `{N6Lib} (row : FetchedRow) : Prop :=
  match row_custom row with
  | Some c => custom_url_data c = None \/ custom_url_data c = Some PyNone
  | None => True
  end
  /\ match row_url row with
     | Some u => _EventsQueryProcessor.startswith u PROVISIONAL_URL_SEARCH_KEY_PREFIX = false
     | None => True
     end.

(** One of the results is about the event of the row and has the
    client of the row (if any) in its [client] set. *)
Definition represented (row : FetchedRow) (results : list ResultDict) : Prop :=
  exists result_dict,
    result_dict ∈ results
    /\ stands_for result_dict row
    /\ forall org, row_client row = Some org -> org ∈ res_client result_dict.

(** The rows being collected are plain and share their time, and each
    of the rows [seen] so far is being collected or represented in what
    has been yielded. *)
Definition covering `{N6Lib} (seen : list FetchedRow) (st : RunState) : Prop :=
  (forall r, r ∈ pending st -> plain_row r)
  /\ (forall r r', r ∈ pending st -> r' ∈ pending st -> row_time r = row_time r')
  /\ forall r, r ∈ seen -> r ∈ pending st \/ represented r (yielded (trace st)).

(** What identifies the event of a result. *)
Definition event_key (result_dict : ResultDict) : DateTime * string :=
  (res_time result_dict, res_id result_dict).

(** No event has been yielded twice; what has been yielded is newer
    than the rows being collected, which share their time; and nothing
    is yielded before a row is collected. *)
Definition distinct_so_far (st : RunState) : Prop :=
  NoDup (map event_key (yielded (trace st)))
  /\ (forall rd r, rd ∈ yielded (trace st) -> r ∈ pending st -> row_time r < res_time rd)
  /\ (forall r r', r ∈ pending st -> r' ∈ pending st -> row_time r = row_time r')
  /\ (pending st = [] -> yielded (trace st) = []).

(** An access condition that looks at the columns of [event] only. *)
Definition on_event_alone (condition : ColumnElement) : Prop :=
  forall e cl, condition (e, cl) = condition (e, None).

(** The ids found in the rows of [event] of the given category, not
    older than [since] and let through by the access conditions, for
    which some row of [client_to_event], not older than [since] either,
    associates the id with the organization [org]. *)
Definition own_event_ids (tables : Tables) (org : string) (conds : list ColumnElement)
    (since : DateTime) (category : string) : list string :=
  map ev_id
    (List.filter
       (fun e =>
          bool_decide (ev_category e = category)
          && (since <=? ev_time e)
          && or_ conds (e, None)
          && existsb (fun cl => bool_decide (cl_id cl = ev_id e)
                                && (since <=? cl_time cl)
                                && bool_decide (cl_client cl = org))
                     (tbl_client_to_event tables))
       (tbl_event tables)).

(** ** [N6DataBackendAPI]: the request parameters of the event methods *)

(** A cleaned value of a request parameter. *)
Inductive ParamValue : Type :=
  | PvStr (s : string)
  | PvInt (n : Z)
  | PvDateTime (t : DateTime).

(** A *cleaned params dict*: parameter names to lists of cleaned values. *)
Abbreviation ParamsDict := (gmap string (list ParamValue)).

Abbreviation AccessZoneConditionsDict := (gmap string (list ColumnElement)).

(** Modelled from the spec: [n6lib.auth_api.ACCESS_ZONES] is not among
    the sources.  The three access zones are "inside", "threats" and
    "search". *)
Definition ACCESS_ZONES : list string := ["inside"; "threats"; "search"].

(** The keyword arguments [_generate_result_dicts] passes to
    [_EventsQueryProcessor] (but for [data_spec], which is not modelled). *)
Record EventsQueryProcessorArgs : Type := mkEventsQueryProcessorArgs {
  arg_access_filtering_conditions : list ColumnElement;
  arg_client_org_ids : option (list ParamValue);
  arg_day_step : Z;
  arg_opt_limit : option ParamValue;
  arg_time_constraints : ParamValue * option ParamValue * option ParamValue;
  arg_filtering_params : ParamsDict
}.

Module EventsAPI.

(** [[x] = values]: unpacking a list that must have one element. *)
Definition unpack_single {A} (values : list A) : result A :=
  match values with
  | [x] => Return x
  | _ => Raise (OtherException "ValueError")
  end.

(** [[x] = params.pop(key, [None])] *)
Definition pop_single_or_none (key : string) : Prog ParamsDict (option ParamValue) :=
  fun params =>
    match params !! key with
    | Some values =>
        match unpack_single values with
        | Return x => (Return (Some x), delete key params)
        | Raise e => (Raise e, delete key params)
        end
    | None => (Return None, params)
    end.

Definition _get_access_filtering_conditions
    (access_zone_conditions : AccessZoneConditionsDict) (access_zone : string)
  : result (list ColumnElement) :=
  match access_zone_conditions !! access_zone with
  | Some (c :: conds) => Return (c :: conds)
  | _ => Raise (AssertionError
                  "filtering conditions for the {!r} access zone not provided")
  end.

Definition _pop_opt_limit : Prog ParamsDict (option ParamValue) :=
  pop_single_or_none "opt.limit".

Definition _pop_time_constraints
  : Prog ParamsDict (ParamValue * option ParamValue * option ParamValue) :=
  fun params =>
    match params !! "time.min" with
    | None =>
        (Raise (AssertionError
                  "request parameters are expected to include the `time.min` parameter"),
         params)
    | Some values =>
        let params := delete "time.min" params in
        match unpack_single values with
        | Raise e => (Raise e, params)
        | Return time_min =>
            match pop_single_or_none "time.max" params with
            | (Raise e, params) => (Raise e, params)
            | (Return time_max, params) =>
                match pop_single_or_none "time.until" params with
                | (Raise e, params) => (Raise e, params)
                | (Return time_until, params) =>
                    (Return (time_min, time_max, time_until), params)
                end
            end
        end
    end.

Definition _delete_opt_prefixed_params : Prog ParamsDict unit :=
  fun params =>
    (Return tt,
     filter (fun kv => _EventsQueryProcessor.startswith kv.1 "opt." = false) params).

Definition _assert_internal_guarantees (params : ParamsDict) (access_zone : string)
    (client_org_ids : option (list ParamValue)) : result unit :=
  if bool_decide (is_Some (params !! "client")) then Raise (AssertionError "")
  else if negb (bool_decide (access_zone ∈ ACCESS_ZONES)) then Raise (AssertionError "")
  else if bool_decide (access_zone = "inside") then
    match client_org_ids with
    | Some [_] => Return tt
    | _ => Raise (AssertionError "")
    end
  else
    match client_org_ids with
    | Some [] => Raise (AssertionError "")
    | _ => Return tt
    end.

(** [_EventsQueryProcessor._allowed_to_have_query_func] *)
Definition _allowed_to_have_query_func (param_key : string) : bool :=
  negb (bool_decide (param_key = "client"))
  && negb (_EventsQueryProcessor.startswith param_key "time."
           || _EventsQueryProcessor.startswith param_key "opt.").

(** The assertions of [_EventsQueryProcessor.__init__] and of
    [_BaseQueryProcessor.__init__] on the keyword arguments; what
    [__init__] then builds from [data_spec] is not modelled. *)
Definition __init__ (args : EventsQueryProcessorArgs) : result EventsQueryProcessorArgs :=
  if negb (bool_decide (map_Forall (fun key _ => _allowed_to_have_query_func key = true)
                                   (arg_filtering_params args)))
  then Raise (AssertionError "")
  else if negb (_BaseQueryProcessor.truthy (arg_access_filtering_conditions args))
  then Raise (AssertionError "")
  else match arg_client_org_ids args with
       | Some [] => Raise (AssertionError "")
       | _ => Return args
       end.

(** [_generate_result_dicts] up to the construction of the query
    processor, whose keyword arguments are returned; the state is the
    [params] dict of the caller, which is mutated. *)
Definition _generate_result_dicts (day_step : Z)
    (access_zone_conditions : AccessZoneConditionsDict) (access_zone : string)
    (client_org_ids : option (list ParamValue))
  : Prog ParamsDict EventsQueryProcessorArgs :=
  fun params =>
    match _get_access_filtering_conditions access_zone_conditions access_zone with
    | Raise e => (Raise e, params)
    | Return access_filtering_conditions =>
        match _pop_opt_limit params with
        | (Raise e, params) => (Raise e, params)
        | (Return opt_limit, params) =>
            match _pop_time_constraints params with
            | (Raise e, params) => (Raise e, params)
            | (Return time_constraints, params) =>
                let '(_, params) := _delete_opt_prefixed_params params in
                match _assert_internal_guarantees params access_zone client_org_ids with
                | Raise e => (Raise e, params)
                | Return _ =>
                    (__init__ (mkEventsQueryProcessorArgs access_filtering_conditions
                                 client_org_ids day_step opt_limit time_constraints params),
                     params)
                end
            end
        end
    end.

(** [params.pop('client', None) or None] *)
Definition pop_client_org_ids : Prog ParamsDict (option (list ParamValue)) :=
  fun params =>
    match params !! "client" with
    | Some (v :: vs) => (Return (Some (v :: vs)), delete "client" params)
    | Some [] => (Return None, delete "client" params)
    | None => (Return None, params)
    end.

Definition report_inside (day_step : Z) (auth_data : AuthData)
    (access_zone_conditions : AccessZoneConditionsDict)
  : Prog ParamsDict EventsQueryProcessorArgs :=
  fun params =>
    if bool_decide (is_Some (params !! "client"))
    then (Raise (AssertionError
                   "the `client` parameter is *not* expected for the inside access zone"),
          params)
    else _generate_result_dicts day_step access_zone_conditions "inside"
           (Some [PvStr (org_id auth_data)]) params.

Definition report_threats (day_step : Z) (auth_data : AuthData)
    (access_zone_conditions : AccessZoneConditionsDict)
  : Prog ParamsDict EventsQueryProcessorArgs :=
  fun params =>
    match pop_client_org_ids params with
    | (Raise e, params) => (Raise e, params)
    | (Return client_org_ids, params) =>
        _generate_result_dicts day_step access_zone_conditions "threats"
          client_org_ids params
    end.

Definition search_events (day_step : Z) (auth_data : AuthData)
    (access_zone_conditions : AccessZoneConditionsDict)
  : Prog ParamsDict EventsQueryProcessorArgs :=
  fun params =>
    match pop_client_org_ids params with
    | (Raise e, params) => (Raise e, params)
    | (Return client_org_ids, params) =>
        _generate_result_dicts day_step access_zone_conditions "search"
          client_org_ids params
    end.

End EventsAPI.

(** ** [N6DataBackendAPI.configure_db_session] *)

Module DBSessionSetup.

Section WithEngine.
Variable Engine : Type.

(** The class attribute [__db_config_guard] (a deque, [deque([None])] at
    first) and the engine [_DBSession] and [Base.metadata] are bound to. *)
Record State : Type := mkState {
  db_config_guard : list unit;
  session_bind : option Engine;
  metadata_bind : option Engine
}.

Definition initial : State := mkState [tt] None None.

Definition configure_db_session (engine : Engine) : Prog State unit :=
  fun st =>
    match db_config_guard st with
    | [] => (Raise (OtherException "RuntimeError"), st)
    | _ :: _ =>
        (Return tt, mkState (removelast (db_config_guard st)) (Some engine) (Some engine))
    end.

(** Calls of [configure_db_session], one after the other. *)
Fixpoint configure_each (engines : list Engine) (st : State) : list (result unit) * State :=
  match engines with
  | [] => ([], st)
  | engine :: engines' =>
      let '(r, st1) := configure_db_session engine st in
      let '(rs, st2) := configure_each engines' st1 in
      (r :: rs, st2)
  end.
End WithEngine.

End DBSessionSetup.

(** Samples for the request parameters. *)
Definition sample_params : ParamsDict :=
  <["time.min" := [PvDateTime 0]]>
    (<["opt.limit" := [PvInt 10]]>
       (<["opt.primary" := [PvStr "true"]]>
          (<["category" := [PvStr "bots"; PvStr "cnc"]]> ∅))).

Definition sample_access_zone_conditions : AccessZoneConditionsDict :=
  <["threats" := [any_row]]> ∅.

(* ================================================================== *)
(** * Properties *)
(* ================================================================== *)

Module Import Tx := _EventDatabaseTransactionContextManager.

(** C7 (as amended). Leaving the transactional scope.  With no active
    exception the session is flushed; when the flush succeeds the
    transaction is committed, and when the commit succeeds [__exit__]
    returns; when the flush raises, the transaction is rolled back, and
    when the rollback succeeds the flush failure is what [__exit__]
    raises.  With an active exception the transaction is rolled back,
    and when the rollback succeeds [__exit__] returns without raising,
    so that the [with] statement lets the original exception propagate:
    a body that raises [exc] makes [with transact: body] raise that same
    [exc].  When the commit or the rollback made by [__exit__] raises
    itself (an error other than [NoContextToExitFrom]), the session is
    removed and what [__exit__] raises is that error, or the error of
    the removal if that fails too: neither the flush failure nor the
    original exception of the body propagates then. *)
Theorem transact_exit_flush_commit_rollback
    (oracle : SessionOracle) (s : State) :
  context_count s = 1%nat ->
  (oracle (session_calls s) Flush = None ->
   oracle (session_calls s ++ [Flush]) Commit = None ->
   __exit__ oracle None s
     = (Return tt, mkState 0 (session_calls s ++ [Flush; Commit])))
  /\ (forall flush_exc,
       oracle (session_calls s) Flush = Some flush_exc ->
       oracle (session_calls s ++ [Flush]) Rollback = None ->
       __exit__ oracle None s
         = (Raise flush_exc, mkState 0 (session_calls s ++ [Flush; Rollback])))
  /\ (forall exc,
       oracle (session_calls s) Rollback = None ->
       __exit__ oracle (Some exc) s
         = (Return tt, mkState 0 (session_calls s ++ [Rollback])))
  /\ (forall (A : Type) (body : Prog State A) (s0 s1 : State) (exc : exception),
       __enter__ oracle s0 = (Return tt, s1) ->
       body s1 = (Raise exc, s) ->
       oracle (session_calls s) Rollback = None ->
       with_transact oracle body s0
         = (Raise exc, mkState 0 (session_calls s ++ [Rollback])))
  /\ (forall e,
       oracle (session_calls s) Flush = None ->
       oracle (session_calls s ++ [Flush]) Commit = Some e ->
       e <> NoContextToExitFrom ->
       __exit__ oracle None s
         = (Raise (default e (oracle (session_calls s ++ [Flush; Commit]) Remove)),
            mkState 0 (session_calls s ++ [Flush; Commit; Remove])))
  /\ (forall flush_exc e,
       oracle (session_calls s) Flush = Some flush_exc ->
       oracle (session_calls s ++ [Flush]) Rollback = Some e ->
       e <> NoContextToExitFrom ->
       __exit__ oracle None s
         = (Raise (default e (oracle (session_calls s ++ [Flush; Rollback]) Remove)),
            mkState 0 (session_calls s ++ [Flush; Rollback; Remove])))
  /\ (forall exc e,
       oracle (session_calls s) Rollback = Some e ->
       e <> NoContextToExitFrom ->
       __exit__ oracle (Some exc) s
         = (Raise (default e (oracle (session_calls s ++ [Rollback]) Remove)),
            mkState 0 (session_calls s ++ [Rollback; Remove])))
  /\ (forall (A : Type) (body : Prog State A) (s0 s1 : State) (exc e : exception),
       __enter__ oracle s0 = (Return tt, s1) ->
       body s1 = (Raise exc, s) ->
       oracle (session_calls s) Rollback = Some e ->
       e <> NoContextToExitFrom ->
       with_transact oracle body s0
         = (Raise (default e (oracle (session_calls s ++ [Rollback]) Remove)),
            mkState 0 (session_calls s ++ [Rollback; Remove]))).
Proof.
  intros Hcount.
  assert (Hexc : forall exc,
            oracle (session_calls s) Rollback = None ->
            __exit__ oracle (Some exc) s
            = (Return tt, mkState 0 (session_calls s ++ [Rollback]))).
  { destruct s as [n calls]. simpl in Hcount. subst n. intros exc Hrollback.
    unfold __exit__, on_exit, _transaction_finalizer, _DBSession.
    simpl in *. rewrite Hrollback. reflexivity. }
  assert (Hfailed : forall exc e,
            oracle (session_calls s) Rollback = Some e ->
            e <> NoContextToExitFrom ->
            __exit__ oracle (Some exc) s
            = (Raise (default e (oracle (session_calls s ++ [Rollback]) Remove)),
               mkState 0 (session_calls s ++ [Rollback; Remove]))).
  { destruct s as [n calls]. simpl in Hcount. subst n. intros exc e Hrollback Hne.
    unfold __exit__, on_exit, _transaction_finalizer, _DBSession.
    simpl in *. rewrite Hrollback.
    destruct e; try congruence; simpl;
      destruct (oracle (calls ++ [Rollback]) Remove); simpl;
      now rewrite <- app_assoc. }
  split; [|split; [|split; [|split; [|split; [|split; [|split]]]]]].
  - destruct s as [n calls]. simpl in Hcount. subst n.
    intros Hflush Hcommit. unfold __exit__, on_exit, _transaction_finalizer, _DBSession.
    simpl in *. rewrite Hflush. simpl. rewrite Hcommit. simpl.
    now rewrite <- app_assoc.
  - destruct s as [n calls]. simpl in Hcount. subst n.
    intros flush_exc Hflush Hrollback.
    unfold __exit__, on_exit, _transaction_finalizer, _DBSession.
    simpl in *. rewrite Hflush. simpl. rewrite Hrollback. simpl.
    now rewrite <- app_assoc.
  - exact Hexc.
  - intros A body s0 s1 exc Henter Hbody Hrollback.
    unfold with_transact. rewrite Henter, Hbody, (Hexc exc Hrollback). reflexivity.
  - destruct s as [n calls]. simpl in Hcount. subst n.
    intros e Hflush Hcommit Hne.
    unfold __exit__, on_exit, _transaction_finalizer, _DBSession.
    simpl in *. rewrite Hflush. simpl. rewrite Hcommit. simpl.
    replace ((calls ++ [Flush]) ++ [Commit]) with (calls ++ [Flush; Commit])
      by (now rewrite <- app_assoc).
    destruct e; try congruence; simpl;
      destruct (oracle (calls ++ [Flush; Commit]) Remove); simpl;
      now rewrite <- app_assoc.
  - destruct s as [n calls]. simpl in Hcount. subst n.
    intros flush_exc e Hflush Hrollback Hne.
    unfold __exit__, on_exit, _transaction_finalizer, _DBSession.
    simpl in *. rewrite Hflush. simpl. rewrite Hrollback. simpl.
    replace ((calls ++ [Flush]) ++ [Rollback]) with (calls ++ [Flush; Rollback])
      by (now rewrite <- app_assoc).
    destruct e; try congruence; simpl;
      destruct (oracle (calls ++ [Flush; Rollback]) Remove); simpl;
      now rewrite <- app_assoc.
  - exact Hfailed.
  - intros A body s0 s1 exc e Henter Hbody Hrollback Hne.
    unfold with_transact. rewrite Henter, Hbody, (Hfailed exc e Hrollback Hne).
    reflexivity.
Qed.

(** C7 as it was stated does not hold whatever the session does: with
    a session whose rollback fails, the [with] statement around a body
    raising [ValueError] removes the session and raises the error of the
    rollback, not the exception of the body. *)
Lemma failed_rollback_replaces_exception :
  ~ (forall (oracle : SessionOracle) (body : Prog State unit) (s0 s1 s : State)
       (exc : exception),
       __enter__ oracle s0 = (Return tt, s1) ->
       body s1 = (Raise exc, s) ->
       context_count s = 1%nat ->
       (with_transact oracle body s0).1 = Raise exc).
Proof.
  intros Hclaim.
  specialize (Hclaim failing_rollback_session
                (fun s => (Raise (OtherException "ValueError"), s))
                (mkState 0 []) entered_state entered_state
                (OtherException "ValueError") eq_refl eq_refl eq_refl).
  vm_compute in Hclaim. discriminate.
Qed.

(** ** Strings *)

Lemma length_substring_0 (n : nat) (s : string) :
  String.length (substring 0 n s) = Nat.min n (String.length s).
Proof.
  revert n. induction s as [|c s IH]; intros [|n]; simpl; auto.
Qed.

Lemma get_substring_0 (n i : nat) (s : string) (c : ascii) :
  String.get i (substring 0 n s) = Some c -> String.get i s = Some c.
Proof.
  revert n i. induction s as [|c0 s IH]; intros [|n] i; simpl; try discriminate.
  destruct i as [|i]; [tauto | apply IH].
Qed.

Lemma length_replace_newlines (s : string) :
  String.length (_BaseQueryProcessor.replace_newlines s) = String.length s.
Proof. induction s as [|c s IH]; simpl; congruence. Qed.

Lemma get_replace_newlines (i : nat) (s : string) :
  String.get i (_BaseQueryProcessor.replace_newlines s)
  = option_map (fun c => if Ascii.eqb c "010"%char then " "%char else c) (String.get i s).
Proof.
  revert i. induction s as [|c s IH]; intros [|i]; simpl; auto.
Qed.

(** C8. A [DBAPIError] raised inside [handling_db_api_error] is logged
    with its statement and parameters and replaced by an
    [EventDatabaseError] whose summary is ["DB API error - "], then at
    most 200 characters taken from the start of the driver message with
    every newline turned into a space, then ["..."]; any other outcome of
    the body is passed on and nothing is logged. *)
Theorem handling_db_api_error_translates `{N6Lib} (A : Type)
    (text statement params : string) :
  let exc := DBAPIError text statement params in
  let shortened :=
    _BaseQueryProcessor.replace_newlines (substring 0 200 (make_exc_ascii_str exc)) in
  let summary := ("DB API error - " ++ shortened ++ "...")%string in
  _BaseQueryProcessor.handling_db_api_error (A := A) (Raise exc)
    = (Raise (EventDatabaseError summary), [LogDbApiError summary statement params])
  /\ (String.length shortened <= 200)%nat
  /\ (forall i c, String.get i shortened = Some c ->
        c <> "010"%char
        /\ exists c0, String.get i (make_exc_ascii_str exc) = Some c0
                      /\ c = (if Ascii.eqb c0 "010"%char then " "%char else c0))
  /\ (forall body : result A,
        (forall t s p, body <> Raise (DBAPIError t s p)) ->
        _BaseQueryProcessor.handling_db_api_error body = (body, [])).
Proof.
  intros exc shortened summary.
  assert (Hget : forall i c, String.get i shortened = Some c ->
            exists c0, String.get i (substring 0 200 (make_exc_ascii_str exc)) = Some c0
                       /\ c = (if Ascii.eqb c0 "010"%char then " "%char else c0)).
  { intros i c Hi. unfold shortened in Hi. rewrite get_replace_newlines in Hi.
    destruct (String.get i (substring 0 200 (make_exc_ascii_str exc))) as [c0|];
      simpl in Hi; [|discriminate].
    exists c0. split; congruence. }
  split; [reflexivity|]. split; [|split].
  - unfold shortened. rewrite length_replace_newlines, length_substring_0. lia.
  - intros i c Hi. destruct (Hget i c Hi) as (c0 & Hc0 & ->). split.
    + destruct (Ascii.eqb_spec c0 "010"%char); [discriminate | assumption].
    + exists c0. split; [eapply get_substring_0; eassumption | reflexivity].
  - intros body Hbody. destruct body as [a|e]; [reflexivity|].
    destruct e; try reflexivity. exfalso. eapply Hbody. reflexivity.
Qed.

(** ** Dicts *)

Section Dicts.
Import _CountsQueryProcessor.

Lemma dict_fromkeys_lookup (keys : list string) (v : nat) (c : string) :
  dict_fromkeys keys v !! c = if decide (c ∈ keys) then Some v else None.
Proof.
  induction keys as [|k keys IH]; cbn [dict_fromkeys foldr].
  - rewrite lookup_empty. destruct (decide (c ∈ [])) as [Hin|_]; [inversion Hin | reflexivity].
  - fold (dict_fromkeys keys v). destruct (decide (k = c)) as [->|Hne].
    + rewrite lookup_insert_eq. rewrite decide_True by left. reflexivity.
    + rewrite lookup_insert_ne by assumption. rewrite IH.
      destruct (decide (c ∈ keys)), (decide (c ∈ k :: keys)); try reflexivity; set_solver.
Qed.

Lemma dom_dict_fromkeys (keys : list string) (v : nat) :
  dom (dict_fromkeys keys v) = list_to_set keys.
Proof.
  induction keys as [|k keys IH]; simpl.
  - apply dom_empty_L.
  - rewrite dom_insert_L, IH. reflexivity.
Qed.

Lemma dom_dict_update (d : gmap string nat) (pairs : list (string * nat)) :
  dom (dict_update d pairs) = dom d ∪ list_to_set pairs.*1.
Proof.
  revert d. induction pairs as [|[k v] pairs IH]; intros d; simpl.
  - set_solver.
  - unfold dict_update in *. simpl. rewrite IH, dom_insert_L. set_solver.
Qed.

Lemma dict_update_lookup_notin (d : gmap string nat) (pairs : list (string * nat))
    (c : string) :
  c ∉ pairs.*1 -> dict_update d pairs !! c = d !! c.
Proof.
  revert d. induction pairs as [|[k v] pairs IH]; intros d Hnotin; simpl; [reflexivity|].
  unfold dict_update in *. simpl in *.
  rewrite IH by set_solver. apply lookup_insert_ne. set_solver.
Qed.

Lemma dict_update_lookup_last (d : gmap string nat) (pre post : list (string * nat))
    (c : string) (n : nat) :
  c ∉ post.*1 -> dict_update d (pre ++ (c, n) :: post) !! c = Some n.
Proof.
  intros Hnotin. unfold dict_update. rewrite foldl_app. simpl.
  fold (dict_update (<[c:=n]> (foldl (fun d kv => <[kv.1:=kv.2]> d) d pre)) post).
  rewrite dict_update_lookup_notin by assumption. apply lookup_insert_eq.
Qed.
End Dicts.

(** ** Counts per category *)

Section Counts.
Context `{N6Lib}.
Import _BaseQueryProcessor _CountsQueryProcessor.

Lemma build_query_for_counts (conds : list ColumnElement)
    (ids : option (list string)) (self : t) (since : DateTime) :
  __init__ conds ids = Return self ->
  _build_query_for_counts_per_category self since
  = Return (mkQuery
      (Some (and_ [cl_model_id_eq_model_id; cl_model_time_ge since]))
      ([model_time_ge since; or_ conds]
       ++ match ids with Some l => [client_column_in_ l] | None => [] end)).
Proof.
  unfold __init__, _build_query_for_counts_per_category,
    query__access_filtering, query__client_filtering.
  destruct conds as [|c conds]; simpl; [discriminate|].
  destruct ids as [[|i ids]|]; simpl; try discriminate;
    intros [= <-]; reflexivity.
Qed.

Lemma verify_no_illegal_categories_ok (d : gmap string nat) :
  dom d ⊆ list_to_set CATEGORY_ENUMS ->
  _verify_no_illegal_categories d = Return tt.
Proof.
  intros Hsub. unfold _verify_no_illegal_categories, illegal_categories.
  rewrite bool_decide_eq_true_2; [reflexivity | set_solver].
Qed.

Lemma verify_no_illegal_categories_fails (d : gmap string nat) (c : string) :
  c ∈ dom d -> c ∉ CATEGORY_ENUMS ->
  exists msg, _verify_no_illegal_categories d = Raise (AssertionError msg).
Proof.
  intros Hin Hnot. unfold _verify_no_illegal_categories, illegal_categories.
  rewrite bool_decide_eq_false_2; [eauto | set_solver].
Qed.

Lemma get_counts_per_category_legal (execute : CountsExecutor) (self : t)
    (since : DateTime) (query : Query) (pairs : list (string * nat)) :
  _build_query_for_counts_per_category self since = Return query ->
  execute query = Return pairs ->
  (forall c, c ∈ pairs.*1 -> c ∈ CATEGORY_ENUMS) ->
  get_counts_per_category execute self since
  = (Return (dict_update (dict_fromkeys CATEGORY_ENUMS 0%nat) pairs), []).
Proof.
  intros Hq Hex Hlegal. unfold get_counts_per_category. rewrite Hq, Hex. simpl.
  assert (Hdom : dom (dict_update (dict_fromkeys CATEGORY_ENUMS 0%nat) pairs)
                 = (list_to_set CATEGORY_ENUMS : gset string)).
  { rewrite dom_dict_update, dom_dict_fromkeys. set_solver. }
  rewrite verify_no_illegal_categories_ok by (rewrite Hdom; reflexivity).
  rewrite bool_decide_eq_true_2 by assumption. reflexivity.
Qed.

Lemma get_counts_per_category_illegal (execute : CountsExecutor) (self : t)
    (since : DateTime) (query : Query) (pairs : list (string * nat)) (c : string) :
  _build_query_for_counts_per_category self since = Return query ->
  execute query = Return pairs ->
  c ∈ pairs.*1 -> c ∉ CATEGORY_ENUMS ->
  exists msg, get_counts_per_category execute self since
              = (Raise (AssertionError msg), []).
Proof.
  intros Hq Hex Hin Hnot. unfold get_counts_per_category. rewrite Hq, Hex. simpl.
  destruct (verify_no_illegal_categories_fails
              (dict_update (dict_fromkeys CATEGORY_ENUMS 0%nat) pairs) c)
    as [msg Hmsg]; [|assumption|].
  - rewrite dom_dict_update. set_solver.
  - rewrite Hmsg. eauto.
Qed.
End Counts.

(** C6. For a counts processor whose query the database answers with
    [pairs]: when every returned category is canonical, the
    result is a dict whose key set is exactly the canonical enumeration,
    equal to the all-zero dict overlaid with [pairs] (a category that is
    not returned maps to 0, a returned one to its last returned count);
    when some returned category is not canonical, the call raises an
    [AssertionError] and no dict is returned. *)
Theorem get_counts_per_category_total_over_enumeration `{N6Lib}
    (execute : CountsExecutor) (self : _BaseQueryProcessor.t)
    (since : DateTime) (query : Query) (pairs : list (string * nat)) :
  _CountsQueryProcessor._build_query_for_counts_per_category self since = Return query ->
  execute query = Return pairs ->
  ((forall c, c ∈ pairs.*1 -> c ∈ CATEGORY_ENUMS) ->
   exists m : gmap string nat,
     _CountsQueryProcessor.get_counts_per_category execute self since = (Return m, [])
     /\ m = _CountsQueryProcessor.dict_update
              (_CountsQueryProcessor.dict_fromkeys CATEGORY_ENUMS 0%nat) pairs
     /\ dom m = list_to_set CATEGORY_ENUMS
     /\ (forall c, c ∈ CATEGORY_ENUMS -> c ∉ pairs.*1 -> m !! c = Some 0%nat)
     /\ (forall pre c n post,
           pairs = pre ++ (c, n) :: post -> c ∉ post.*1 -> m !! c = Some n))
  /\ (forall c, c ∈ pairs.*1 -> c ∉ CATEGORY_ENUMS ->
      exists msg,
        _CountsQueryProcessor.get_counts_per_category execute self since
        = (Raise (AssertionError msg), [])).
Proof.
  intros Hq Hex. split.
  - intros Hlegal. eexists. split; [|split; [reflexivity|]].
    + eapply get_counts_per_category_legal; eassumption.
    + split; [|split].
      * rewrite dom_dict_update, dom_dict_fromkeys. set_solver.
      * intros c Hc Hnot. rewrite dict_update_lookup_notin by assumption.
        rewrite dict_fromkeys_lookup. rewrite decide_True by assumption. reflexivity.
      * intros pre c n post -> Hnot. apply dict_update_lookup_last. assumption.
  - intros c Hin Hnot. eapply get_counts_per_category_illegal; eassumption.
Qed.

(** ** The counts query on the tables *)

Lemma joined_rows_inv (t : Tables) (on_ : ColumnElement) (j : JoinedRow) :
  In j (joined_rows t (Some on_)) ->
  In (fst j) (tbl_event t)
  /\ forall cl, snd j = Some cl -> In cl (tbl_client_to_event t) /\ on_ j = true.
Proof.
  unfold joined_rows. rewrite in_flat_map. intros (e & He & Hj).
  destruct (List.filter (fun cl => on_ (e, Some cl)) (tbl_client_to_event t))
    as [|cl0 matching] eqn:Hf.
  - destruct Hj as [<-|[]]. simpl. split; [assumption | discriminate].
  - rewrite <- Hf in Hj. apply in_map_iff in Hj as (cl & <- & Hcl).
    apply filter_In in Hcl as [Hcl Hon]. simpl. split; [assumption|].
    intros cl' [= <-]. split; assumption.
Qed.

Lemma count_distinct_ids_absent (c : string) (rows : list JoinedRow) :
  c ∉ map (fun j => ev_category (fst j)) rows -> count_distinct_ids c rows = 0%nat.
Proof.
  intros Hnot. unfold count_distinct_ids.
  replace (List.filter (fun j => bool_decide (ev_category (fst j) = c)) rows) with (@nil JoinedRow);
    [reflexivity|].
  symmetry. induction rows as [|j rows IH]; simpl; [reflexivity|].
  rewrite bool_decide_eq_false_2 by (intros <-; apply Hnot; simpl; left).
  apply IH. intros Hin. apply Hnot. simpl. right. assumption.
Qed.

Lemma keys_of_pairing {A B} (g : A -> B) (l : list A) :
  (map (fun c => (c, g c)) l).*1 = l.
Proof. induction l as [|a l IH]; simpl; [reflexivity | f_equal; exact IH]. Qed.

Lemma category_counts_keys (rows : list JoinedRow) :
  (category_counts rows).*1 = remove_dups (map (fun j => ev_category (fst j)) rows).
Proof. unfold category_counts. apply keys_of_pairing. Qed.

Lemma dict_update_category_counts `{N6Lib} (rows : list JoinedRow) (c : string) :
  c ∈ CATEGORY_ENUMS ->
  _CountsQueryProcessor.dict_update
    (_CountsQueryProcessor.dict_fromkeys CATEGORY_ENUMS 0%nat) (category_counts rows) !! c
  = Some (count_distinct_ids c rows).
Proof.
  intros Hc.
  destruct (decide (c ∈ map (fun j => ev_category (fst j)) rows)) as [Hin|Hnot].
  - assert (Hin' : c ∈ remove_dups (map (fun j => ev_category (fst j)) rows))
      by (apply elem_of_remove_dups; assumption).
    apply list_elem_of_split in Hin' as (pre & post & Hsplit).
    assert (Hnd : NoDup (pre ++ c :: post)) by (rewrite <- Hsplit; apply NoDup_remove_dups).
    apply NoDup_app in Hnd as (_ & _ & Hnd). apply NoDup_cons in Hnd as [Hpost _].
    unfold category_counts. rewrite Hsplit, map_app. simpl.
    apply dict_update_lookup_last.
    rewrite keys_of_pairing. assumption.
  - rewrite dict_update_lookup_notin.
    + rewrite dict_fromkeys_lookup, decide_True by assumption.
      rewrite count_distinct_ids_absent by assumption. reflexivity.
    + rewrite category_counts_keys. rewrite elem_of_remove_dups. assumption.
Qed.

(** C9. The counts query built for an API call carries, after the time
    and access filters, the client filter [client IN (org_id)] for the
    caller's organization alone; hence every joined row that is counted
    comes from a [client_to_event] row of that very organization and
    event, and the returned count of each category is the number of
    distinct ids among those rows. *)
Theorem api_counts_restricted_to_own_organization `{N6Lib}
    (tables : Tables) (auth_data : AuthData)
    (access_filtering_conditions : list ColumnElement) (since : DateTime) :
  access_filtering_conditions <> [] ->
  exists (self : _BaseQueryProcessor.t) (query : Query),
    _BaseQueryProcessor.__init__ access_filtering_conditions (Some [org_id auth_data])
    = Return self
    /\ _BaseQueryProcessor._client_org_ids self = Some [org_id auth_data]
    /\ _CountsQueryProcessor._build_query_for_counts_per_category self since = Return query
    /\ q_filter query = [model_time_ge since;
                         or_ access_filtering_conditions;
                         client_column_in_ [org_id auth_data]]
    /\ N6DataBackendAPI.get_counts_per_category
         (sql_counts tables) auth_data access_filtering_conditions since
       = _CountsQueryProcessor.get_counts_per_category (sql_counts tables) self since
    /\ (forall j, j ∈ selected_rows tables query ->
          or_ access_filtering_conditions j = true
          /\ exists cl, snd j = Some cl
                        /\ cl ∈ tbl_client_to_event tables
                        /\ cl_client cl = org_id auth_data
                        /\ cl_id cl = ev_id (fst j))
    /\ ((forall j, j ∈ selected_rows tables query ->
           ev_category (fst j) ∈ CATEGORY_ENUMS) ->
        exists m : gmap string nat,
          N6DataBackendAPI.get_counts_per_category
            (sql_counts tables) auth_data access_filtering_conditions since
          = (Return m, [])
          /\ forall c, c ∈ CATEGORY_ENUMS ->
               m !! c = Some (count_distinct_ids c (selected_rows tables query))).
Proof.
  intros Hconds.
  destruct access_filtering_conditions as [|c0 conds] eqn:Econds; [congruence|].
  rewrite <- Econds in *.
  assert (Hinit : _BaseQueryProcessor.__init__ access_filtering_conditions
                    (Some [org_id auth_data])
                  = Return (_BaseQueryProcessor.mk access_filtering_conditions
                              (Some [org_id auth_data]))).
  { rewrite Econds. reflexivity. }
  pose proof (build_query_for_counts _ _ _ since Hinit) as Hq. simpl in Hq.
  eexists. eexists. split; [exact Hinit|]. split; [reflexivity|].
  split; [exact Hq|]. split; [reflexivity|].
  assert (Hapi : N6DataBackendAPI.get_counts_per_category
                   (sql_counts tables) auth_data access_filtering_conditions since
                 = _CountsQueryProcessor.get_counts_per_category (sql_counts tables)
                     (_BaseQueryProcessor.mk access_filtering_conditions
                        (Some [org_id auth_data])) since).
  { unfold N6DataBackendAPI.get_counts_per_category. rewrite Hinit.
    rewrite Econds. reflexivity. }
  split; [exact Hapi|]. split.
  - intros j Hj. apply list_elem_of_In in Hj. unfold selected_rows in Hj.
    apply filter_In in Hj as [Hjoin Hwhere]. simpl in Hjoin, Hwhere.
    apply andb_prop in Hwhere as [_ Hwhere].
    apply andb_prop in Hwhere as [Hacc Hwhere].
    apply andb_prop in Hwhere as [Hcli _].
    split; [exact Hacc|].
    unfold client_column_in_ in Hcli.
    destruct (snd j) as [cl|] eqn:Ecl; [|discriminate].
    apply bool_decide_eq_true_1 in Hcli.
    apply joined_rows_inv in Hjoin as [_ Hjoin].
    destruct (Hjoin cl Ecl) as [Hcl Hon].
    exists cl. split; [reflexivity|]. split; [apply list_elem_of_In; exact Hcl|].
    split; [set_solver|].
    unfold and_ in Hon. simpl in Hon. apply andb_prop in Hon as [Hid _].
    unfold cl_model_id_eq_model_id in Hid. rewrite Ecl in Hid.
    apply bool_decide_eq_true_1 in Hid. exact Hid.
  - intros Hlegal. rewrite Hapi. eexists. split.
    + eapply get_counts_per_category_legal; [exact Hq | reflexivity |].
      intros c Hc. rewrite category_counts_keys in Hc.
      rewrite elem_of_remove_dups in Hc. apply list_elem_of_fmap in Hc as (j & -> & Hj).
      apply Hlegal. exact Hj.
    + intros c Hc. apply dict_update_category_counts. exact Hc.
Qed.

(** ** Time windows *)

Lemma timedelta_cases (days : Z) :
  (timedelta days = Return (timedelta_days days) /\ Z.abs days <= 999999999)
  \/ (timedelta days = Raise OverflowError /\ 999999999 < Z.abs days).
Proof.
  unfold timedelta. destruct (Z.leb_spec (Z.abs days) 999999999); [left | right];
    (split; [reflexivity | lia]).
Qed.

Lemma datetime_add_cases (dt delta : Z) :
  (datetime_add dt delta = Return (dt + delta)
   /\ datetime_min <= dt + delta <= datetime_max)
  \/ (datetime_add dt delta = Raise OverflowError
      /\ ~ datetime_min <= dt + delta <= datetime_max).
Proof.
  unfold datetime_add.
  destruct (Z.leb_spec datetime_min (dt + delta));
    destruct (Z.leb_spec (dt + delta) datetime_max); simpl;
    [left | right | right | right]; (split; [reflexivity | lia]).
Qed.

Lemma datetime_sub_cases (dt delta : Z) :
  (datetime_sub dt delta = Return (dt - delta)
   /\ datetime_min <= dt - delta <= datetime_max)
  \/ (datetime_sub dt delta = Raise OverflowError
      /\ ~ datetime_min <= dt - delta <= datetime_max).
Proof.
  unfold datetime_sub.
  destruct (Z.leb_spec datetime_min (dt - delta));
    destruct (Z.leb_spec (dt - delta) datetime_max); simpl;
    [left | right | right | right]; (split; [reflexivity | lia]).
Qed.

Section Windows.
Import _EventsQueryProcessor.
Variables time_min step_delta : DateTime.

Lemma time_comparisons_loop_run (fuel : nat) :
  forall time_lower time_upper steps,
    _time_comparisons_loop fuel time_min step_delta time_lower time_upper = (steps, None) ->
    loop_run time_min step_delta time_lower time_upper steps.
Proof.
  induction fuel as [|fuel IH]; intros time_lower time_upper steps; simpl.
  - destruct ((time_min <? time_lower) || bool_decide (time_upper = None)) eqn:Econd;
      [discriminate|].
    intros [= <-]. apply orb_false_elim in Econd as [Hlt Hup].
    apply bool_decide_eq_false_1 in Hup. destruct time_upper as [u|]; [|congruence].
    apply loop_exit. lia.
  - destruct ((time_min <? time_lower) || bool_decide (time_upper = None)) eqn:Econd.
    + destruct (datetime_sub_cases time_lower step_delta) as [[-> _] | [-> _]];
        [|discriminate].
      destruct (_time_comparisons_loop fuel time_min step_delta
                  (Z.max time_min (time_lower - step_delta)) (Some time_lower))
        as [rest stopped] eqn:Erec.
      intros [= <- ->]. apply loop_iteration.
      * apply orb_prop in Econd as [Hlt|Hup]; [left; lia | right].
        apply bool_decide_eq_true_1 in Hup. exact Hup.
      * apply IH. exact Erec.
    + intros [= <-]. apply orb_false_elim in Econd as [Hlt Hup].
      apply bool_decide_eq_false_1 in Hup. destruct time_upper as [u|]; [|congruence].
      apply loop_exit. lia.
Qed.

Lemma time_comparisons_loop_more_fuel (fuel : nat) :
  forall fuel' time_lower time_upper steps stopped,
    _time_comparisons_loop fuel time_min step_delta time_lower time_upper = (steps, stopped) ->
    stopped <> Some OutOfFuel ->
    (fuel <= fuel')%nat ->
    _time_comparisons_loop fuel' time_min step_delta time_lower time_upper = (steps, stopped).
Proof.
  induction fuel as [|fuel IH]; intros fuel' time_lower time_upper steps stopped Hrun Hstop Hle.
  - simpl in Hrun.
    destruct ((time_min <? time_lower) || bool_decide (time_upper = None)) eqn:Econd;
      [congruence|].
    destruct fuel'; simpl; rewrite Econd; exact Hrun.
  - destruct fuel' as [|fuel']; [lia|]. simpl in *.
    destruct ((time_min <? time_lower) || bool_decide (time_upper = None)) eqn:Econd;
      [|exact Hrun].
    destruct (datetime_sub time_lower step_delta) as [lowered|e]; [|exact Hrun].
    destruct (_time_comparisons_loop fuel time_min step_delta
                (Z.max time_min lowered) (Some time_lower))
      as [rest stopped'] eqn:Erec.
    injection Hrun as <- <-.
    rewrite (IH fuel' _ _ rest stopped' Erec Hstop) by lia. reflexivity.
Qed.

Lemma time_comparisons_loop_stops (fuel : nat) :
  forall time_lower time_upper,
    let stopped :=
      (_time_comparisons_loop fuel time_min step_delta time_lower time_upper).2 in
    stopped = None \/ stopped = Some OutOfFuel \/ stopped = Some (Raised OverflowError).
Proof.
  induction fuel as [|fuel IH]; intros time_lower time_upper; simpl.
  - destruct ((time_min <? time_lower) || bool_decide (time_upper = None)); simpl; auto.
  - destruct ((time_min <? time_lower) || bool_decide (time_upper = None)); simpl; [|auto].
    destruct (datetime_sub_cases time_lower step_delta) as [[-> _] | [-> _]]; simpl; [|auto].
    specialize (IH (Z.max time_min (time_lower - step_delta)) (Some time_lower)).
    destruct (_time_comparisons_loop fuel time_min step_delta
                (Z.max time_min (time_lower - step_delta)) (Some time_lower))
      as [rest stopped'].
    exact IH.
Qed.

(** What the loop yields within its fuel and before an [OverflowError]
    is the beginning of what a run to the end yields. *)
Lemma time_comparisons_loop_prefix (time_lower : DateTime) (time_upper : option DateTime)
    (ideal : list Step) :
  loop_run time_min step_delta time_lower time_upper ideal ->
  forall fuel,
    (_time_comparisons_loop fuel time_min step_delta time_lower time_upper).1
      `prefix_of` ideal.
Proof.
  induction 1 as [l u Hle|l up ideal Hcond Hrun IH]; intros fuel.
  - assert (Hcond : (time_min <? l) = false) by (apply Z.ltb_ge; exact Hle).
    destruct fuel; simpl; rewrite Hcond; reflexivity.
  - destruct fuel as [|fuel]; simpl.
    + destruct ((time_min <? l) || bool_decide (up = None)); apply prefix_nil.
    + destruct ((time_min <? l) || bool_decide (up = None)); [|apply prefix_nil].
      destruct (datetime_sub_cases l step_delta) as [[-> _] | [-> _]];
        [|apply prefix_nil].
      specialize (IH fuel).
      destruct (_time_comparisons_loop fuel time_min step_delta
                  (Z.max time_min (l - step_delta)) (Some l)) as [rest stopped'].
      simpl in *. apply prefix_cons. exact IH.
Qed.

Hypothesis step_delta_pos : 0 < step_delta.

Lemma enough_fuel_next (fuel : nat) (time_lower : DateTime) :
  (enough_fuel time_min step_delta time_lower <= S fuel)%nat ->
  time_min < time_lower - step_delta ->
  (enough_fuel time_min step_delta (Z.max time_min (time_lower - step_delta)) <= fuel)%nat.
Proof.
  intros Hfuel Hmore.
  assert (Hmax : Z.max time_min (time_lower - step_delta) = time_lower - step_delta) by lia.
  rewrite Hmax. unfold enough_fuel in *.
  replace (time_lower - step_delta - time_min)
    with ((time_lower - time_min) + (-1) * step_delta) by lia.
  rewrite Z.div_add by lia.
  assert (1 <= (time_lower - time_min) / step_delta).
  { apply Z.div_le_lower_bound; lia. }
  lia.
Qed.

Lemma loop_run_exists (fuel : nat) :
  forall time_lower time_upper,
    (enough_fuel time_min step_delta time_lower <= fuel)%nat ->
    exists steps, loop_run time_min step_delta time_lower time_upper steps.
Proof.
  induction fuel as [|fuel IH]; intros time_lower time_upper Hfuel;
    [unfold enough_fuel in Hfuel; lia|].
  assert (Hcases : (time_lower <= time_min /\ exists u, time_upper = Some u)
                   \/ (time_min < time_lower \/ time_upper = None)).
  { destruct time_upper as [u|]; [|auto].
    destruct (Z.le_gt_cases time_lower time_min); [left; eauto | right; left; lia]. }
  destruct Hcases as [(Hle & u & ->) | Hcond].
  - exists []. apply loop_exit. exact Hle.
  - assert (Hrest : exists rest,
              loop_run time_min step_delta (Z.max time_min (time_lower - step_delta))
                       (Some time_lower) rest).
    { destruct (Z.le_gt_cases (time_lower - step_delta) time_min) as [Hdone|Hmore].
      - exists []. apply loop_exit. lia.
      - apply IH. apply enough_fuel_next; [exact Hfuel | lia]. }
    destruct Hrest as [rest Hrest]. eexists. apply loop_iteration; eassumption.
Qed.

Lemma time_comparisons_loop_ends (fuel : nat) :
  forall time_lower time_upper,
    (enough_fuel time_min step_delta time_lower <= fuel)%nat ->
    (_time_comparisons_loop fuel time_min step_delta time_lower time_upper).2
    <> Some OutOfFuel.
Proof.
  induction fuel as [|fuel IH]; intros time_lower time_upper Hfuel;
    [unfold enough_fuel in Hfuel; lia|].
  simpl.
  destruct ((time_min <? time_lower) || bool_decide (time_upper = None)) eqn:Econd;
    [|discriminate].
  destruct (datetime_sub_cases time_lower step_delta) as [[-> _] | [-> _]];
    [|discriminate].
  destruct (Z.le_gt_cases (time_lower - step_delta) time_min) as [Hdone|Hmore].
  - assert (Hmax : Z.max time_min (time_lower - step_delta) = time_min) by lia.
    rewrite Hmax.
    assert (Hcond : (time_min <? time_min) = false) by (apply Z.ltb_ge; lia).
    destruct fuel; simpl; rewrite Hcond; discriminate.
  - specialize (IH (Z.max time_min (time_lower - step_delta)) (Some time_lower)
                   (enough_fuel_next fuel time_lower Hfuel ltac:(lia))).
    destruct (_time_comparisons_loop fuel time_min step_delta
                (Z.max time_min (time_lower - step_delta)) (Some time_lower))
      as [rest stopped'].
    exact IH.
Qed.

(** No subtraction leaves the range of [datetime] when [time_min] and
    the start are at least one step above [datetime_min]. *)
Lemma time_comparisons_loop_in_range (fuel : nat) :
  datetime_min + step_delta <= time_min <= datetime_max ->
  forall time_lower time_upper,
    datetime_min + step_delta <= time_lower <= datetime_max ->
    forall e,
      (_time_comparisons_loop fuel time_min step_delta time_lower time_upper).2
      <> Some (Raised e).
Proof.
  intros Hmin. induction fuel as [|fuel IH]; intros time_lower time_upper Hlower e; simpl.
  - destruct ((time_min <? time_lower) || bool_decide (time_upper = None)); discriminate.
  - destruct ((time_min <? time_lower) || bool_decide (time_upper = None)); [|discriminate].
    destruct (datetime_sub_cases time_lower step_delta) as [[-> _] | [_ Hout]]; [|lia].
    match goal with
    | |- context [_time_comparisons_loop ?f ?a ?b ?c ?d] =>
        specialize (IH c d ltac:(lia) e);
        destruct (_time_comparisons_loop f a b c d) as [rest stopped']
    end.
    exact IH.
Qed.

(** Facts about a finished run of the loop. *)
Lemma loop_run_lower_bounds (time_lower : DateTime) (time_upper : option DateTime)
    (steps : list Step) :
  loop_run time_min step_delta time_lower time_upper steps ->
  Forall (fun step => time_min <= lower_bound step) steps.
Proof.
  induction 1 as [|l up steps Hcond Hrun IH]; constructor; [|exact IH].
  unfold lower_bound. simpl. lia.
Qed.

Lemma loop_run_last (time_lower : DateTime) (time_upper : option DateTime)
    (steps : list Step) :
  loop_run time_min step_delta time_lower time_upper steps ->
  forall first, exists step,
    last (first :: steps) = Some step
    /\ (steps <> [] -> lower_bound step = time_min).
Proof.
  induction 1 as [l u Hle|l up steps Hcond Hrun IH]; intros first.
  - exists first. split; [reflexivity | congruence].
  - destruct (IH (partial op_ge (Z.max time_min (l - step_delta)), partial op_lt l))
      as (step & Hlast & Hlow).
    exists step. split; [rewrite last_cons_cons; exact Hlast|].
    intros _. destruct steps as [|s steps'].
    + simpl in Hlast. injection Hlast as <-. unfold lower_bound. simpl.
      inversion Hrun; subst; lia.
    + apply Hlow. discriminate.
Qed.

Lemma loop_run_descends (time_lower : DateTime) (time_upper : option DateTime)
    (steps : list Step) :
  loop_run time_min step_delta time_lower time_upper steps ->
  forall i step step',
    steps !! i = Some step -> steps !! S i = Some step' ->
    lower_bound step' < lower_bound step
    /\ lower_bound step - lower_bound step' <= step_delta
    /\ snd step' = partial op_lt (lower_bound step).
Proof.
  induction 1 as [|l up steps Hcond Hrun IH]; intros i step step' Hi HSi;
    [discriminate|].
  destruct i as [|i].
  - simpl in Hi, HSi. injection Hi as <-.
    inversion Hrun as [|l' up' steps' Hcond' Hrun' El Eup]; subst; [discriminate|].
    simpl in HSi. injection HSi as <-. unfold lower_bound. simpl.
    destruct Hcond' as [Hlt|]; [|discriminate]. repeat split; lia.
  - simpl in Hi, HSi. eapply IH; eassumption.
Qed.

(** The k-th yielded step, when the loop starts [j] steps below [top]. *)
Lemma loop_run_formula (top : DateTime) (time_lower : DateTime)
    (time_upper : option DateTime) (steps : list Step) :
  loop_run time_min step_delta time_lower time_upper steps ->
  forall j : Z,
    time_lower = Z.max time_min (top - j * step_delta) ->
    forall (k : nat) step, steps !! k = Some step ->
      step = (partial op_ge (Z.max time_min (top - (j + Z.of_nat k + 1) * step_delta)),
              partial op_lt (Z.max time_min (top - (j + Z.of_nat k) * step_delta))).
Proof.
  induction 1 as [|l up steps Hcond Hrun IH]; intros j Hl k step Hk; [discriminate|].
  destruct k as [|k].
  - simpl in Hk. injection Hk as <-. subst l. f_equal; f_equal; lia.
  - simpl in Hk.
    rewrite (IH (j + 1) ltac:(subst l; nia) k step Hk).
    f_equal; f_equal; f_equal; lia.
Qed.
End Windows.

Lemma first_step_then_loop (time_min step_delta : DateTime) (first : Step)
    (time_upper : DateTime) (steps : list Step) :
  0 < step_delta ->
  time_min <= lower_bound first ->
  loop_run time_min step_delta (lower_bound first) (Some time_upper) steps ->
  (exists step, last (first :: steps) = Some step /\ lower_bound step = time_min)
  /\ (forall i step step',
        (first :: steps) !! i = Some step -> (first :: steps) !! S i = Some step' ->
        lower_bound step' < lower_bound step
        /\ lower_bound step - lower_bound step' <= step_delta
        /\ snd step' = partial op_lt (lower_bound step))
  /\ Forall (fun step => time_min <= lower_bound step) (first :: steps).
Proof.
  intros Hpos Hfirst Hrun. split; [|split].
  - destruct (loop_run_last _ _ _ _ _ Hrun first) as (step & Hlast & Hlow).
    exists step. split; [exact Hlast|].
    destruct steps as [|s steps]; [|apply Hlow; discriminate].
    simpl in Hlast. injection Hlast as <-. inversion Hrun; subst. lia.
  - intros [|i] step step' Hi HSi.
    + simpl in Hi, HSi. injection Hi as <-.
      inversion Hrun as [|l up steps' Hcond Hrun' El Eup]; subst; [discriminate|].
      simpl in HSi. injection HSi as <-. unfold lower_bound in *. simpl in *.
      destruct Hcond as [Hlt|]; [|discriminate].
      split; [lia | split; [lia | reflexivity]].
    + simpl in Hi, HSi. eapply loop_run_descends; eassumption.
  - constructor; [exact Hfirst|]. eapply loop_run_lower_bounds. exact Hrun.
Qed.

Lemma timedelta_days_pos (days : Z) : 1 <= days -> 0 < timedelta_days days.
Proof. unfold timedelta_days. lia. Qed.

Lemma time_comparisons_per_step_shape (fuel : nat) (utcnow : DateTime)
    (self : _EventsQueryProcessor.t) (steps : list Step) :
  _EventsQueryProcessor._time_comparisons_per_step fuel utcnow self = (steps, None) ->
  let time_min := (_EventsQueryProcessor._time_constraints self).1.1 in
  let time_max := (_EventsQueryProcessor._time_constraints self).1.2 in
  let step_delta := timedelta_days (_EventsQueryProcessor._day_step self) in
  match (_EventsQueryProcessor._time_constraints self).2 with
  | None =>
      let time_upper := effective_time_upper utcnow time_max in
      exists rest,
        steps = (partial op_ge (Z.max time_min (time_upper - step_delta)),
                 partial op_le time_upper) :: rest
        /\ loop_run time_min step_delta (Z.max time_min (time_upper - step_delta))
                    (Some time_upper) rest
  | Some time_until => loop_run time_min step_delta time_until None steps
  end.
Proof.
  unfold _EventsQueryProcessor._time_comparisons_per_step.
  destruct (_EventsQueryProcessor._time_constraints self) as [[time_min time_max] time_until].
  destruct (timedelta_cases (_EventsQueryProcessor._day_step self)) as [[-> _] | [-> _]];
    [|discriminate].
  simpl. destruct time_until as [time_until|].
  - apply time_comparisons_loop_run.
  - assert (Hupper :
      match time_max with
      | Some time_max => Return time_max
      | None => datetime_add utcnow (timedelta_hours 1)
      end = Return (effective_time_upper utcnow time_max)
      \/ match time_max with
         | Some time_max => Return time_max
         | None => datetime_add utcnow (timedelta_hours 1)
         end = Raise OverflowError).
    { destruct time_max as [time_max|]; [left; reflexivity|].
      destruct (datetime_add_cases utcnow (timedelta_hours 1)) as [[-> _] | [-> _]];
        [left | right]; reflexivity. }
    destruct Hupper as [-> | ->]; [|discriminate].
    destruct (datetime_sub_cases (effective_time_upper utcnow time_max)
                (timedelta_days (_EventsQueryProcessor._day_step self)))
      as [[-> _] | [-> _]]; [|discriminate].
    match goal with
    | |- context [_EventsQueryProcessor._time_comparisons_loop ?f ?a ?b ?c ?d] =>
        destruct (_EventsQueryProcessor._time_comparisons_loop f a b c d)
          as [rest stopped] eqn:Eloop
    end.
    intros [= <- ->]. exists rest. split; [reflexivity|].
    apply (time_comparisons_loop_run _ _ _ _ _ _ Eloop).
Qed.

Lemma time_comparisons_per_step_more_fuel (fuel fuel' : nat) (utcnow : DateTime)
    (self : _EventsQueryProcessor.t) (steps : list Step) (stopped : option ending) :
  _EventsQueryProcessor._time_comparisons_per_step fuel utcnow self = (steps, stopped) ->
  stopped <> Some OutOfFuel ->
  (fuel <= fuel')%nat ->
  _EventsQueryProcessor._time_comparisons_per_step fuel' utcnow self = (steps, stopped).
Proof.
  unfold _EventsQueryProcessor._time_comparisons_per_step.
  destruct (_EventsQueryProcessor._time_constraints self) as [[time_min time_max] time_until].
  destruct (timedelta (_EventsQueryProcessor._day_step self)) as [step_delta|e]; [|auto].
  destruct time_until as [time_until|]; [apply time_comparisons_loop_more_fuel|].
  destruct (match time_max with
            | Some time_max => Return time_max
            | None => datetime_add utcnow (timedelta_hours 1)
            end) as [time_upper|e]; [|auto].
  destruct (datetime_sub time_upper step_delta) as [lowered|e]; [|auto].
  destruct (_EventsQueryProcessor._time_comparisons_loop fuel time_min step_delta
              (Z.max time_min lowered) (Some time_upper)) as [rest stopped'] eqn:Eloop.
  intros [= <- <-] Hstop Hle.
  rewrite (time_comparisons_loop_more_fuel _ _ _ _ _ _ _ _ Eloop Hstop Hle). reflexivity.
Qed.

Lemma time_comparisons_per_step_stops (fuel : nat) (utcnow : DateTime)
    (self : _EventsQueryProcessor.t) :
  let stopped := (_EventsQueryProcessor._time_comparisons_per_step fuel utcnow self).2 in
  stopped = None \/ stopped = Some OutOfFuel \/ stopped = Some (Raised OverflowError).
Proof.
  unfold _EventsQueryProcessor._time_comparisons_per_step.
  destruct (_EventsQueryProcessor._time_constraints self) as [[time_min time_max] time_until].
  destruct (timedelta_cases (_EventsQueryProcessor._day_step self)) as [[-> _] | [-> _]];
    [|simpl; auto].
  destruct time_until as [time_until|]; [apply time_comparisons_loop_stops|].
  assert (Hupper :
    (exists time_upper,
       match time_max with
       | Some time_max => Return time_max
       | None => datetime_add utcnow (timedelta_hours 1)
       end = Return time_upper)
    \/ match time_max with
       | Some time_max => Return time_max
       | None => datetime_add utcnow (timedelta_hours 1)
       end = Raise OverflowError).
  { destruct time_max as [time_max|]; [left; eauto|].
    destruct (datetime_add_cases utcnow (timedelta_hours 1)) as [[-> _] | [-> _]];
      [left; eauto | right; reflexivity]. }
  destruct Hupper as [[time_upper ->] | ->]; [|simpl; auto].
  destruct (datetime_sub_cases time_upper
              (timedelta_days (_EventsQueryProcessor._day_step self)))
    as [[-> _] | [-> _]]; [|simpl; auto].
  match goal with
  | |- context [_EventsQueryProcessor._time_comparisons_loop ?f ?a ?b ?c ?d] =>
      pose proof (time_comparisons_loop_stops a b f c d) as Hloop;
      destruct (_EventsQueryProcessor._time_comparisons_loop f a b c d) as [rest stopped']
  end.
  exact Hloop.
Qed.

Lemma time_comparisons_per_step_ends (self : _EventsQueryProcessor.t) (utcnow : DateTime) :
  1 <= _EventsQueryProcessor._day_step self ->
  exists fuel0, forall fuel, (fuel0 <= fuel)%nat ->
    (_EventsQueryProcessor._time_comparisons_per_step fuel utcnow self).2 <> Some OutOfFuel.
Proof.
  intros Hday. pose proof (timedelta_days_pos _ Hday) as Hpos.
  unfold _EventsQueryProcessor._time_comparisons_per_step.
  destruct (_EventsQueryProcessor._time_constraints self) as [[time_min time_max] time_until].
  destruct (timedelta_cases (_EventsQueryProcessor._day_step self)) as [[-> _] | [-> _]];
    [|exists O; intros; discriminate].
  destruct time_until as [time_until|].
  - exists (enough_fuel time_min (timedelta_days (_EventsQueryProcessor._day_step self))
              time_until).
    intros fuel Hle. apply time_comparisons_loop_ends; assumption.
  - destruct (match time_max with
              | Some time_max => Return time_max
              | None => datetime_add utcnow (timedelta_hours 1)
              end) as [time_upper|e]; [|exists O; intros; discriminate].
    destruct (datetime_sub time_upper
                (timedelta_days (_EventsQueryProcessor._day_step self)))
      as [lowered|e]; [|exists O; intros; discriminate].
    exists (enough_fuel time_min (timedelta_days (_EventsQueryProcessor._day_step self))
              (Z.max time_min lowered)).
    intros fuel Hle.
    pose proof (time_comparisons_loop_ends _ _ Hpos fuel _ (Some time_upper) Hle) as Hloop.
    destruct (_EventsQueryProcessor._time_comparisons_loop fuel time_min
                (timedelta_days (_EventsQueryProcessor._day_step self))
                (Z.max time_min lowered) (Some time_upper)) as [rest stopped'].
    exact Hloop.
Qed.

Lemma time_comparisons_per_step_in_range (fuel : nat) (utcnow : DateTime)
    (self : _EventsQueryProcessor.t) :
  1 <= _EventsQueryProcessor._day_step self ->
  windows_in_range utcnow self ->
  forall e,
    (_EventsQueryProcessor._time_comparisons_per_step fuel utcnow self).2
    <> Some (Raised e).
Proof.
  intros Hday Hrange e. pose proof (timedelta_days_pos _ Hday) as Hpos.
  unfold windows_in_range in Hrange.
  unfold _EventsQueryProcessor._time_comparisons_per_step.
  destruct (_EventsQueryProcessor._time_constraints self) as [[time_min time_max] time_until].
  destruct Hrange as (Hdays & Hmin & Htop).
  destruct (timedelta_cases (_EventsQueryProcessor._day_step self)) as [[-> _] | [_ Hout]];
    [|lia].
  destruct time_until as [time_until|].
  - apply time_comparisons_loop_in_range; assumption.
  - assert (Hupper :
      match time_max with
      | Some time_max => Return time_max
      | None => datetime_add utcnow (timedelta_hours 1)
      end = Return (effective_time_upper utcnow time_max)).
    { destruct time_max as [time_max|]; [reflexivity|].
      unfold effective_time_upper in *.
      destruct (datetime_add_cases utcnow (timedelta_hours 1)) as [[-> _] | [_ Hout]];
        [reflexivity | lia]. }
    rewrite Hupper.
    destruct (datetime_sub_cases (effective_time_upper utcnow time_max)
                (timedelta_days (_EventsQueryProcessor._day_step self)))
      as [[-> _] | [_ Hout]]; [|lia].
    match goal with
    | |- context [_EventsQueryProcessor._time_comparisons_loop ?f ?a ?b ?c ?d] =>
        pose proof (time_comparisons_loop_in_range a b Hpos f Hmin c d ltac:(lia) e)
          as Hloop;
        destruct (_EventsQueryProcessor._time_comparisons_loop f a b c d)
          as [rest stopped']
    end.
    exact Hloop.
Qed.

(** The steps yielded, whether or not the generator gets to its end. *)
Lemma time_comparisons_per_step_descends (fuel : nat) (utcnow : DateTime)
    (self : _EventsQueryProcessor.t) :
  1 <= _EventsQueryProcessor._day_step self ->
  let time_min := (_EventsQueryProcessor._time_constraints self).1.1 in
  let step_delta := timedelta_days (_EventsQueryProcessor._day_step self) in
  let steps := (_EventsQueryProcessor._time_comparisons_per_step fuel utcnow self).1 in
  (forall i step step',
     steps !! i = Some step -> steps !! S i = Some step' ->
     lower_bound step' < lower_bound step
     /\ lower_bound step - lower_bound step' <= step_delta
     /\ snd step' = partial op_lt (lower_bound step))
  /\ Forall (fun step => time_min <= lower_bound step) steps.
Proof.
  intros Hday time_min step_delta steps.
  assert (Hpos : 0 < step_delta) by (apply timedelta_days_pos; exact Hday).
  assert (Hideal : steps = []
                   \/ exists first time_upper rest ideal,
                        steps = first :: rest
                        /\ rest `prefix_of` ideal
                        /\ time_min <= lower_bound first
                        /\ loop_run time_min step_delta (lower_bound first)
                                    (Some time_upper) ideal).
  { subst steps time_min step_delta.
    unfold _EventsQueryProcessor._time_comparisons_per_step.
    destruct (_EventsQueryProcessor._time_constraints self)
      as [[time_min time_max] time_until].
    destruct (timedelta_cases (_EventsQueryProcessor._day_step self)) as [[-> _] | [-> _]];
      [|left; reflexivity].
    simpl. destruct time_until as [time_until|].
    - destruct (loop_run_exists time_min _ Hpos _ time_until None (Nat.le_refl _))
        as [ideal Hrun].
      pose proof (time_comparisons_loop_prefix _ _ _ _ _ Hrun fuel) as Hprefix.
      inversion Hrun as [|l up ideal' Hcond Hrun' El Eup]; subst.
      destruct (_EventsQueryProcessor._time_comparisons_loop fuel time_min _ time_until None)
        as [[|first rest] stopped]; [left; reflexivity | right].
      simpl in *. exists first, time_until, rest, ideal'.
      pose proof (prefix_cons_inv_1 _ _ _ _ Hprefix) as ->.
      apply prefix_cons_inv_2 in Hprefix.
      split; [reflexivity|]. split; [exact Hprefix|].
      split; [unfold lower_bound; simpl; lia | exact Hrun'].
    - destruct (match time_max with
                | Some time_max => Return time_max
                | None => datetime_add utcnow (timedelta_hours 1)
                end) as [time_upper|e]; [|left; reflexivity].
      destruct (datetime_sub_cases time_upper
                  (timedelta_days (_EventsQueryProcessor._day_step self)))
        as [[-> _] | [-> _]]; [|left; reflexivity].
      right.
      destruct (loop_run_exists time_min _ Hpos _
                  (Z.max time_min
                     (time_upper - timedelta_days (_EventsQueryProcessor._day_step self)))
                  (Some time_upper) (Nat.le_refl _))
        as [ideal Hrun].
      pose proof (time_comparisons_loop_prefix _ _ _ _ _ Hrun fuel) as Hprefix.
      match goal with
      | |- context [_EventsQueryProcessor._time_comparisons_loop ?f ?a ?b ?c ?d] =>
          destruct (_EventsQueryProcessor._time_comparisons_loop f a b c d)
            as [rest stopped]
      end.
      simpl in *. eexists _, time_upper, rest, ideal.
      split; [reflexivity|]. split; [exact Hprefix|].
      split; [unfold lower_bound; simpl; lia | exact Hrun]. }
  destruct Hideal as [-> | (first & time_upper & rest & ideal & -> & Hprefix & Hfirst & Hrun)].
  - split; [intros i step step' Hi; discriminate | constructor].
  - destruct (first_step_then_loop _ _ _ _ _ Hpos Hfirst Hrun) as (_ & Hdesc & Hlow).
    assert (Hwhole : (first :: rest) `prefix_of` (first :: ideal))
      by (apply prefix_cons; exact Hprefix).
    split.
    + intros i step step' Hi HSi.
      apply (Hdesc i step step'); eapply prefix_lookup_Some; eassumption.
    + destruct Hwhole as [more Hwhole]. rewrite Hwhole in Hlow.
      apply Forall_app in Hlow as [Hlow _]. exact Hlow.
Qed.

Lemma time_comparisons_per_step_reaches_time_min (fuel : nat) (utcnow : DateTime)
    (self : _EventsQueryProcessor.t) (steps : list Step) :
  1 <= _EventsQueryProcessor._day_step self ->
  _EventsQueryProcessor._time_comparisons_per_step fuel utcnow self = (steps, None) ->
  steps <> []
  /\ exists step,
       last steps = Some step
       /\ lower_bound step = (_EventsQueryProcessor._time_constraints self).1.1.
Proof.
  intros Hday Hsteps.
  assert (Hpos : 0 < timedelta_days (_EventsQueryProcessor._day_step self))
    by (apply timedelta_days_pos; exact Hday).
  pose proof (time_comparisons_per_step_shape fuel utcnow self steps Hsteps) as Hshape.
  cbv zeta in Hshape.
  destruct (_EventsQueryProcessor._time_constraints self) as [[time_min time_max] time_until].
  simpl in *. destruct time_until as [time_until|].
  - inversion Hshape as [|l up steps' Hcond Hrun' El Eup]; subst.
    split; [discriminate|].
    eapply first_step_then_loop; [exact Hpos | unfold lower_bound; simpl; lia | exact Hrun'].
  - destruct Hshape as (rest & -> & Hrun). split; [discriminate|].
    eapply (first_step_then_loop time_min _
              (partial op_ge (Z.max time_min (effective_time_upper utcnow time_max
                 - timedelta_days (_EventsQueryProcessor._day_step self))),
               partial op_le (effective_time_upper utcnow time_max)));
      [exact Hpos | unfold lower_bound; simpl; lia | exact Hrun].
Qed.

(** With [day_step >= 1] the step generator comes to an end, normally
    or with an [OverflowError]: from some amount of fuel on it gives the
    same steps and the same ending. *)
Lemma time_comparisons_per_step_settles
    (self : _EventsQueryProcessor.t) (utcnow : DateTime) :
  1 <= _EventsQueryProcessor._day_step self ->
  exists (steps : list Step) (stopped : option ending) (fuel0 : nat),
    (forall fuel, (fuel0 <= fuel)%nat ->
       _EventsQueryProcessor._time_comparisons_per_step fuel utcnow self = (steps, stopped))
    /\ (stopped = None \/ stopped = Some (Raised OverflowError))
    /\ (windows_in_range utcnow self -> stopped = None).
Proof.
  intros Hday. destruct (time_comparisons_per_step_ends self utcnow Hday) as [fuel0 Hends].
  pose proof (Hends fuel0 (Nat.le_refl _)) as Hend.
  pose proof (time_comparisons_per_step_stops fuel0 utcnow self) as Hstops.
  pose proof (time_comparisons_per_step_in_range fuel0 utcnow self Hday) as Hrange.
  destruct (_EventsQueryProcessor._time_comparisons_per_step fuel0 utcnow self)
    as [steps stopped] eqn:Esteps.
  simpl in *. exists steps, stopped, fuel0. split; [|split].
  - intros fuel Hle. eapply time_comparisons_per_step_more_fuel; eassumption.
  - destruct Hstops as [Hstop | [Hstop | Hstop]]; [left; exact Hstop | contradiction |
                                                    right; exact Hstop].
  - intros Hin. destruct Hstops as [Hstop | [Hstop | Hstop]];
      [exact Hstop | contradiction | exfalso; exact (Hrange Hin _ Hstop)].
Qed.

(** C10 (as amended). With [time_min] given and [day_step >= 1],
    whatever [time_max] and [time_until] are, the step generator ends
    after finitely many steps: from some amount of fuel on it gives the
    same steps and the same ending, which is the normal one or an
    [OverflowError] of the [datetime] arithmetic, and the normal one
    whenever that arithmetic stays in range ([windows_in_range]).  From
    one yielded step to the next the lower bound strictly decreases, by
    at most [day_step] days, the next step taking the previous lower
    bound as its exclusive upper bound, and no lower bound is below
    [time_min].  When the generator ends normally it has yielded at
    least one step, and the last lower bound is [time_min]. *)
Theorem time_comparisons_per_step_terminates
    (self : _EventsQueryProcessor.t) (utcnow : DateTime) :
  1 <= _EventsQueryProcessor._day_step self ->
  let time_min := (_EventsQueryProcessor._time_constraints self).1.1 in
  let step_delta := timedelta_days (_EventsQueryProcessor._day_step self) in
  exists (steps : list Step) (stopped : option ending) (fuel0 : nat),
    (forall fuel, (fuel0 <= fuel)%nat ->
       _EventsQueryProcessor._time_comparisons_per_step fuel utcnow self = (steps, stopped))
    /\ (stopped = None \/ stopped = Some (Raised OverflowError))
    /\ (windows_in_range utcnow self -> stopped = None)
    /\ (forall i step step',
          steps !! i = Some step -> steps !! S i = Some step' ->
          lower_bound step' < lower_bound step
          /\ lower_bound step - lower_bound step' <= step_delta
          /\ snd step' = partial op_lt (lower_bound step))
    /\ Forall (fun step => time_min <= lower_bound step) steps
    /\ (stopped = None ->
        steps <> []
        /\ exists step, last steps = Some step /\ lower_bound step = time_min).
Proof.
  intros Hday time_min step_delta.
  destruct (time_comparisons_per_step_settles self utcnow Hday)
    as (steps & stopped & fuel0 & Hfuel & Hstop & Hrange).
  pose proof (Hfuel fuel0 (Nat.le_refl _)) as Hsteps.
  pose proof (time_comparisons_per_step_descends fuel0 utcnow self Hday) as Hdesc.
  cbv zeta in Hdesc. rewrite Hsteps in Hdesc. destruct Hdesc as [Hdesc Hlow].
  exists steps, stopped, fuel0.
  split; [exact Hfuel|]. split; [exact Hstop|]. split; [exact Hrange|].
  split; [exact Hdesc|]. split; [exact Hlow|].
  intros ->. exact (time_comparisons_per_step_reaches_time_min _ _ _ _ Hday Hsteps).
Qed.

(** C10 as it was stated does not hold for every [time_min] and
    [day_step >= 1]: with [time_min] at [datetime.min], a [time_max] a
    day and a half later and [day_step = 1], one step is yielded, and
    the next subtraction of [step_delta] raises [OverflowError]; the
    lower bound never reaches [time_min]. *)
Lemma windows_need_not_reach_time_min :
  ~ (forall (self : _EventsQueryProcessor.t) (utcnow : DateTime),
       1 <= _EventsQueryProcessor._day_step self ->
       exists (steps : list Step) (fuel : nat),
         _EventsQueryProcessor._time_comparisons_per_step fuel utcnow self = (steps, None)
         /\ exists step,
              last steps = Some step
              /\ lower_bound step = (_EventsQueryProcessor._time_constraints self).1.1).
Proof.
  intros Hclaim.
  destruct (Hclaim near_datetime_min_processor 0 ltac:(simpl; lia))
    as (steps & fuel & Hsteps & _).
  destruct fuel; vm_compute in Hsteps; discriminate.
Qed.



(** ** Grouping rows *)

Lemma string_leb_refl (a : string) : String.leb a a = true.
Proof.
  unfold String.leb. assert (E : String.compare a a = Eq) by (apply String_as_OT.cmp_eq; reflexivity).
  rewrite E. reflexivity.
Qed.

Lemma string_leb_cases (a b : string) :
  String.leb a b = true <-> a = b \/ String_as_OT.lt a b.
Proof.
  unfold String.leb. split.
  - destruct (String.compare a b) eqn:E; intros Hle.
    + left. apply String_as_OT.cmp_eq. exact E.
    + right. apply String_as_OT.cmp_lt. exact E.
    + discriminate.
  - intros [->|Hlt].
    + assert (E : String.compare b b = Eq) by (apply String_as_OT.cmp_eq; reflexivity).
      rewrite E. reflexivity.
    + apply String_as_OT.cmp_lt in Hlt. unfold String_as_OT.cmp in Hlt.
      rewrite Hlt. reflexivity.
Qed.

Lemma string_leb_trans (a b c : string) :
  String.leb a b = true -> String.leb b c = true -> String.leb a c = true.
Proof.
  rewrite !string_leb_cases. intros [->|Hab] [->|Hbc]; auto.
  right. eapply String_as_OT.lt_trans; eassumption.
Qed.

Lemma insert_by_id_perm (r : FetchedRow) (l : list FetchedRow) :
  insert_by_id r l ≡ₚ r :: l.
Proof.
  induction l as [|x l IH]; simpl; [reflexivity|].
  destruct (String.leb (row_id r) (row_id x)); [reflexivity|].
  rewrite IH. apply perm_swap.
Qed.

Lemma sorted_by_id_perm (rows : list FetchedRow) : sorted_by_id rows ≡ₚ rows.
Proof.
  induction rows as [|r rows IH]; simpl; [reflexivity|].
  rewrite insert_by_id_perm, IH. reflexivity.
Qed.

Lemma insert_by_id_sorted (r : FetchedRow) (l : list FetchedRow) :
  StronglySorted id_le l -> StronglySorted id_le (insert_by_id r l).
Proof.
  induction 1 as [|x l Hsorted IH Hall]; simpl.
  - constructor; constructor.
  - destruct (String.leb (row_id r) (row_id x)) eqn:Ele.
    + constructor; [constructor; assumption|].
      constructor; [exact Ele|].
      eapply Forall_impl; [exact Hall|]. intros y Hxy. unfold id_le in *.
      eapply string_leb_trans; eassumption.
    + constructor; [exact IH|].
      rewrite insert_by_id_perm. constructor; [|exact Hall].
      unfold id_le. destruct (String.leb_total (row_id r) (row_id x)); congruence.
Qed.

Lemma sorted_by_id_sorted (rows : list FetchedRow) :
  StronglySorted id_le (sorted_by_id rows).
Proof.
  induction rows as [|r rows IH]; simpl; [constructor|].
  apply insert_by_id_sorted. exact IH.
Qed.

Section Groupby.
Context {A K : Type} `{EqDecision K} (key : A -> K).

Lemma groupby_cons (x : A) (rest : list A) :
  groupby key (x :: rest)
  = match groupby key rest with
    | (y :: g) :: groups =>
        if decide (key x = key y) then (x :: y :: g) :: groups
        else [x] :: (y :: g) :: groups
    | _ => [[x]]
    end.
Proof. reflexivity. Qed.

Lemma groupby_nonempty (l : list A) : Forall (fun g => g <> []) (groupby key l).
Proof.
  induction l as [|x rest IH]; [constructor|]. rewrite groupby_cons.
  destruct (groupby key rest) as [|[|y g] groups].
  - repeat constructor. discriminate.
  - repeat constructor. discriminate.
  - inversion IH; subst. destruct (decide (key x = key y)).
    + constructor; [discriminate | assumption].
    + constructor; [discriminate | constructor; assumption].
Qed.

Lemma groupby_concat (l : list A) : concat (groupby key l) = l.
Proof.
  induction l as [|x rest IH]; [reflexivity|]. rewrite groupby_cons.
  pose proof (groupby_nonempty rest) as Hne.
  destruct (groupby key rest) as [|[|y g] groups].
  - simpl in *. congruence.
  - inversion Hne; congruence.
  - destruct (decide (key x = key y)); simpl in *; congruence.
Qed.

Lemma groupby_uniform (l : list A) :
  Forall (fun g => forall a b, a ∈ g -> b ∈ g -> key a = key b) (groupby key l).
Proof.
  induction l as [|x rest IH]; [constructor|]. rewrite groupby_cons.
  destruct (groupby key rest) as [|[|y g] groups].
  - repeat constructor. intros a b Ha Hb. set_solver.
  - repeat constructor. intros a b Ha Hb. set_solver.
  - inversion IH as [|? ? Hg Hgroups]; subst. destruct (decide (key x = key y)) as [Exy|].
    + constructor; [|assumption]. intros a b Ha Hb.
      assert (Hk : forall c, c ∈ x :: y :: g -> key c = key y).
      { intros c Hc. apply elem_of_cons in Hc as [->|Hc]; [exact Exy|].
        apply Hg; [exact Hc | left]. }
      rewrite (Hk a Ha), (Hk b Hb). reflexivity.
    + constructor; [|constructor; assumption]. intros a b Ha Hb. set_solver.
Qed.
End Groupby.

Lemma groupby_sorted_ids (l : list FetchedRow) :
  StronglySorted id_le l -> NoDup (map group_id (groupby row_id l)).
Proof.
  induction 1 as [|x rest Hsorted IH Hall]; [constructor|].
  rewrite groupby_cons.
  pose proof (groupby_concat row_id rest) as Hconcat.
  pose proof (groupby_nonempty row_id rest) as Hne.
  destruct (groupby row_id rest) as [|[|y g] groups] eqn:Egroups.
  - repeat constructor. set_solver.
  - repeat constructor. set_solver.
  - destruct (decide (row_id x = row_id y)) as [Exy|Nxy].
    + simpl in *. rewrite Exy. exact IH.
    + change (NoDup (row_id x :: map group_id ((y :: g) :: groups))).
      constructor; [|exact IH].
      intros Hin. apply list_elem_of_fmap in Hin as (grp & Hid & Hgrp).
      assert (Hy : y ∈ rest) by (rewrite <- Hconcat; simpl; left).
      rewrite Forall_forall in Hne.
      assert (Hgrp' : In grp ((y :: g) :: groups)) by (apply list_elem_of_In; exact Hgrp).
      destruct grp as [|r grp']; [exfalso; eapply Hne; [exact Hgrp | reflexivity]|].
      simpl in Hid.
      assert (Hr : r ∈ rest).
      { rewrite <- Hconcat. apply list_elem_of_In. apply in_concat.
        exists (r :: grp'). split; [exact Hgrp' | left; reflexivity]. }
      rewrite Forall_forall in Hall.
      assert (Hxy : id_le x y) by (apply Hall, Hy).
      assert (Hyr : id_le y r).
      { simpl in Hconcat. rewrite <- Hconcat in Hsorted, Hr.
        apply StronglySorted_inv in Hsorted as [_ Hally].
        apply elem_of_cons in Hr as [->|Hr]; [apply string_leb_refl|].
        rewrite Forall_forall in Hally. apply Hally, Hr. }
      unfold id_le in *. rewrite <- Hid in Hyr.
      apply Nxy. apply String.leb_antisym; assumption.
Qed.

Lemma make_result_dict_clients (sample_row : FetchedRow) (others : list FetchedRow) :
  exists org_client_ids : gset string,
    _EventsQueryProcessor._make_result_dict (sample_row :: others)
    = Return (make_raw_result_dict sample_row org_client_ids)
    /\ forall org, org ∈ org_client_ids
                   <-> exists r, r ∈ sample_row :: others /\ row_client r = Some org.
Proof.
  eexists. split; [reflexivity|]. intros org.
  rewrite elem_of_list_to_set, list_elem_of_omap. reflexivity.
Qed.

(** C4. The rows of one time group, sorted by [id] and grouped by [id],
    fall into id groups that together hold exactly the rows of the time
    group, no two groups sharing an id.  Each id group gives exactly one
    result dict: the attributes of its first row together with, as
    [client], the set of the non-null [client] values of its rows.  In
    particular two rows of equal id and time with clients [org1] and
    [org2] give the single result whose client set is the union of both. *)
Theorem id_groups_merge_into_single_results (same_time_rows : list FetchedRow) :
  let groups := iter_grouped_by_id_presorted same_time_rows in
  concat groups ≡ₚ same_time_rows
  /\ NoDup (map group_id groups)
  /\ (forall same_id_rows, same_id_rows ∈ groups ->
        exists sample_row others (org_client_ids : gset string),
          same_id_rows = sample_row :: others
          /\ (forall r, r ∈ same_id_rows -> row_id r = row_id sample_row)
          /\ _EventsQueryProcessor._make_result_dict same_id_rows
             = Return (make_raw_result_dict sample_row org_client_ids)
          /\ (forall org, org ∈ org_client_ids
                          <-> exists r, r ∈ same_id_rows /\ row_client r = Some org))
  /\ (forall r1 r2 org1 org2,
        row_id r1 = row_id r2 -> row_time r1 = row_time r2 ->
        row_client r1 = Some org1 -> row_client r2 = Some org2 ->
        map _EventsQueryProcessor._make_result_dict (iter_grouped_by_id_presorted [r1; r2])
        = [Return (make_raw_result_dict r1 ({[org1]} ∪ {[org2]}))]).
Proof.
  intros groups. unfold groups, iter_grouped_by_id_presorted.
  split; [|split; [|split]].
  - rewrite groupby_concat. apply sorted_by_id_perm.
  - apply groupby_sorted_ids, sorted_by_id_sorted.
  - intros same_id_rows Hin.
    pose proof (groupby_nonempty row_id (sorted_by_id same_time_rows)) as Hne.
    pose proof (groupby_uniform row_id (sorted_by_id same_time_rows)) as Huni.
    rewrite Forall_forall in Hne, Huni.
    destruct same_id_rows as [|sample_row others]; [exfalso; eapply Hne; eauto|].
    destruct (make_result_dict_clients sample_row others) as (ids & Hmake & Hids).
    exists sample_row, others, ids. split; [reflexivity|]. split; [|split; assumption].
    intros r Hr. eapply Huni; [exact Hin | exact Hr | left].
  - intros r1 r2 org1 org2 Hid _ Hc1 Hc2. simpl.
    rewrite Hid, string_leb_refl. rewrite groupby_cons. simpl.
    rewrite decide_True by exact Hid. simpl. rewrite Hc1, Hc2. simpl.
    rewrite union_empty_r_L. reflexivity.
Qed.

(** ** The secondary URL filter *)

Section Preprocess.
Context `{N6Lib}.
Import _EventsQueryProcessor.

Lemma well_formed_url_data_dom (url_orig_b64 : string) (url_norm_opts : gmap string bool) :
  dom (<["url_orig" := UdStr url_orig_b64]>
         (<["url_norm_opts" := UdOpts url_norm_opts]> (∅ : gmap string url_data_item)))
  = ({["url_orig"; "url_norm_opts"]} : gset string).
Proof. rewrite !dom_insert_L, dom_empty_L. set_solver. Qed.

Lemma url_norm_cache_item_coherent (self : t) (cache : UrlNormCache)
    (url_norm_opts : gmap string bool) (item : gmap string bool * option (gset string)) :
  cache_coherent self cache ->
  new_url_norm_cache_item self url_norm_opts = Return item ->
  exists cache',
    url_norm_cache_item self cache url_norm_opts = (Return item, cache')
    /\ cache_coherent self cache'.
Proof.
  intros Hcoh Hnew. unfold url_norm_cache_item.
  destruct (cache !! url_norm_opts) as [cached|] eqn:Ecached.
  - exists cache. split; [|exact Hcoh].
    apply Hcoh in Ecached. rewrite Hnew in Ecached. injection Ecached as <-. reflexivity.
  - rewrite Hnew. eexists. split; [reflexivity|].
    intros opts item' Hlookup.
    destruct (decide (url_norm_opts = opts)) as [<-|Hne].
    + rewrite lookup_insert_eq in Hlookup. injection Hlookup as <-. exact Hnew.
    + rewrite lookup_insert_ne in Hlookup by exact Hne. apply Hcoh. exact Hlookup.
Qed.

Lemma preprocess_without_url_data (self : t) (cache : UrlNormCache) (rd : ResultDict) :
  url_data_of rd = None \/ url_data_of rd = Some PyNone ->
  _preprocess_result_dict self cache rd
  = match res_url rd with
    | Some u =>
        if url_is_provisional rd
        then (Return None, cache, [LogUrlWithoutUrlData u])
        else (Return (Some (without_url_data rd)), cache, [])
    | None => (Return (Some (without_url_data rd)), cache, [])
    end.
Proof.
  unfold url_data_of, url_is_provisional, _preprocess_result_dict, without_url_data.
  intros [Hnone|Hnone]; destruct (res_custom rd) as [c|]; simpl in *;
    try rewrite Hnone; try discriminate; reflexivity.
Qed.

Lemma preprocess_with_url_data (self : t) (cache : UrlNormCache) (rd : ResultDict)
    (url_data : PyObject) :
  url_data_of rd = Some url_data -> url_data <> PyNone ->
  _preprocess_result_dict self cache rd
  = if negb (url_is_provisional rd)
    then (Return None, cache, [LogUrlDataWithoutProvisionalUrl (res_url rd)])
    else
      match url_data with
      | PyDict d =>
          if bool_decide (dom d = ({["url_orig"; "url_norm_opts"]} : gset string))
          then _preprocess_result_dict self cache rd
          else (Return None, cache, [LogUrlDataNotValid])
      | _ => (Return None, cache, [LogUrlDataNotValid])
      end.
Proof.
  unfold url_data_of, url_is_provisional, _preprocess_result_dict.
  intros Hdata Hnot. destruct (res_custom rd) as [c|]; simpl in *; [|discriminate].
  rewrite Hdata. destruct url_data as [|d|]; [congruence| |]; simpl.
  - destruct (negb _); [reflexivity|].
    destruct (bool_decide (dom d = {["url_orig"; "url_norm_opts"]})); reflexivity.
  - destruct (negb _); reflexivity.
Qed.
End Preprocess.

(** C5 (as amended). In [_preprocess_result_dict]:
    - a candidate without [url_data] whose [url] starts with the
      provisional prefix is dropped, with a warning logged; one whose
      [url] is absent or does not start with it is returned, unchanged
      when [custom] has no [url_data] item;
    - a candidate carrying [url_data] whose [url] is absent or does not
      start with the provisional prefix is dropped, with an error logged;
    - a candidate with a provisional [url] whose [url_data] is not a dict
      with exactly the keys [url_orig] and [url_norm_opts] is dropped,
      with an error logged (nothing is raised);
    - a candidate with a provisional [url] and well-formed [url_data]
      (whose original URL decodes and normalizes) gets the normalized
      URL as its [url] and is kept, unless the query has [url.b64]
      parameters and the normalized URL is not among their normalized
      values, in which case it is dropped. *)
Theorem preprocess_result_dict_url_filter `{N6Lib}
    (self : _EventsQueryProcessor.t) (cache : UrlNormCache) (rd : ResultDict) :
  (url_data_of rd = None \/ url_data_of rd = Some PyNone ->
     (forall u, res_url rd = Some u -> url_is_provisional rd = true ->
        _EventsQueryProcessor._preprocess_result_dict self cache rd
        = (Return None, cache, [LogUrlWithoutUrlData u]))
     /\ (url_is_provisional rd = false ->
         _EventsQueryProcessor._preprocess_result_dict self cache rd
         = (Return (Some (without_url_data rd)), cache, [])
         /\ (url_data_of rd = None -> without_url_data rd = rd)))
  /\ (forall url_data, url_data_of rd = Some url_data -> url_data <> PyNone ->
        (url_is_provisional rd = false ->
           _EventsQueryProcessor._preprocess_result_dict self cache rd
           = (Return None, cache, [LogUrlDataWithoutProvisionalUrl (res_url rd)]))
        /\ (url_is_provisional rd = true ->
            match url_data with
            | PyDict d => dom d <> ({["url_orig"; "url_norm_opts"]} : gset string)
            | _ => True
            end ->
            _EventsQueryProcessor._preprocess_result_dict self cache rd
            = (Return None, cache, [LogUrlDataNotValid]))
        /\ (url_is_provisional rd = true ->
            forall url_orig_b64 url_norm_opts url_orig result_url_norm param_urls_norm,
              url_data = well_formed_url_data url_orig_b64 url_norm_opts ->
              urlsafe_b64decode url_orig_b64 = Return url_orig ->
              normalize_url url_orig url_norm_opts = Return result_url_norm ->
              _EventsQueryProcessor.cache_coherent self cache ->
              _EventsQueryProcessor.new_url_norm_cache_item self url_norm_opts
              = Return (url_norm_opts, param_urls_norm) ->
              (param_urls_norm = None
               <-> _EventsQueryProcessor._filtering_params self !! "url.b64" = None)
              /\ exists cache',
                  _EventsQueryProcessor.cache_coherent self cache'
                  /\ _EventsQueryProcessor._preprocess_result_dict self cache rd
                     = (match param_urls_norm with
                        | Some urls =>
                            if bool_decide (result_url_norm ∈ urls)
                            then Return (Some (with_url result_url_norm (without_url_data rd)))
                            else Return None
                        | None =>
                            Return (Some (with_url result_url_norm (without_url_data rd)))
                        end, cache', []))).
Proof.
  split.
  - intros Hnone. pose proof (preprocess_without_url_data self cache rd Hnone) as Hpre.
    split.
    + intros u Hu Hprov. rewrite Hpre, Hu, Hprov. reflexivity.
    + intros Hprov. split.
      * rewrite Hpre, Hprov. destruct (res_url rd); reflexivity.
      * intros Habsent. unfold url_data_of, without_url_data in *.
        destruct rd as [i t m c u [[ud rest]|] cl]; simpl in *; [|reflexivity].
        subst ud. reflexivity.
  - intros url_data Hdata Hnot.
    pose proof (preprocess_with_url_data self cache rd url_data Hdata Hnot) as Hpre.
    split; [|split].
    + intros Hprov. rewrite Hpre, Hprov. reflexivity.
    + intros Hprov Hbad. rewrite Hpre, Hprov. simpl.
      destruct url_data as [|d|]; try reflexivity.
      rewrite bool_decide_eq_false_2 by exact Hbad. reflexivity.
    + intros Hprov url_orig_b64 url_norm_opts url_orig result_url_norm param_urls_norm
        -> Hdecode Hnorm Hcoh Hitem.
      split.
      * unfold _EventsQueryProcessor.new_url_norm_cache_item in Hitem.
        destruct (_EventsQueryProcessor._filtering_params self !! "url.b64") as [urls|].
        -- destruct (_EventsQueryProcessor.map_result _ urls); [|discriminate].
           injection Hitem as <-. split; discriminate.
        -- injection Hitem as <-. split; reflexivity.
      * destruct (url_norm_cache_item_coherent self cache url_norm_opts _ Hcoh Hitem)
          as (cache' & Hlookup & Hcoh').
        exists cache'. split; [exact Hcoh'|].
        unfold _EventsQueryProcessor._preprocess_result_dict.
        unfold url_data_of, url_is_provisional in *.
        destruct (res_custom rd) as [c|] eqn:Ecustom; [|discriminate]. simpl in Hdata.
        rewrite Hdata. unfold well_formed_url_data. simpl. rewrite Hprov. simpl.
        rewrite bool_decide_eq_true_2 by apply well_formed_url_data_dom.
        rewrite lookup_insert_eq, Hdecode.
        rewrite lookup_insert_ne by discriminate. rewrite lookup_insert_eq.
        rewrite Hlookup, Hnorm.
        unfold with_url, without_url_data. rewrite Ecustom. simpl.
        destruct param_urls_norm as [urls|]; [|reflexivity].
        destruct (bool_decide (result_url_norm ∈ urls)); reflexivity.
Qed.

(** C5 as it was stated does not hold: a candidate with well-formed
    [url_data], for a query without [url.b64] parameters, is not kept
    when its [url] does not start with the provisional prefix. *)
Lemma well_formed_url_data_is_not_always_kept :
  ~ (forall (self : _EventsQueryProcessor.t) (cache : UrlNormCache) (rd : ResultDict)
       (url_orig_b64 : string) (url_norm_opts : gmap string bool),
       url_data_of rd = Some (well_formed_url_data url_orig_b64 url_norm_opts) ->
       _EventsQueryProcessor._filtering_params self !! "url.b64" = None ->
       exists kept cache' logged,
         _EventsQueryProcessor._preprocess_result_dict (H := sample_lib) self cache rd
         = (Return (Some kept), cache', logged)).
Proof.
  intros Hclaim.
  destruct (Hclaim (sample_processor None) ∅
              (sample_result_with_url_data (Some "http://example.com/"))
              "http://example.com/" ∅ eq_refl eq_refl)
    as (kept & cache' & logged & Hkept).
  assert (Hdropped :
    _EventsQueryProcessor._preprocess_result_dict (H := sample_lib) (sample_processor None) ∅
      (sample_result_with_url_data (Some "http://example.com/"))
    = (Return None, ∅, [LogUrlDataWithoutProvisionalUrl (Some "http://example.com/")]))
    by reflexivity.
  rewrite Hdropped in Hkept. discriminate.
Qed.

(** ** The result cap *)

Lemma yielded_app (t1 t2 : list event) : yielded (t1 ++ t2) = yielded t1 ++ yielded t2.
Proof. unfold yielded. apply omap_app. Qed.

Lemma yielded_logs (logged : list log_record) : yielded (map EvLog logged) = [].
Proof. induction logged as [|l logged IH]; [reflexivity | exact IH]. Qed.

Lemma yielded_app_logs (t : list event) (logged : list log_record) :
  yielded (t ++ map EvLog logged) = yielded t.
Proof. rewrite yielded_app, yielded_logs. apply app_nil_r. Qed.

Lemma counting_not_reached (opt_limit : option Z) (e : ending) (st : RunState) :
  counting opt_limit st -> e <> CapReached -> ended opt_limit e st.
Proof.
  intros [Hcount Hbelow] Hne. split; [exact Hcount|]. split; [congruence|].
  intros _. exact Hbelow.
Qed.

Section Cap.
Context `{N6Lib}.
Import _EventsQueryProcessor.
Variable self : t.

Lemma produce_result_or_none_counting (same_id_rows : list FetchedRow) (st : RunState) :
  forall r st1,
    produce_result_or_none self same_id_rows st = (r, st1) ->
    yielded (trace st1) = yielded (trace st)
    /\ pending st1 = pending st
    /\ produced st1 = match r with
                      | Return (Some _) => S (produced st)
                      | _ => produced st
                      end.
Proof.
  intros r st1. unfold produce_result_or_none.
  destruct (_make_result_dict same_id_rows) as [rd|e].
  - destruct (_preprocess_result_dict self (url_norm_cache st) rd) as [[r' cache'] logged].
    destruct r' as [[kept|]|e]; intros [= <- <-]; simpl;
      rewrite yielded_app_logs; auto.
  - intros [= <- <-]. auto.
Qed.

Lemma for_same_id_rows_counting (groups : list (list FetchedRow)) :
  forall st, counting (_opt_limit self) st ->
    match for_same_id_rows self groups st with
    | (None, st') => counting (_opt_limit self) st' /\ pending st' = pending st
    | (Some e, st') => ended (_opt_limit self) e st' /\ e <> OutOfFuel
    end.
Proof.
  induction groups as [|g groups IH]; intros st Hinv; simpl; [auto|].
  destruct (produce_result_or_none self g st) as [r st1] eqn:Eprod.
  destruct (produce_result_or_none_counting g st r st1 Eprod) as (Hy & Hp & Hn).
  destruct Hinv as [Hcount Hbelow].
  destruct r as [[rd|]|e].
  - unfold enough_results_produced. simpl. destruct (_opt_limit self) as [N|] eqn:Elim.
    + destruct (Z.leb_spec N (Z.of_nat (produced st1))) as [Hreached|Hnot].
      * assert (EN : Z.of_nat (produced st1) = N) by lia.
        rewrite bool_decide_eq_true_2 by congruence.
        split; [|discriminate]. split; [|split].
        -- simpl. rewrite yielded_app, Hy. simpl. rewrite length_app. simpl. lia.
        -- intros _. simpl. split; [congruence | eauto].
        -- congruence.
      * specialize (IH (mkRunState (produced st1) (pending st1) (url_norm_cache st1)
                                   (trace st1 ++ [EvYield rd]))).
        simpl in IH. rewrite <- Hp. apply IH. split; [|exact Hnot].
        simpl. rewrite yielded_app, Hy. simpl. rewrite length_app. simpl. lia.
    + specialize (IH (mkRunState (produced st1) (pending st1) (url_norm_cache st1)
                                 (trace st1 ++ [EvYield rd]))).
      simpl in IH. rewrite <- Hp. apply IH. split; [|exact I].
      simpl. rewrite yielded_app, Hy. simpl. rewrite length_app. simpl. lia.
  - assert (Hinv1 : counting (_opt_limit self) st1).
    { split; [congruence|]. rewrite Hn. exact Hbelow. }
    assert (Enough : enough_results_produced self st1 = false).
    { unfold enough_results_produced. destruct Hinv1 as [_ Hb].
      destruct (_opt_limit self); [apply Z.leb_gt; exact Hb | reflexivity]. }
    rewrite Enough. rewrite <- Hp. apply IH. exact Hinv1.
  - split; [|discriminate]. apply counting_not_reached; [|discriminate].
    split; [congruence|]. rewrite Hn. exact Hbelow.
Qed.

Lemma on_row_counting (row : FetchedRow) (st : RunState) :
  counting (_opt_limit self) st ->
  match on_row self row st with
  | (None, st') => counting (_opt_limit self) st'
  | (Some e, st') => ended (_opt_limit self) e st' /\ e <> OutOfFuel
  end.
Proof.
  intros Hinv. unfold on_row. destruct (pending st) as [|first rest] eqn:Epending.
  - exact Hinv.
  - destruct (bool_decide (row_time first = row_time row)); [exact Hinv|].
    unfold for_same_time_rows.
    pose proof (for_same_id_rows_counting
                  (iter_grouped_by_id_presorted (first :: rest))
                  (mkRunState (produced st) [] (url_norm_cache st) (trace st)) Hinv) as Hloop.
    destruct (for_same_id_rows self _ _) as [[e|] st']; [exact Hloop|].
    destruct Hloop as [Hloop _]. exact Hloop.
Qed.

Lemma for_row_in_iterator_counting (rows : list FetchedRow) :
  forall st, counting (_opt_limit self) st ->
    match for_row_in_iterator self rows st with
    | (None, st') => counting (_opt_limit self) st'
    | (Some e, st') => ended (_opt_limit self) e st' /\ e <> OutOfFuel
    end.
Proof.
  induction rows as [|row rows IH]; intros st Hinv; simpl; [exact Hinv|].
  pose proof (on_row_counting row st Hinv) as Hrow.
  destruct (on_row self row st) as [[e|] st']; [exact Hrow|].
  apply IH. exact Hrow.
Qed.
End Cap.

Lemma handling_db_api_error_cases `{N6Lib} {A : Type} (body : result A) :
  (exists a, body = Return a
             /\ _BaseQueryProcessor.handling_db_api_error body = (Return a, []))
  \/ (exists e e' logged,
        body = Raise e
        /\ _BaseQueryProcessor.handling_db_api_error body = (Raise e', logged)).
Proof.
  destruct body as [a|e]; [left; eauto|]. right.
  destruct e; simpl; eauto.
Qed.

Lemma counting_after_events (opt_limit : option Z) (st : RunState) (evs : list event) :
  yielded evs = [] ->
  counting opt_limit st ->
  counting opt_limit
    (mkRunState (produced st) (pending st) (url_norm_cache st) (trace st ++ evs)).
Proof.
  intros Hevs [Hcount Hbelow]. split; [|exact Hbelow].
  simpl. rewrite yielded_app, Hevs, app_nil_r. exact Hcount.
Qed.

Section CapFetching.
Context `{N6Lib}.
Import _EventsQueryProcessor.
Variables (db : EventDB) (self : t).

Lemma build_actual_query_limit (step : Step) (offset produced_count : nat)
    (query : ActualQuery) (query_limit : option Z) :
  _build_actual_query self step offset produced_count = Return (query, query_limit) ->
  aq_step query = step
  /\ aq_limit query = query_limit
  /\ match query_limit with
     | Some l => 101 <= l /\ aq_offset query = Some offset
     | None => aq_offset query = None
     end.
Proof.
  unfold _build_actual_query. destruct (_opt_limit self) as [N|].
  - destruct (Z.ltb_spec 0 (N - Z.of_nat produced_count)); [|discriminate].
    intros [= <- <-]. simpl. repeat split; lia.
  - intros [= <- <-]. simpl. auto.
Qed.

Lemma fetch_rows_for_single_step_loop_counting (step : Step) (fuel : nat) :
  forall offset st,
    counting (_opt_limit self) st ->
    (length (drop offset (db_rows db step)) < fuel)%nat ->
    match _fetch_rows_for_single_step_loop fuel db self step offset st with
    | (None, st') => counting (_opt_limit self) st'
    | (Some e, st') => ended (_opt_limit self) e st' /\ e <> OutOfFuel
    end.
Proof.
  induction fuel as [|fuel IH]; intros offset st Hinv Hfuel; [lia|].
  simpl.
  destruct (_build_actual_query self step offset (produced st))
    as [[query query_limit]|e] eqn:Ebuild.
  2:{ split; [|discriminate]. apply counting_not_reached; [exact Hinv | discriminate]. }
  destruct (build_actual_query_limit _ _ _ _ _ Ebuild) as (Hstep & Hlimit & Hoffset).
  assert (Hinv_q : counting (_opt_limit self)
                     (mkRunState (produced st) (pending st) (url_norm_cache st)
                                 (trace st ++ [EvQuery query])))
    by (apply counting_after_events; [reflexivity | exact Hinv]).
  destruct (handling_db_api_error_cases (execute db query))
    as [(rows & Hrows & ->)|(e & e' & logged & _ & ->)].
  2:{ split; [|discriminate]. apply counting_not_reached; [|discriminate].
      apply (counting_after_events _ _ (map EvLog logged));
        [apply yielded_logs | exact Hinv_q]. }
  assert (Hinv_l : counting (_opt_limit self)
                     (log_all [] (mkRunState (produced st) (pending st) (url_norm_cache st)
                                             (trace st ++ [EvQuery query]))))
    by (apply (counting_after_events _ _ (map EvLog [])); [reflexivity | exact Hinv_q]).
  pose proof (for_row_in_iterator_counting self rows _ Hinv_l) as Hfeed.
  destruct (for_row_in_iterator self rows _) as [[e|] st']; [exact Hfeed|].
  destruct query_limit as [l|]; [|exact Hfeed].
  destruct (Z.ltb_spec (Z.of_nat (length rows)) l) as [Hshort|Hfull]; [exact Hfeed|].
  apply IH; [exact Hfeed|].
  destruct Hoffset as [Hl Hoff].
  unfold execute in Hrows. destruct (db_fault db query); [discriminate|].
  rewrite Hstep, Hoff, Hlimit in Hrows. injection Hrows as <-.
  rewrite length_take in Hfull. rewrite length_take.
  rewrite !length_drop in *. lia.
Qed.

Lemma fetch_rows_for_single_step_counting (step : Step) (st : RunState) :
  counting (_opt_limit self) st ->
  match _fetch_rows_for_single_step db self step st with
  | (None, st') => counting (_opt_limit self) st'
  | (Some e, st') => ended (_opt_limit self) e st' /\ e <> OutOfFuel
  end.
Proof.
  intros Hinv. apply fetch_rows_for_single_step_loop_counting; [exact Hinv|].
  rewrite length_drop. lia.
Qed.

Lemma fetch_rows_from_db_counting (steps : list Step) :
  forall st, counting (_opt_limit self) st ->
    match _fetch_rows_from_db db self steps st with
    | (None, st') => counting (_opt_limit self) st'
    | (Some e, st') => ended (_opt_limit self) e st' /\ e <> OutOfFuel
    end.
Proof.
  induction steps as [|step steps IH]; intros st Hinv; simpl; [exact Hinv|].
  pose proof (fetch_rows_for_single_step_counting step st Hinv) as Hstep.
  destruct (_fetch_rows_for_single_step db self step st) as [[e|] st']; [exact Hstep|].
  apply IH. exact Hstep.
Qed.

Lemma generate_query_results_counting (fuel : nat) (utcnow : DateTime) :
  counting (_opt_limit self) initial_state ->
  let run := generate_query_results fuel utcnow db self in
  ended (_opt_limit self) run.1 run.2
  /\ (run.1 = OutOfFuel ->
      (_time_comparisons_per_step fuel utcnow self).2 = Some OutOfFuel).
Proof.
  intros Hinit. unfold generate_query_results.
  pose proof (time_comparisons_per_step_stops fuel utcnow self) as Hstops.
  destruct (_time_comparisons_per_step fuel utcnow self) as [steps stopped].
  simpl in Hstops.
  pose proof (fetch_rows_from_db_counting steps initial_state Hinit) as Hfetch.
  destruct (_fetch_rows_from_db db self steps initial_state) as [[e|] st].
  - simpl. destruct Hfetch as [Hended Hfuel]. split; [exact Hended | congruence].
  - destruct stopped as [stop|]; simpl.
    { split; [|congruence]. apply counting_not_reached; [exact Hfetch|].
      destruct Hstops as [Hstop | [Hstop | Hstop]]; congruence. }
    assert (Hlast :
      match (match pending st with
             | [] => (None, st)
             | _ :: _ => for_same_time_rows self (pending st)
                           (mkRunState (produced st) [] (url_norm_cache st) (trace st))
             end) with
      | (None, st') => counting (_opt_limit self) st'
      | (Some e, st') => ended (_opt_limit self) e st' /\ e <> OutOfFuel
      end).
    { destruct (pending st) as [|first rest]; [exact Hfetch|].
      unfold for_same_time_rows.
      pose proof (for_same_id_rows_counting self
                    (iter_grouped_by_id_presorted (first :: rest))
                    (mkRunState (produced st) [] (url_norm_cache st) (trace st)) Hfetch)
        as Hloop.
      destruct (for_same_id_rows self _ _) as [[e|] st']; [exact Hloop | apply Hloop]. }
    destruct (match pending st with [] => _ | _ => _ end) as [[e|] st'].
    + simpl. destruct Hlast as [Hended Hfuel]. split; [exact Hended | congruence].
    + destruct (_opt_limit self) as [N|] eqn:Elim.
      * destruct Hlast as [Hcount Hbelow].
        destruct (Z.ltb_spec (Z.of_nat (produced st')) N); [|lia]. simpl.
        split; [|discriminate]. apply counting_not_reached; [|discriminate].
        split; assumption.
      * simpl. split; [|discriminate].
        apply counting_not_reached; [exact Hlast | discriminate].
Qed.
End CapFetching.

(** C1 (as amended). For a cap [opt_limit = N >= 1] the consumed
    generator has yielded at most [N] result dicts, as many as its
    counter says.  It has yielded exactly [N] precisely when it was left
    through the cap check, and then the [N]-th yield is the last thing
    that happened: no query is made after it.  When all steps are
    exhausted, fewer than [N] were yielded; without a cap the generator
    is never left through the cap check.  With [day_step >= 1] the
    consumption ends (enough fuel for the step generator exists). *)
Theorem generate_query_results_respects_cap `{N6Lib}
    (utcnow : DateTime) (db : EventDB) (self : _EventsQueryProcessor.t) :
  match _EventsQueryProcessor._opt_limit self with
  | Some N => 1 <= N
  | None => True
  end ->
  (forall fuel,
     let run := _EventsQueryProcessor.generate_query_results fuel utcnow db self in
     let results := yielded (trace run.2) in
     produced run.2 = length results
     /\ (forall N, _EventsQueryProcessor._opt_limit self = Some N ->
           Z.of_nat (length results) <= N
           /\ (Z.of_nat (length results) = N <-> run.1 = CapReached)
           /\ (run.1 = Exhausted -> Z.of_nat (length results) < N))
     /\ (run.1 = CapReached ->
         _EventsQueryProcessor._opt_limit self = Some (Z.of_nat (length results))
         /\ exists earlier result_dict, trace run.2 = earlier ++ [EvYield result_dict])
     /\ (_EventsQueryProcessor._opt_limit self = None -> run.1 <> CapReached))
  /\ (1 <= _EventsQueryProcessor._day_step self ->
      exists fuel0, forall fuel, (fuel0 <= fuel)%nat ->
        (_EventsQueryProcessor.generate_query_results fuel utcnow db self).1 <> OutOfFuel).
Proof.
  intros Hcap.
  assert (Hinit : counting (_EventsQueryProcessor._opt_limit self) initial_state).
  { split; [reflexivity|]. destruct (_EventsQueryProcessor._opt_limit self); simpl; lia. }
  split.
  - intros fuel run results.
    destruct (generate_query_results_counting db self fuel utcnow Hinit)
      as [(Hcount & Hreached & Hnot) _].
    fold run in Hcount, Hreached, Hnot. fold results in Hcount.
    split; [exact Hcount|]. split; [|split].
    + intros N HN. rewrite HN in *.
      assert (Hdec : run.1 = CapReached \/ run.1 <> CapReached)
        by (destruct run.1; (left; reflexivity) || (right; discriminate)).
      destruct Hdec as [Ecap|Ncap].
      * destruct (Hreached Ecap) as [[= ->] _]. rewrite <- Hcount.
        split; [lia|]. split; [tauto|]. congruence.
      * specialize (Hnot Ncap). rewrite <- Hcount.
        split; [lia|]. split; [|intros _; lia]. split; [lia | contradiction].
    + intros Ecap. destruct (Hreached Ecap) as [Hlim Hlast].
      rewrite <- Hcount. split; assumption.
    + intros Hnone Ecap. destruct (Hreached Ecap) as [Hlim _]. congruence.
  - intros Hday.
    destruct (time_comparisons_per_step_ends self utcnow Hday) as [fuel0 Hfuel].
    exists fuel0. intros fuel Hle Hout.
    destruct (generate_query_results_counting db self fuel utcnow Hinit) as [_ Hfin].
    exact (Hfuel fuel Hle (Hfin Hout)).
Qed.

(** C1 as it was stated does not hold for [N = 0]: nothing is yielded,
    which is exactly [N] results, but the generator is not left through
    the cap check; the first query build fails its assertion. *)
Lemma cap_of_zero_is_not_reached :
  ~ (forall (N : Z) (fuel : nat) (utcnow : DateTime) (db : EventDB)
       (self : _EventsQueryProcessor.t),
       0 <= N ->
       _EventsQueryProcessor._opt_limit self = Some N ->
       let run := _EventsQueryProcessor.generate_query_results
                    (H := sample_lib) fuel utcnow db self in
       Z.of_nat (length (yielded (trace run.2))) <= N
       /\ (Z.of_nat (length (yielded (trace run.2))) = N -> run.1 = CapReached)).
Proof.
  intros Hclaim.
  destruct (Hclaim 0 5%nat 0 sample_db (sample_processor (Some 0))
              ltac:(lia) eq_refl) as [_ Hcap].
  vm_compute in Hcap. specialize (Hcap eq_refl). discriminate.
Qed.

(** ** Time order *)

Lemma preprocess_result_dict_keeps_time `{N6Lib} (self : _EventsQueryProcessor.t)
    (cache cache' : UrlNormCache) (rd rd' : ResultDict) (logged : list log_record) :
  _EventsQueryProcessor._preprocess_result_dict self cache rd
  = (Return (Some rd'), cache', logged) ->
  res_time rd' = res_time rd /\ res_id rd' = res_id rd /\ res_client rd' = res_client rd.
Proof.
  unfold _EventsQueryProcessor._preprocess_result_dict. intros Hpre.
  repeat case_match; simplify_eq; simpl; auto.
Qed.

Lemma all_equal_newer_first (tp : DateTime) (l : list DateTime) :
  Forall (fun t => t = tp) l -> StronglySorted newer_first l.
Proof.
  induction 1 as [|t l -> Hall IH]; constructor; [exact IH|].
  eapply Forall_impl; [exact Hall|]. intros t ->. unfold newer_first. lia.
Qed.

Lemma times_of_after_events (st : RunState) (evs : list event) :
  yielded evs = [] ->
  times_of (mkRunState (produced st) (pending st) (url_norm_cache st) (trace st ++ evs))
  = times_of st.
Proof. intros Hevs. unfold times_of. simpl. rewrite yielded_app, Hevs, app_nil_r. reflexivity. Qed.

Lemma in_time_order_after_events (st : RunState) (evs : list event) :
  yielded evs = [] ->
  in_time_order st ->
  in_time_order (mkRunState (produced st) (pending st) (url_norm_cache st) (trace st ++ evs)).
Proof.
  intros Hevs [Hsorted Hsame]. split; [|exact Hsame].
  rewrite times_of_after_events by exact Hevs. exact Hsorted.
Qed.

Section TimeOrder.
Context `{N6Lib}.
Import _EventsQueryProcessor.
Variable self : t.

Lemma produce_result_or_none_time (same_id_rows : list FetchedRow) (st st1 : RunState)
    (rd : ResultDict) (tp : DateTime) :
  (forall r, r ∈ same_id_rows -> row_time r = tp) ->
  produce_result_or_none self same_id_rows st = (Return (Some rd), st1) ->
  res_time rd = tp.
Proof.
  intros Htime. unfold produce_result_or_none, _make_result_dict.
  destruct same_id_rows as [|sample others]; [discriminate|].
  destruct (_preprocess_result_dict self (url_norm_cache st) _)
    as [[r cache'] logged] eqn:Epre.
  destruct r as [[kept|]|e]; intros [= <- <-].
  apply preprocess_result_dict_keeps_time in Epre as (-> & _ & _).
  simpl. apply Htime. left.
Qed.

Lemma for_same_id_rows_times (tp : DateTime) (groups : list (list FetchedRow)) :
  (forall g r, g ∈ groups -> r ∈ g -> row_time r = tp) ->
  forall st,
    exists new,
      yielded (trace (for_same_id_rows self groups st).2) = yielded (trace st) ++ new
      /\ Forall (fun y => res_time y = tp) new
      /\ ((for_same_id_rows self groups st).1 = None ->
          pending (for_same_id_rows self groups st).2 = pending st).
Proof.
  induction groups as [|g groups IH]; intros Htime st; simpl.
  - exists []. rewrite app_nil_r. auto.
  - destruct (produce_result_or_none self g st) as [r st1] eqn:Eprod.
    destruct (produce_result_or_none_counting self g st r st1 Eprod) as (Hy & Hp & _).
    assert (Htime' : forall g' r', g' ∈ groups -> r' ∈ g' -> row_time r' = tp)
      by (intros g' r' Hg' Hr'; eapply Htime; [right; exact Hg' | exact Hr']).
    destruct r as [[rd|]|e].
    + assert (Hrd : res_time rd = tp).
      { eapply produce_result_or_none_time; [|exact Eprod].
        intros r0 Hr0. eapply Htime; [left | exact Hr0]. }
      set (st2 := mkRunState (produced st1) (pending st1) (url_norm_cache st1)
                             (trace st1 ++ [EvYield rd])).
      assert (Hy2 : yielded (trace st2) = yielded (trace st) ++ [rd])
        by (simpl; rewrite yielded_app, Hy; reflexivity).
      destruct (enough_results_produced self st2).
      * exists [rd]. destruct (bool_decide _); simpl;
          (split; [exact Hy2 | split; [repeat constructor; exact Hrd | discriminate]]).
      * destruct (IH Htime' st2) as (new & Hnew & Hall & Hpend).
        exists (rd :: new). split; [|split].
        -- rewrite Hnew, Hy2, <- app_assoc. reflexivity.
        -- constructor; assumption.
        -- intros Hnone. rewrite (Hpend Hnone). simpl. exact Hp.
    + destruct (enough_results_produced self st1).
      * exists []. rewrite app_nil_r. destruct (bool_decide _); simpl;
          (split; [exact Hy | split; [constructor | discriminate]]).
      * destruct (IH Htime' st1) as (new & Hnew & Hall & Hpend).
        exists new. split; [|split].
        -- rewrite Hnew, Hy. reflexivity.
        -- exact Hall.
        -- intros Hnone. rewrite (Hpend Hnone). exact Hp.
    + exists []. rewrite app_nil_r. simpl.
      split; [exact Hy | split; [constructor | discriminate]].
Qed.
End TimeOrder.

Section TimeOrderOfRows.
Context `{N6Lib}.
Import _EventsQueryProcessor.
Variable self : t.

(** Processing the collected time group keeps the yielded times in order. *)
Lemma for_same_time_rows_order (st : RunState) :
  in_time_order st ->
  let r := for_same_time_rows self (pending st)
             (mkRunState (produced st) [] (url_norm_cache st) (trace st)) in
  StronglySorted newer_first (map res_time (yielded (trace r.2)))
  /\ (forall t, t ∈ map res_time (yielded (trace r.2)) -> t ∈ times_of st)
  /\ (r.1 = None -> pending r.2 = []).
Proof.
  intros [Hsorted Hsame] r. unfold times_of in *.
  apply StronglySorted_app in Hsorted as (Hcross & Hys & Hps).
  destruct (pending st) as [|first rest] eqn:Epending.
  - subst r. simpl. split; [exact Hys|]. split; [|reflexivity].
    intros t Ht. rewrite app_nil_r. exact Ht.
  - set (tp := row_time first).
    assert (Hgroups : forall g r0, g ∈ iter_grouped_by_id_presorted (first :: rest) ->
                                   r0 ∈ g -> row_time r0 = tp).
    { intros g r0 Hg Hr0. apply Hsame; [|left].
      rewrite <- (sorted_by_id_perm (first :: rest)).
      rewrite <- (groupby_concat row_id (sorted_by_id (first :: rest))).
      apply list_elem_of_In, in_concat. exists g.
      split; apply list_elem_of_In; assumption. }
    destruct (for_same_id_rows_times self tp _ Hgroups
                (mkRunState (produced st) [] (url_norm_cache st) (trace st)))
      as (new & Hnew & Hall & Hpend).
    fold (for_same_time_rows self (first :: rest)
            (mkRunState (produced st) [] (url_norm_cache st) (trace st))) in Hnew, Hpend.
    fold r in Hnew, Hpend. simpl in Hnew, Hpend.
    assert (Htp : forall t, t ∈ map res_time new -> t = tp).
    { intros t Ht. apply list_elem_of_fmap in Ht as (y & -> & Hy).
      rewrite Forall_forall in Hall. apply Hall. exact Hy. }
    rewrite Hnew, map_app. split; [|split; [|exact Hpend]].
    + apply StronglySorted_app_2; [|exact Hys|].
      * intros y t Hy Ht. rewrite (Htp t Ht). apply Hcross; [exact Hy|].
        simpl. left.
      * apply (all_equal_newer_first tp). apply Forall_forall. exact Htp.
    + intros t Ht. apply elem_of_app in Ht as [Ht|Ht].
      * apply elem_of_app. left. exact Ht.
      * rewrite (Htp t Ht). apply elem_of_app. right. simpl. left.
Qed.

Lemma on_row_order (row : FetchedRow) (st : RunState) :
  in_time_order st ->
  (forall t, t ∈ times_of st -> row_time row <= t) ->
  match on_row self row st with
  | (None, st') =>
      in_time_order st'
      /\ forall t, t ∈ times_of st' -> t ∈ times_of st \/ t = row_time row
  | (Some e, st') => StronglySorted newer_first (map res_time (yielded (trace st')))
  end.
Proof.
  intros Hinv Hrow. unfold on_row.
  pose proof (for_same_time_rows_order st Hinv) as Hflush.
  destruct Hinv as [Hsorted Hsame]. unfold times_of in *.
  destruct (pending st) as [|first rest] eqn:Epending.
  - simpl. split; [split|].
    + rewrite app_nil_r in Hsorted, Hrow.
      apply StronglySorted_app_2; [|exact Hsorted|repeat constructor].
      intros y t Hy Ht. apply list_elem_of_singleton in Ht as ->. apply Hrow. exact Hy.
    + intros r r' Hr Hr'. apply list_elem_of_singleton in Hr as ->.
      apply list_elem_of_singleton in Hr' as ->. reflexivity.
    + intros t Ht. rewrite app_nil_r. apply elem_of_app in Ht as [Ht|Ht]; [left; exact Ht|].
      right. apply list_elem_of_singleton in Ht. exact Ht.
  - destruct (bool_decide (row_time first = row_time row)) eqn:Esame.
    + apply bool_decide_eq_true_1 in Esame.
      unfold in_time_order, times_of. cbn [pending trace]. split; [split|].
      * rewrite map_app. cbn [map].
        change (row_time first :: map row_time rest) with (map row_time (first :: rest)).
        rewrite app_assoc. apply StronglySorted_app_2; [|exact Hsorted|repeat constructor].
        intros y t Hy Ht. apply list_elem_of_singleton in Ht as ->. apply Hrow. exact Hy.
      * intros r r' Hr Hr'.
        assert (Hall : forall r0, r0 ∈ (first :: rest) ++ [row] -> row_time r0 = row_time first).
        { intros r0 Hr0. apply elem_of_app in Hr0 as [Hr0|Hr0].
          - apply Hsame; [exact Hr0 | left].
          - apply list_elem_of_singleton in Hr0 as ->. congruence. }
        rewrite (Hall r Hr), (Hall r' Hr'). reflexivity.
      * intros t Ht. rewrite map_app, app_assoc in Ht.
        apply elem_of_app in Ht as [Ht|Ht]; [left; exact Ht|].
        right. apply list_elem_of_singleton in Ht. exact Ht.
    + destruct Hflush as (Hys & Hsub & Hpend).
      destruct (for_same_time_rows self (first :: rest) _) as [[e|] st'] eqn:Eflush;
        simpl in *; [exact Hys|].
      split; [split|].
      * apply StronglySorted_app_2; [|exact Hys|repeat constructor].
        intros y t Hy Ht. apply list_elem_of_singleton in Ht as ->.
        apply Hrow, Hsub, Hy.
      * intros r r' Hr Hr'. apply list_elem_of_singleton in Hr as ->.
        apply list_elem_of_singleton in Hr' as ->. reflexivity.
      * intros t Ht. apply elem_of_app in Ht as [Ht|Ht]; [left; apply Hsub, Ht|].
        right. apply list_elem_of_singleton in Ht. exact Ht.
Qed.

Lemma for_row_in_iterator_order (rows : list FetchedRow) :
  StronglySorted rows_newer_first rows ->
  forall st,
    in_time_order st ->
    (forall t r, t ∈ times_of st -> r ∈ rows -> row_time r <= t) ->
    match for_row_in_iterator self rows st with
    | (None, st') =>
        in_time_order st'
        /\ forall t, t ∈ times_of st' ->
                     t ∈ times_of st \/ exists r, r ∈ rows /\ t = row_time r
    | (Some e, st') => StronglySorted newer_first (map res_time (yielded (trace st')))
    end.
Proof.
  induction 1 as [|row rows Hsorted IH Hall]; intros st Hinv Hbelow; simpl.
  - split; [exact Hinv | auto].
  - pose proof (on_row_order row st Hinv
                  (fun t Ht => Hbelow t row Ht ltac:(left))) as Hrow.
    destruct (on_row self row st) as [[e|] st1]; [exact Hrow|].
    destruct Hrow as [Hinv1 Hsub1].
    specialize (IH st1 Hinv1).
    rewrite Forall_forall in Hall.
    assert (Hbelow1 : forall t r, t ∈ times_of st1 -> r ∈ rows -> row_time r <= t).
    { intros t r Ht Hr. destruct (Hsub1 t Ht) as [Hold| ->].
      - apply (Hbelow t r Hold). right. exact Hr.
      - apply Hall. exact Hr. }
    specialize (IH Hbelow1).
    destruct (for_row_in_iterator self rows st1) as [[e|] st']; [exact IH|].
    destruct IH as [Hinv' Hsub']. split; [exact Hinv'|].
    intros t Ht. destruct (Hsub' t Ht) as [Hold|(r & Hr & ->)].
    + destruct (Hsub1 t Hold) as [Hold'| ->]; [left; exact Hold'|].
      right. exists row. split; [left | reflexivity].
    + right. exists r. split; [right; exact Hr | reflexivity].
Qed.
End TimeOrderOfRows.

Lemma take_drop_length {A} (l : list A) (k : nat) :
  take k l ++ drop (length (take k l)) l = l.
Proof.
  rewrite length_take.
  destruct (Nat.min_spec k (length l)) as [[Hlt ->]|[Hge ->]].
  - apply take_drop.
  - rewrite take_ge, drop_all by lia. apply app_nil_r.
Qed.

Lemma execute_page (db : EventDB) (query : ActualQuery) (step : Step) (offset : nat)
    (query_limit : option Z) (rows : list FetchedRow) :
  aq_step query = step ->
  aq_limit query = query_limit ->
  match query_limit with
  | Some _ => aq_offset query = Some offset
  | None => aq_offset query = None /\ offset = 0%nat
  end ->
  execute db query = Return rows ->
  drop offset (db_rows db step)
  = rows ++ match query_limit with
            | Some _ => drop (offset + length rows) (db_rows db step)
            | None => []
            end.
Proof.
  intros Hstep Hlimit Hoffset. unfold execute.
  destruct (db_fault db query); [discriminate|]. rewrite Hstep, Hlimit.
  destruct query_limit as [l|].
  - rewrite Hoffset. intros [= <-]. rewrite <- drop_drop.
    symmetry. apply take_drop_length.
  - destruct Hoffset as [-> ->]. intros [= <-]. rewrite app_nil_r. reflexivity.
Qed.

Lemma in_time_order_yielded (st : RunState) :
  in_time_order st -> StronglySorted newer_first (map res_time (yielded (trace st))).
Proof. intros [Hsorted _]. eapply StronglySorted_app_1_l. exact Hsorted. Qed.

Section TimeOrderOfSteps.
Context `{N6Lib}.
Import _EventsQueryProcessor.
Variables (db : EventDB) (self : t).

Lemma build_actual_query_unlimited (step : Step) (offset produced_count : nat)
    (query : ActualQuery) :
  _build_actual_query self step offset produced_count = Return (query, None) ->
  _opt_limit self = None.
Proof.
  unfold _build_actual_query. destruct (_opt_limit self) as [N|]; [|reflexivity].
  destruct (0 <? N - Z.of_nat produced_count); discriminate.
Qed.

Lemma fetch_rows_for_single_step_loop_order (step : Step) (fuel : nat) :
  StronglySorted rows_newer_first (db_rows db step) ->
  forall offset st,
    in_time_order st ->
    (_opt_limit self = None -> offset = 0%nat) ->
    (forall t r, t ∈ times_of st -> r ∈ drop offset (db_rows db step) ->
                 row_time r <= t) ->
    match _fetch_rows_for_single_step_loop fuel db self step offset st with
    | (None, st') =>
        in_time_order st'
        /\ forall t, t ∈ times_of st' ->
                     t ∈ times_of st \/ exists r, r ∈ db_rows db step /\ t = row_time r
    | (Some e, st') => StronglySorted newer_first (map res_time (yielded (trace st')))
    end.
Proof.
  intros Hdb. induction fuel as [|fuel IH]; intros offset st Hinv Hunlimited Hbelow; simpl.
  - apply in_time_order_yielded. exact Hinv.
  - destruct (_build_actual_query self step offset (produced st))
      as [[query query_limit]|e] eqn:Ebuild;
      [|apply in_time_order_yielded; exact Hinv].
    destruct (build_actual_query_limit self _ _ _ _ _ Ebuild) as (Hstep & Hlimit & Hoffset).
    set (st_q := mkRunState (produced st) (pending st) (url_norm_cache st)
                            (trace st ++ [EvQuery query])).
    assert (Hinv_q : in_time_order st_q)
      by (apply in_time_order_after_events; [reflexivity | exact Hinv]).
    assert (Htimes_q : times_of st_q = times_of st)
      by (apply times_of_after_events; reflexivity).
    destruct (handling_db_api_error_cases (execute db query))
      as [(rows & Hrows & ->)|(e & e' & logged & _ & ->)].
    2:{ apply in_time_order_yielded.
        apply (in_time_order_after_events st_q (map EvLog logged));
          [apply yielded_logs | exact Hinv_q]. }
    assert (Hinv_l : in_time_order (log_all [] st_q))
      by (apply (in_time_order_after_events st_q (map EvLog []));
          [reflexivity | exact Hinv_q]).
    assert (Htimes_l : times_of (log_all [] st_q) = times_of st).
    { rewrite <- Htimes_q. apply (times_of_after_events st_q (map EvLog [])). reflexivity. }
    assert (Hpage :
      drop offset (db_rows db step)
      = rows ++ match query_limit with
                | Some _ => drop (offset + length rows) (db_rows db step)
                | None => []
                end).
    { apply (execute_page db query); try assumption.
      destruct query_limit as [l|]; [apply Hoffset|].
      split; [exact Hoffset|]. apply Hunlimited.
      eapply build_actual_query_unlimited. exact Ebuild. }
    assert (Hsorted_drop : StronglySorted rows_newer_first (drop offset (db_rows db step))).
    { rewrite <- (take_drop offset (db_rows db step)) in Hdb.
      eapply StronglySorted_app_1_r. exact Hdb. }
    rewrite Hpage in Hsorted_drop.
    assert (Hrows_in : forall r, r ∈ rows -> r ∈ db_rows db step).
    { intros r Hr. apply (subseteq_drop offset). rewrite Hpage.
      apply elem_of_app. left. exact Hr. }
    pose proof (for_row_in_iterator_order self rows
                  (StronglySorted_app_1_l _ _ _ Hsorted_drop) (log_all [] st_q) Hinv_l)
      as Hfeed.
    assert (Hbelow_l : forall t r, t ∈ times_of (log_all [] st_q) -> r ∈ rows ->
                                   row_time r <= t).
    { intros t r Ht Hr. rewrite Htimes_l in Ht. apply (Hbelow t r Ht).
      rewrite Hpage. apply elem_of_app. left. exact Hr. }
    specialize (Hfeed Hbelow_l).
    destruct (for_row_in_iterator self rows (log_all [] st_q)) as [[e|] st'];
      [exact Hfeed|].
    destruct Hfeed as [Hinv' Hsub'].
    assert (Hdone :
      in_time_order st'
      /\ forall t, t ∈ times_of st' ->
                   t ∈ times_of st \/ exists r, r ∈ db_rows db step /\ t = row_time r).
    { split; [exact Hinv'|]. intros t Ht. destruct (Hsub' t Ht) as [Hold|(r & Hr & ->)].
      - left. rewrite <- Htimes_l. exact Hold.
      - right. exists r. split; [apply Hrows_in, Hr | reflexivity]. }
    destruct query_limit as [l|]; [|exact Hdone].
    destruct (Z.of_nat (length rows) <? l); [exact Hdone|].
    specialize (IH (offset + length rows)%nat st' Hinv').
    assert (Hlimited : _opt_limit self = None -> (offset + length rows)%nat = 0%nat).
    { intros Hnone. unfold _build_actual_query in Ebuild. rewrite Hnone in Ebuild.
      discriminate. }
    assert (Hbelow' : forall t r, t ∈ times_of st' ->
                        r ∈ drop (offset + length rows) (db_rows db step) ->
                        row_time r <= t).
    { intros t r Ht Hr. destruct (Hsub' t Ht) as [Hold|(r0 & Hr0 & ->)].
      - rewrite Htimes_l in Hold. apply (Hbelow t r Hold).
        rewrite Hpage. apply elem_of_app. right. exact Hr.
      - apply (StronglySorted_app_1_elem_of _ _ _ r0 r Hsorted_drop Hr0 Hr). }
    specialize (IH Hlimited Hbelow').
    destruct (_fetch_rows_for_single_step_loop fuel db self step
                (offset + length rows) st') as [[e|] st'']; [exact IH|].
    destruct IH as [Hinv'' Hsub'']. split; [exact Hinv''|].
    intros t Ht. destruct (Hsub'' t Ht) as [Hold|Hnew]; [|right; exact Hnew].
    apply (proj2 Hdone). exact Hold.
Qed.

Lemma fetch_rows_from_db_order (steps : list Step) :
  (forall step, StronglySorted rows_newer_first (db_rows db step)) ->
  StronglySorted (rows_of_later_step_older db) steps ->
  forall st,
    in_time_order st ->
    (forall t step r, t ∈ times_of st -> step ∈ steps -> r ∈ db_rows db step ->
                      row_time r <= t) ->
    match _fetch_rows_from_db db self steps st with
    | (None, st') => in_time_order st'
    | (Some e, st') => StronglySorted newer_first (map res_time (yielded (trace st')))
    end.
Proof.
  intros Hdb. induction 1 as [|step steps Hsteps IH Hlater]; intros st Hinv Hbelow; simpl.
  - exact Hinv.
  - unfold _fetch_rows_for_single_step.
    pose proof (fetch_rows_for_single_step_loop_order step
                  (S (length (db_rows db step))) (Hdb step) 0%nat st Hinv
                  (fun _ => eq_refl)) as Hstep.
    assert (Hbelow0 : forall t r, t ∈ times_of st -> r ∈ drop 0 (db_rows db step) ->
                                  row_time r <= t).
    { intros t r Ht Hr. apply (Hbelow t step r Ht); [left | exact Hr]. }
    specialize (Hstep Hbelow0).
    destruct (_fetch_rows_for_single_step_loop _ db self step 0 st) as [[e|] st'];
      [exact Hstep|].
    destruct Hstep as [Hinv' Hsub']. apply IH; [exact Hinv'|].
    intros t step' r' Ht Hstep' Hr'. destruct (Hsub' t Ht) as [Hold|(r & Hr & ->)].
    + apply (Hbelow t step' r' Hold); [right; exact Hstep' | exact Hr'].
    + rewrite Forall_forall in Hlater. apply (Hlater step' Hstep' r r' Hr Hr').
Qed.
End TimeOrderOfSteps.

Section StepsApart.
Import _EventsQueryProcessor.
Variables time_min step_delta : DateTime.

Lemma time_comparisons_loop_exit (fuel : nat) (time_lower time_upper : DateTime) :
  time_lower <= time_min ->
  _time_comparisons_loop fuel time_min step_delta time_lower (Some time_upper) = ([], None).
Proof.
  intros Hle. assert (Hcond : (time_min <? time_lower) = false) by (apply Z.ltb_ge; exact Hle).
  destruct fuel; simpl; rewrite Hcond; reflexivity.
Qed.

Lemma time_comparisons_loop_unfold (fuel : nat) (time_lower : DateTime)
    (time_upper : option DateTime) (step : Step) :
  step ∈ (_time_comparisons_loop fuel time_min step_delta time_lower time_upper).1 ->
  exists fuel',
    fuel = S fuel'
    /\ (step = (partial op_ge (Z.max time_min (time_lower - step_delta)),
                partial op_lt time_lower)
        \/ step ∈ (_time_comparisons_loop fuel' time_min step_delta
                     (Z.max time_min (time_lower - step_delta)) (Some time_lower)).1).
Proof.
  destruct fuel as [|fuel']; simpl.
  - destruct ((time_min <? time_lower) || bool_decide (time_upper = None));
      simpl; intros Hin; inversion Hin.
  - destruct ((time_min <? time_lower) || bool_decide (time_upper = None));
      [|simpl; intros Hin; inversion Hin].
    destruct (datetime_sub_cases time_lower step_delta) as [[-> _] | [-> _]];
      [|simpl; intros Hin; inversion Hin].
    destruct (_time_comparisons_loop fuel' time_min step_delta
                (Z.max time_min (time_lower - step_delta)) (Some time_lower))
      as [rest stopped] eqn:Erec.
    simpl. intros Hin. exists fuel'. split; [reflexivity|]. rewrite Erec.
    apply elem_of_cons in Hin as [->|Hin]; [left; reflexivity | right; exact Hin].
Qed.

Lemma admits_loop_step (time_lower t : DateTime) :
  admits (partial op_ge (Z.max time_min (time_lower - step_delta)),
          partial op_lt time_lower) t = true ->
  Z.max time_min (time_lower - step_delta) <= t < time_lower.
Proof.
  unfold admits, holds. simpl. intros Hadm. apply andb_prop in Hadm as [Hge Hlt].
  apply Z.leb_le in Hge. apply Z.ltb_lt in Hlt. lia.
Qed.

Lemma time_comparisons_loop_admits_nothing (fuel : nat) :
  step_delta <= 0 ->
  forall time_lower time_upper step t,
    step ∈ (_time_comparisons_loop fuel time_min step_delta time_lower time_upper).1 ->
    admits step t = true -> False.
Proof.
  intros Hneg. induction fuel as [|fuel IH]; intros time_lower time_upper step t Hin Hadm;
    destruct (time_comparisons_loop_unfold _ _ _ _ Hin) as (fuel' & Efuel & Hcases);
    [discriminate|].
  injection Efuel as <-. destruct Hcases as [->|Hrest].
  - apply admits_loop_step in Hadm. lia.
  - eapply IH; eassumption.
Qed.

Lemma time_comparisons_loop_admits_below (fuel : nat) :
  forall time_lower time_upper step t,
    step ∈ (_time_comparisons_loop fuel time_min step_delta time_lower time_upper).1 ->
    admits step t = true -> t < time_lower.
Proof.
  induction fuel as [|fuel IH]; intros time_lower time_upper step t Hin Hadm;
    destruct (time_comparisons_loop_unfold _ _ _ _ Hin) as (fuel' & Efuel & Hcases);
    [discriminate|].
  injection Efuel as <-. destruct Hcases as [->|Hrest].
  - apply admits_loop_step in Hadm. lia.
  - destruct (Z.le_gt_cases step_delta 0) as [Hneg|Hpos].
    + exfalso. eapply time_comparisons_loop_admits_nothing; eassumption.
    + destruct (Z.le_gt_cases time_lower time_min) as [Hdone|Hmore].
      * rewrite time_comparisons_loop_exit in Hrest by lia. inversion Hrest.
      * specialize (IH _ _ _ _ Hrest Hadm). lia.
Qed.

Lemma time_comparisons_loop_apart (fuel : nat) :
  forall time_lower time_upper,
    StronglySorted step_before
      (_time_comparisons_loop fuel time_min step_delta time_lower time_upper).1.
Proof.
  induction fuel as [|fuel IH]; intros time_lower time_upper; simpl.
  - destruct ((time_min <? time_lower) || bool_decide (time_upper = None)); constructor.
  - destruct ((time_min <? time_lower) || bool_decide (time_upper = None)); [|constructor].
    destruct (datetime_sub_cases time_lower step_delta) as [[-> _] | [-> _]];
      [|constructor].
    pose proof (IH (Z.max time_min (time_lower - step_delta)) (Some time_lower)) as Hrest.
    pose proof (time_comparisons_loop_admits_below fuel
                  (Z.max time_min (time_lower - step_delta)) (Some time_lower)) as Hbelow.
    destruct (_time_comparisons_loop fuel time_min step_delta
                (Z.max time_min (time_lower - step_delta)) (Some time_lower))
      as [rest stopped].
    simpl in *. constructor; [exact Hrest|].
    apply Forall_forall. intros step' Hstep' t t' Hadm Hadm'.
    apply admits_loop_step in Hadm. specialize (Hbelow step' t' Hstep' Hadm'). lia.
Qed.
End StepsApart.

Lemma time_comparisons_per_step_apart (fuel : nat) (utcnow : DateTime)
    (self : _EventsQueryProcessor.t) :
  StronglySorted step_before
    (_EventsQueryProcessor._time_comparisons_per_step fuel utcnow self).1.
Proof.
  unfold _EventsQueryProcessor._time_comparisons_per_step.
  destruct (_EventsQueryProcessor._time_constraints self) as [[time_min time_max] time_until].
  destruct (timedelta (_EventsQueryProcessor._day_step self)) as [step_delta|e];
    [|constructor].
  destruct time_until as [time_until|]; [apply time_comparisons_loop_apart|].
  destruct (match time_max with
            | Some time_max => Return time_max
            | None => datetime_add utcnow (timedelta_hours 1)
            end) as [time_upper|e]; [|constructor].
  destruct (datetime_sub_cases time_upper step_delta) as [[-> _] | [-> _]]; [|constructor].
  pose proof (time_comparisons_loop_apart time_min step_delta fuel
                (Z.max time_min (time_upper - step_delta)) (Some time_upper)) as Hrest.
  pose proof (time_comparisons_loop_admits_below time_min step_delta fuel
                (Z.max time_min (time_upper - step_delta)) (Some time_upper)) as Hbelow.
  destruct (_EventsQueryProcessor._time_comparisons_loop fuel time_min step_delta
              (Z.max time_min (time_upper - step_delta)) (Some time_upper))
    as [rest stopped].
  simpl in *. constructor; [exact Hrest|].
  apply Forall_forall. intros step' Hstep' t t' Hadm Hadm'.
  specialize (Hbelow step' t' Hstep' Hadm').
  unfold admits, holds in Hadm. simpl in Hadm. apply andb_prop in Hadm as [Hge _].
  apply Z.leb_le in Hge. lia.
Qed.

Lemma steps_apart_rows_older (db : EventDB) (steps : list Step) :
  answers_in_time_order db ->
  StronglySorted step_before steps ->
  StronglySorted (rows_of_later_step_older db) steps.
Proof.
  intros Hdb. induction 1 as [|step steps Hsorted IH Hall]; constructor; [exact IH|].
  eapply Forall_impl; [exact Hall|]. intros step' Hbefore r r' Hr Hr'.
  destruct (Hdb step) as [_ Hadm]. destruct (Hdb step') as [_ Hadm'].
  rewrite Forall_forall in Hadm, Hadm'.
  specialize (Hbefore (row_time r) (row_time r') (Hadm r Hr) (Hadm' r' Hr')). lia.
Qed.

Lemma initial_state_in_time_order : in_time_order initial_state.
Proof.
  split; [constructor|]. intros r r' Hr. inversion Hr.
Qed.

(** C3. When every per-step query returns the rows of its time window
    ordered by [time] descending, the result dicts yielded by
    [generate_query_results()] are in non-increasing order of [time]:
    within a step and across steps, whatever [time_min], [time_max] and
    [time_until] (and the cap, the step length and the fuel) are. *)
Theorem generate_query_results_in_time_order `{N6Lib}
    (fuel : nat) (utcnow : DateTime) (db : EventDB) (self : _EventsQueryProcessor.t) :
  answers_in_time_order db ->
  StronglySorted results_newer_first
    (yielded (trace (_EventsQueryProcessor.generate_query_results fuel utcnow db self).2)).
Proof.
  intros Hdb.
  assert (Hconv : forall l, StronglySorted newer_first (map res_time l) ->
                            StronglySorted results_newer_first l).
  { induction l as [|y l IH]; intros Hl; [constructor|].
    simpl in Hl. apply StronglySorted_inv in Hl as [Hl Hall].
    constructor; [apply IH; exact Hl|].
    apply Forall_forall. intros y' Hy'. rewrite Forall_forall in Hall.
    apply (Hall (res_time y')). apply list_elem_of_fmap. eauto. }
  apply Hconv. unfold _EventsQueryProcessor.generate_query_results.
  pose proof (time_comparisons_per_step_apart fuel utcnow self) as Hapart.
  destruct (_EventsQueryProcessor._time_comparisons_per_step fuel utcnow self)
    as [steps stopped].
  simpl in Hapart.
  pose proof (fetch_rows_from_db_order db self steps (fun step => proj1 (Hdb step))
                (steps_apart_rows_older db steps Hdb Hapart) initial_state
                initial_state_in_time_order) as Hfetch.
  assert (Hbelow : forall (t : DateTime) (step : Step) (r : FetchedRow),
            t ∈ times_of initial_state -> step ∈ steps -> r ∈ db_rows db step ->
            row_time r <= t)
    by (intros t step r Ht; inversion Ht).
  specialize (Hfetch Hbelow).
  destruct (_EventsQueryProcessor._fetch_rows_from_db db self steps initial_state)
    as [[e|] st]; [exact Hfetch|].
  destruct stopped as [stop|]; simpl; [apply in_time_order_yielded; exact Hfetch|].
  pose proof (for_same_time_rows_order self st Hfetch) as (Hflush & _ & _).
  destruct (pending st) as [|first rest] eqn:Epending.
  - destruct (_EventsQueryProcessor._opt_limit self) as [N|];
      [destruct (Z.of_nat (produced st) <? N)|]; apply in_time_order_yielded; exact Hfetch.
  - destruct (_EventsQueryProcessor.for_same_time_rows self (first :: rest) _)
      as [[e|] st']; simpl in *; [exact Hflush|].
    destruct (_EventsQueryProcessor._opt_limit self) as [N|];
      [destruct (Z.of_nat (produced st') <? N)|]; exact Hflush.
Qed.

(** * The properties at work on the samples *)

Lemma transact_exit_on_samples :
  context_count entered_state = 1%nat
  /\ __exit__ healthy_session None entered_state
     = (Return tt, mkState 0 [Rollback; Flush; Commit])
  /\ __exit__ failing_flush_session None entered_state
     = (Raise (OtherException "IntegrityError"), mkState 0 [Rollback; Flush; Rollback])
  /\ __exit__ healthy_session (Some (OtherException "ValueError")) entered_state
     = (Return tt, mkState 0 [Rollback; Rollback])
  /\ __exit__ failing_rollback_session (Some (OtherException "ValueError")) entered_state
     = (Raise (OtherException "OperationalError"), mkState 0 [Rollback; Rollback; Remove]).
Proof.
  split; [reflexivity|]. split; [|split; [|split]].
  - exact (proj1 (transact_exit_flush_commit_rollback
                    healthy_session entered_state eq_refl) eq_refl eq_refl).
  - exact (proj1 (proj2 (transact_exit_flush_commit_rollback
                           failing_flush_session entered_state eq_refl))
             (OtherException "IntegrityError") eq_refl eq_refl).
  - exact (proj1 (proj2 (proj2 (transact_exit_flush_commit_rollback
                                  healthy_session entered_state eq_refl)))
             (OtherException "ValueError") eq_refl).
  - exact (proj1 (proj2 (proj2 (proj2 (proj2 (proj2 (proj2
             (transact_exit_flush_commit_rollback
                failing_rollback_session entered_state eq_refl)))))))
             (OtherException "ValueError") (OtherException "OperationalError")
             eq_refl ltac:(discriminate)).
Defined.

Lemma handling_db_api_error_on_sample :
  _BaseQueryProcessor.handling_db_api_error (H := sample_lib) (A := unit)
    (Raise (DBAPIError "(2006, 'gone
away')" "SELECT 1" "()"))
  = (Raise (EventDatabaseError "DB API error - (2006, 'gone away')..."),
     [LogDbApiError "DB API error - (2006, 'gone away')..." "SELECT 1" "()"]).
Proof.
  exact (proj1 (handling_db_api_error_translates (H := sample_lib) unit
                  "(2006, 'gone
away')" "SELECT 1" "()")).
Defined.

Lemma get_counts_per_category_on_samples :
  _CountsQueryProcessor._build_query_for_counts_per_category sample_counts_processor 0
  = Return sample_counts_query
  /\ (exists m : gmap string nat,
        _CountsQueryProcessor.get_counts_per_category (H := sample_lib)
          sample_counts_executor sample_counts_processor 0 = (Return m, [])
        /\ dom m = list_to_set ["bots"; "cnc"; "phish"]
        /\ m !! "bots" = Some 3%nat /\ m !! "cnc" = Some 0%nat)
  /\ (exists msg,
        _CountsQueryProcessor.get_counts_per_category (H := sample_lib)
          sample_bad_counts_executor sample_counts_processor 0
        = (Raise (AssertionError msg), [])).
Proof.
  split; [reflexivity|]. split.
  - destruct (proj1 (get_counts_per_category_total_over_enumeration (H := sample_lib)
                       sample_counts_executor sample_counts_processor 0
                       sample_counts_query _ eq_refl eq_refl))
      as (m & Hm & _ & Hdom & Hzero & Hlast).
    + intros c Hc. simpl in Hc. set_solver.
    + exists m. split; [exact Hm|]. split; [exact Hdom|]. split.
      * apply (Hlast [] "bots" 3%nat [("phish", 1%nat)] eq_refl). simpl. set_solver.
      * apply Hzero; simpl; set_solver.
  - apply (proj2 (get_counts_per_category_total_over_enumeration (H := sample_lib)
                    sample_bad_counts_executor sample_counts_processor 0
                    sample_counts_query _ eq_refl eq_refl) "bogus").
    + simpl. set_solver.
    + simpl. set_solver.
Defined.

Lemma api_counts_on_samples :
  [any_row] <> []
  /\ exists m : gmap string nat,
       N6DataBackendAPI.get_counts_per_category (H := sample_lib)
         (sql_counts sample_tables) sample_auth_data [any_row] 0 = (Return m, [])
       /\ m !! "bots" = Some 1%nat /\ m !! "cnc" = Some 0%nat.
Proof.
  split; [discriminate|].
  destruct (api_counts_restricted_to_own_organization (H := sample_lib)
              sample_tables sample_auth_data [any_row] 0 ltac:(discriminate))
    as (self & query & Hinit & _ & Hq & _ & _ & _ & Htotal).
  injection Hinit as <-. injection Hq as <-.
  destruct Htotal as (m & Hm & Hlookup).
  - intros j Hj. vm_compute in Hj.
    apply elem_of_cons in Hj as [->|Hj]; [simpl; set_solver|].
    apply elem_of_cons in Hj as [->|Hj]; [simpl; set_solver | inversion Hj].
  - exists m. split; [exact Hm|]. split.
    + rewrite Hlookup by (simpl; set_solver). reflexivity.
    + rewrite Hlookup by (simpl; set_solver). reflexivity.
Defined.

Lemma generate_query_results_cap_on_samples :
  1 <= 2
  /\ let run := _EventsQueryProcessor.generate_query_results (H := sample_lib)
                  5 0 sample_db (sample_processor (Some 2)) in
     run.1 = CapReached
     /\ length (yielded (trace run.2)) = 2%nat
     /\ produced run.2 = 2%nat
     /\ exists earlier result_dict, trace run.2 = earlier ++ [EvYield result_dict].
Proof.
  split; [lia|]. intros run.
  assert (Hend : run.1 = CapReached) by (vm_compute; reflexivity).
  pose proof (proj1 (generate_query_results_respects_cap (H := sample_lib)
              0 sample_db (sample_processor (Some 2)) ltac:(simpl; lia)) 5%nat) as Hsafe.
  cbv zeta in Hsafe. fold run in Hsafe. clearbody run.
  destruct Hsafe as (Hcount & _ & Hcap & _).
  destruct (Hcap Hend) as [Hlim Hlast].
  assert (Hlen : length (yielded (trace run.2)) = 2%nat).
  { unfold sample_processor in Hlim. simpl in Hlim. injection Hlim as Hlim. lia. }
  split; [exact Hend|]. split; [exact Hlen|]. split; [congruence | exact Hlast].
Defined.


Lemma time_comparisons_terminate_on_sample :
  1 <= _EventsQueryProcessor._day_step until_processor
  /\ windows_in_range 0 until_processor
  /\ exists (steps : list Step) (fuel0 : nat),
       (forall fuel, (fuel0 <= fuel)%nat ->
          _EventsQueryProcessor._time_comparisons_per_step fuel 0 until_processor
          = (steps, None))
       /\ steps <> []
       /\ exists step, last steps = Some step /\ lower_bound step = 100.
Proof.
  split; [simpl; lia|].
  assert (Hrange : windows_in_range 0 until_processor)
    by (unfold windows_in_range, effective_time_upper, timedelta_days, timedelta_hours,
          datetime_min, datetime_max; simpl; lia).
  split; [exact Hrange|].
  destruct (time_comparisons_per_step_terminates until_processor 0 ltac:(simpl; lia))
    as (steps & stopped & fuel0 & Hfuel & _ & Hnormal & _ & _ & Hlast).
  specialize (Hnormal Hrange). subst stopped.
  exists steps, fuel0. split; [exact Hfuel|]. exact (Hlast eq_refl).
Defined.

Lemma filter_strongly_sorted {A} (R : relation A) (f : A -> bool) (l : list A) :
  StronglySorted R l -> StronglySorted R (List.filter f l).
Proof.
  induction 1 as [|x l Hsorted IH Hall]; simpl; [constructor|].
  destruct (f x); [|exact IH]. constructor; [exact IH|].
  apply Forall_forall. intros y Hy. apply list_elem_of_In, filter_In in Hy as [Hy _].
  rewrite Forall_forall in Hall. apply Hall, list_elem_of_In, Hy.
Qed.

Lemma sample_db_answers_in_time_order : answers_in_time_order sample_db.
Proof.
  intros step. split.
  - apply filter_strongly_sorted. unfold sample_rows, rows_newer_first.
    repeat (constructor; [|repeat (constructor; [simpl; lia|]); constructor]).
    constructor.
  - apply Forall_forall. intros r Hr.
    apply list_elem_of_In, filter_In in Hr as [_ Hadm]. exact Hadm.
Qed.

Lemma generate_query_results_order_on_samples :
  answers_in_time_order sample_db
  /\ StronglySorted results_newer_first
       (yielded (trace (_EventsQueryProcessor.generate_query_results (H := sample_lib)
                          5 0 sample_db (sample_processor None)).2))
  /\ map res_time
       (yielded (trace (_EventsQueryProcessor.generate_query_results (H := sample_lib)
                          5 0 sample_db (sample_processor None)).2))
     = [300; 200; 200; 100].
Proof.
  split; [exact sample_db_answers_in_time_order|]. split.
  - exact (generate_query_results_in_time_order (H := sample_lib) 5 0 sample_db
             (sample_processor None) sample_db_answers_in_time_order).
  - vm_compute. reflexivity.
Defined.

Lemma id_groups_on_samples :
  map _EventsQueryProcessor._make_result_dict
    (iter_grouped_by_id_presorted
       [sample_row "a" 200 (Some "org1"); sample_row "a" 200 (Some "org2")])
  = [Return (make_raw_result_dict (sample_row "a" 200 (Some "org1"))
               ({["org1"]} ∪ {["org2"]}))].
Proof.
  exact (proj2 (proj2 (proj2 (id_groups_merge_into_single_results [])))
           (sample_row "a" 200 (Some "org1")) (sample_row "a" 200 (Some "org2"))
           "org1" "org2" eq_refl eq_refl eq_refl eq_refl).
Defined.

Lemma preprocess_result_dict_on_samples :
  let rd := sample_result_with_url_data (Some "SY:abc") in
  url_is_provisional (H := sample_lib) rd = true
  /\ exists cache',
       _EventsQueryProcessor._preprocess_result_dict (H := sample_lib)
         (sample_processor None) ∅ rd
       = (Return (Some (with_url "http://example.com/" (without_url_data rd))), cache', []).
Proof.
  intros rd. split; [reflexivity|].
  destruct (proj2 (preprocess_result_dict_url_filter (H := sample_lib)
                     (sample_processor None) ∅ rd)
              (well_formed_url_data "http://example.com/" ∅) eq_refl ltac:(discriminate))
    as (_ & _ & Hkept).
  destruct (Hkept eq_refl "http://example.com/" ∅ "http://example.com/"
              "http://example.com/" None eq_refl eq_refl eq_refl)
    as (_ & cache' & _ & Hpre).
  - intros opts item Hlookup. rewrite lookup_empty in Hlookup. discriminate.
  - reflexivity.
  - exists cache'. exact Hpre.
Defined.

(** * Further properties *)

(** ** The time windows as a partition of the queried range *)

Section StepsCover.
Variables time_min step_delta : DateTime.
Hypothesis step_delta_pos : 0 < step_delta.

Lemma loop_run_done (time_lower time_upper : DateTime) (steps : list Step) :
  loop_run time_min step_delta time_lower (Some time_upper) steps ->
  time_lower <= time_min -> steps = [].
Proof.
  intros Hrun Hle. inversion Hrun as [|l up rest [Hlt|Hup] Hrest]; subst;
    [reflexivity | lia | discriminate].
Qed.

Lemma loop_run_covers (time_lower : DateTime) (time_upper : option DateTime)
    (steps : list Step) :
  loop_run time_min step_delta time_lower time_upper steps ->
  forall t, time_min <= t < time_lower ->
    exists step, step ∈ steps /\ admits step t = true.
Proof.
  induction 1 as [l u Hle|l up steps Hcond Hrun IH]; intros t Ht; [lia|].
  destruct (Z.le_gt_cases (Z.max time_min (l - step_delta)) t) as [Hfirst|Hrest].
  - exists (partial op_ge (Z.max time_min (l - step_delta)), partial op_lt l).
    split; [left|]. unfold admits, holds. simpl.
    apply andb_true_intro. split; [apply Z.leb_le | apply Z.ltb_lt]; lia.
  - destruct (IH t ltac:(lia)) as (step & Hin & Hadm).
    exists step. split; [right; exact Hin | exact Hadm].
Qed.

Lemma loop_run_admits_in_range (time_lower : DateTime) (time_upper : option DateTime)
    (steps : list Step) :
  loop_run time_min step_delta time_lower time_upper steps ->
  forall step t, step ∈ steps -> admits step t = true -> time_min <= t < time_lower.
Proof.
  induction 1 as [l u Hle|l up steps Hcond Hrun IH]; intros step t Hin Hadm;
    [inversion Hin|].
  apply elem_of_cons in Hin as [->|Hin].
  - apply admits_loop_step in Hadm. lia.
  - destruct (Z.le_gt_cases (Z.max time_min (l - step_delta)) time_min) as [Hdone|Hmore].
    + rewrite (loop_run_done _ _ _ Hrun Hdone) in Hin. inversion Hin.
    + specialize (IH step t Hin Hadm). lia.
Qed.

Lemma loop_run_all_exclusive (time_lower : DateTime) (time_upper : option DateTime)
    (steps : list Step) :
  loop_run time_min step_delta time_lower time_upper steps ->
  Forall (fun step => cmp_operator (fst step) = op_ge /\ cmp_operator (snd step) = op_lt)
         steps.
Proof. induction 1; constructor; simpl; auto. Qed.

(** The number of steps of a run of the loop that starts above [time_min]. *)
Lemma loop_run_length (time_lower time_upper : DateTime) (steps : list Step) :
  loop_run time_min step_delta time_lower (Some time_upper) steps ->
  time_min < time_lower ->
  (Z.of_nat (length steps) - 1) * step_delta < time_lower - time_min
  /\ time_lower - time_min <= Z.of_nat (length steps) * step_delta.
Proof.
  remember (Some time_upper) as up eqn:Eup. intros Hrun. revert time_upper Eup.
  induction Hrun as [l u Hle|l up steps Hcond Hrun IH]; intros time_upper Eup Hlt; [lia|].
  destruct (Z.le_gt_cases (Z.max time_min (l - step_delta)) time_min) as [Hdone|Hmore].
  - rewrite (loop_run_done _ _ _ Hrun Hdone). simpl. lia.
  - specialize (IH l eq_refl Hmore). simpl length. lia.
Qed.
End StepsCover.

Lemma steps_admit_at_most_once (steps : list Step) (t : DateTime) :
  StronglySorted step_before steps ->
  forall i j step step',
    steps !! i = Some step -> steps !! j = Some step' ->
    admits step t = true -> admits step' t = true -> i = j.
Proof.
  induction 1 as [|first rest Hsorted IH Hall]; intros i j step step' Hi Hj Hadm Hadm';
    [discriminate|].
  rewrite Forall_forall in Hall.
  destruct i as [|i], j as [|j]; simpl in Hi, Hj.
  - reflexivity.
  - injection Hi as <-. apply list_elem_of_lookup_2 in Hj.
    specialize (Hall step' Hj t t Hadm Hadm'). lia.
  - injection Hj as <-. apply list_elem_of_lookup_2 in Hi.
    specialize (Hall step Hi t t Hadm' Hadm). lia.
  - f_equal. eapply IH; eassumption.
Qed.

(** X1. Without [time.until] and with [day_step >= 1], the steps of a
    finished generation partition the closed range from [time_min] to
    the upper end ([time_max], or [utcnow] + 1 hour): a time is admitted
    by some step exactly when it lies in that range, and never by two
    steps. *)
Theorem steps_partition_closed_range (fuel : nat) (utcnow : DateTime)
    (self : _EventsQueryProcessor.t) (time_min : DateTime) (time_max : option DateTime)
    (steps : list Step) :
  _EventsQueryProcessor._time_constraints self = (time_min, time_max, None) ->
  1 <= _EventsQueryProcessor._day_step self ->
  _EventsQueryProcessor._time_comparisons_per_step fuel utcnow self = (steps, None) ->
  (forall t, (exists step, step ∈ steps /\ admits step t = true)
             <-> time_min <= t <= effective_time_upper utcnow time_max)
  /\ (forall t i j step step',
        steps !! i = Some step -> steps !! j = Some step' ->
        admits step t = true -> admits step' t = true -> i = j).
Proof.
  intros Hconstraints Hday Hgen.
  pose proof (timedelta_days_pos _ Hday) as Hpos.
  pose proof (time_comparisons_per_step_shape fuel utcnow self steps Hgen) as Hshape.
  rewrite Hconstraints in Hshape. simpl in Hshape.
  destruct Hshape as (rest & -> & Hrun).
  set (time_upper := effective_time_upper utcnow time_max) in *.
  set (step_delta := timedelta_days (_EventsQueryProcessor._day_step self)) in *.
  split.
  - intros t. split.
    + intros (step & Hin & Hadm). apply elem_of_cons in Hin as [->|Hin].
      * unfold admits, holds in Hadm. simpl in Hadm.
        apply andb_prop in Hadm as [Hge Hle].
        apply Z.leb_le in Hge. apply Z.leb_le in Hle. lia.
      * destruct (Z.le_gt_cases (Z.max time_min (time_upper - step_delta)) time_min)
          as [Hdone|Hmore].
        -- assert (Hnil : rest = []) by (eapply loop_run_done; eassumption).
           rewrite Hnil in Hin. inversion Hin.
        -- assert (time_min <= t < Z.max time_min (time_upper - step_delta))
             by (eapply loop_run_admits_in_range; eassumption).
           lia.
    + intros Ht.
      destruct (Z.le_gt_cases (Z.max time_min (time_upper - step_delta)) t) as [Hfirst|Hrest].
      * eexists. split; [left|]. unfold admits, holds. simpl.
        apply andb_true_intro. split; apply Z.leb_le; lia.
      * assert (Hcov : exists step, step ∈ rest /\ admits step t = true)
          by (eapply loop_run_covers; [exact Hrun | lia]).
        destruct Hcov as (step & Hin & Hadm).
        exists step. split; [right; exact Hin | exact Hadm].
  - intros t. apply steps_admit_at_most_once.
    pose proof (time_comparisons_per_step_apart fuel utcnow self) as Hapart.
    rewrite Hgen in Hapart. exact Hapart.
Qed.

(** X2. With [time.until] given and [day_step >= 1], every step of a
    finished generation has an exclusive upper bound, the first one
    being [time < time_until]; a time is admitted by some step exactly
    when [time_min <= time < time_until], and never by two steps
    ([time_max] and the clock play no part). *)
Theorem steps_partition_range_until (fuel : nat) (utcnow : DateTime)
    (self : _EventsQueryProcessor.t) (time_min time_until : DateTime)
    (time_max : option DateTime) (steps : list Step) :
  _EventsQueryProcessor._time_constraints self = (time_min, time_max, Some time_until) ->
  1 <= _EventsQueryProcessor._day_step self ->
  _EventsQueryProcessor._time_comparisons_per_step fuel utcnow self = (steps, None) ->
  Forall (fun step => cmp_operator (fst step) = op_ge /\ cmp_operator (snd step) = op_lt)
         steps
  /\ (exists step, steps !! 0%nat = Some step /\ snd step = partial op_lt time_until)
  /\ (forall t, (exists step, step ∈ steps /\ admits step t = true)
                <-> time_min <= t < time_until)
  /\ (forall t i j step step',
        steps !! i = Some step -> steps !! j = Some step' ->
        admits step t = true -> admits step' t = true -> i = j).
Proof.
  intros Hconstraints Hday Hgen.
  pose proof (timedelta_days_pos _ Hday) as Hpos.
  pose proof (time_comparisons_per_step_shape fuel utcnow self steps Hgen) as Hrun.
  rewrite Hconstraints in Hrun. simpl in Hrun.
  split; [eapply loop_run_all_exclusive; exact Hrun|]. split; [|split].
  - inversion Hrun; subst. eexists. split; reflexivity.
  - intros t. split.
    + intros (step & Hin & Hadm).
      eapply loop_run_admits_in_range; eassumption.
    + intros Ht. eapply loop_run_covers; eassumption.
  - intros t. apply steps_admit_at_most_once.
    pose proof (time_comparisons_per_step_apart fuel utcnow self) as Hapart.
    rewrite Hgen in Hapart. exact Hapart.
Qed.

(** X3. Without [time.until] and with [day_step >= 1], a finished
    generation has exactly one step when the range from [time_min] to
    the upper end is at most one step long (or empty), and otherwise
    the least number [n] of steps with [n * day_step] days reaching from
    the upper end down to [time_min]. *)
Theorem steps_number (fuel : nat) (utcnow : DateTime)
    (self : _EventsQueryProcessor.t) (time_min : DateTime) (time_max : option DateTime)
    (steps : list Step) :
  _EventsQueryProcessor._time_constraints self = (time_min, time_max, None) ->
  1 <= _EventsQueryProcessor._day_step self ->
  _EventsQueryProcessor._time_comparisons_per_step fuel utcnow self = (steps, None) ->
  let span := effective_time_upper utcnow time_max - time_min in
  let step_delta := timedelta_days (_EventsQueryProcessor._day_step self) in
  (span <= step_delta -> length steps = 1%nat)
  /\ (step_delta < span ->
      (Z.of_nat (length steps) - 1) * step_delta < span
      /\ span <= Z.of_nat (length steps) * step_delta).
Proof.
  intros Hconstraints Hday Hgen span step_delta.
  pose proof (timedelta_days_pos _ Hday) as Hpos. fold step_delta in Hpos.
  pose proof (time_comparisons_per_step_shape fuel utcnow self steps Hgen) as Hshape.
  rewrite Hconstraints in Hshape. simpl in Hshape. fold step_delta in Hshape.
  destruct Hshape as (rest & -> & Hrun). split.
  - intros Hshort.
    assert (Hnil : rest = [])
      by (eapply loop_run_done; [exact Hrun | unfold span in Hshort; lia]).
    rewrite Hnil. reflexivity.
  - intros Hlong.
    assert (Hlen :
      (Z.of_nat (length rest) - 1) * step_delta
      < Z.max time_min (effective_time_upper utcnow time_max - step_delta) - time_min
      /\ Z.max time_min (effective_time_upper utcnow time_max - step_delta) - time_min
         <= Z.of_nat (length rest) * step_delta)
      by (eapply loop_run_length; try eassumption; unfold span in Hlong; lia).
    unfold span, Step in *. simpl length. lia.
Qed.

(** ** Paging does not change what is produced *)

Lemma without_queries_app (t1 t2 : list event) :
  without_queries (t1 ++ t2) = without_queries t1 ++ without_queries t2.
Proof. unfold without_queries. apply List.filter_app. Qed.

Lemma without_queries_logs (logged : list log_record) :
  without_queries (map EvLog logged) = map EvLog logged.
Proof. induction logged as [|l logged IH]; simpl; congruence. Qed.

Lemma yielded_without_queries (t : list event) :
  yielded (without_queries t) = yielded t.
Proof.
  induction t as [|ev t IH]; [reflexivity|].
  destruct ev; simpl; unfold yielded in *; simpl; congruence.
Qed.

Lemma same_progress_refl (st : RunState) : same_progress st st.
Proof. repeat split. Qed.

Lemma same_progress_trans (st1 st2 st3 : RunState) :
  same_progress st1 st2 -> same_progress st2 st3 -> same_progress st1 st3.
Proof.
  intros (Hp & Hq & Hc & Ht) (Hp' & Hq' & Hc' & Ht'). repeat split; congruence.
Qed.

Lemma same_progress_yielded (st st' : RunState) :
  same_progress st st' -> yielded (trace st) = yielded (trace st').
Proof.
  intros (_ & _ & _ & Ht).
  rewrite <- (yielded_without_queries (trace st)), Ht. apply yielded_without_queries.
Qed.

Lemma same_progress_query (st : RunState) (query : ActualQuery) :
  same_progress
    (mkRunState (produced st) (pending st) (url_norm_cache st) (trace st ++ [EvQuery query]))
    st.
Proof.
  repeat split. simpl. rewrite without_queries_app. simpl. apply app_nil_r.
Qed.

Section Transparency.
Context `{N6Lib}.
Import _EventsQueryProcessor.
Variable self : t.

Lemma produce_result_or_none_same_progress (same_id_rows : list FetchedRow)
    (st1 st2 : RunState) :
  same_progress st1 st2 ->
  (produce_result_or_none self same_id_rows st1).1
  = (produce_result_or_none self same_id_rows st2).1
  /\ same_progress (produce_result_or_none self same_id_rows st1).2
                   (produce_result_or_none self same_id_rows st2).2.
Proof.
  destruct st1 as [p1 q1 c1 t1], st2 as [p2 q2 c2 t2].
  intros (Hp & Hq & Hc & Ht). simpl in *. subst p2 q2 c2.
  unfold produce_result_or_none. simpl.
  destruct (_make_result_dict same_id_rows) as [rd|e]; [|repeat split; exact Ht].
  destruct (_preprocess_result_dict self c1 rd) as [[r cache'] logged].
  assert (Hlog : without_queries (t1 ++ map EvLog logged)
                 = without_queries (t2 ++ map EvLog logged))
    by (rewrite !without_queries_app, Ht; reflexivity).
  destruct r as [[kept|]|e]; simpl; repeat split; exact Hlog.
Qed.

Lemma for_same_id_rows_same_progress (groups : list (list FetchedRow)) :
  forall st1 st2,
    same_progress st1 st2 ->
    (for_same_id_rows self groups st1).1 = (for_same_id_rows self groups st2).1
    /\ same_progress (for_same_id_rows self groups st1).2
                     (for_same_id_rows self groups st2).2.
Proof.
  induction groups as [|g groups IH]; intros st1 st2 Hsame; simpl; [auto|].
  destruct (produce_result_or_none_same_progress g st1 st2 Hsame) as [Hres Hsame'].
  destruct (produce_result_or_none self g st1) as [r1 st1'].
  destruct (produce_result_or_none self g st2) as [r2 st2'].
  simpl in Hres, Hsame'. subst r2.
  destruct r1 as [r|e]; [|simpl; auto].
  set (next1 := match r with
                | Some result_dict =>
                    mkRunState (produced st1') (pending st1') (url_norm_cache st1')
                               (trace st1' ++ [EvYield result_dict])
                | None => st1'
                end).
  set (next2 := match r with
                | Some result_dict =>
                    mkRunState (produced st2') (pending st2') (url_norm_cache st2')
                               (trace st2' ++ [EvYield result_dict])
                | None => st2'
                end).
  assert (Hnext : same_progress next1 next2).
  { destruct Hsame' as (Hp & Hq & Hc & Ht). unfold next1, next2.
    destruct r as [rd|]; repeat split; simpl; try assumption.
    rewrite !without_queries_app, Ht. reflexivity. }
  assert (Henough : enough_results_produced self next1 = enough_results_produced self next2).
  { unfold enough_results_produced. destruct Hnext as (-> & _). reflexivity. }
  rewrite Henough. destruct (enough_results_produced self next2).
  - destruct Hnext as (Hp & Hrest). rewrite Hp.
    destruct (bool_decide _); simpl; (split; [reflexivity | split; [exact Hp | exact Hrest]]).
  - apply IH. exact Hnext.
Qed.

Lemma on_row_same_progress (row : FetchedRow) (st1 st2 : RunState) :
  same_progress st1 st2 ->
  (on_row self row st1).1 = (on_row self row st2).1
  /\ same_progress (on_row self row st1).2 (on_row self row st2).2.
Proof.
  intros Hsame. pose proof Hsame as (Hp & Hq & Hc & Ht). unfold on_row. rewrite Hq.
  destruct (pending st2) as [|first rest] eqn:Epending.
  - simpl. repeat split; assumption.
  - destruct (bool_decide (row_time first = row_time row)).
    + simpl. repeat split; assumption.
    + unfold for_same_time_rows.
      destruct (for_same_id_rows_same_progress
                  (iter_grouped_by_id_presorted (first :: rest))
                  (mkRunState (produced st1) [] (url_norm_cache st1) (trace st1))
                  (mkRunState (produced st2) [] (url_norm_cache st2) (trace st2)))
        as [Hres Hsame'].
      { repeat split; assumption. }
      destruct (for_same_id_rows self _ (mkRunState (produced st1) _ _ _)) as [o1 st1'].
      destruct (for_same_id_rows self _ (mkRunState (produced st2) _ _ _)) as [o2 st2'].
      simpl in Hres, Hsame'. subst o2.
      destruct o1 as [e|]; simpl; [auto|].
      destruct Hsame' as (Hp' & Hq' & Hc' & Ht'). repeat split; assumption.
Qed.

Lemma for_row_in_iterator_same_progress (rows : list FetchedRow) :
  forall st1 st2,
    same_progress st1 st2 ->
    (for_row_in_iterator self rows st1).1 = (for_row_in_iterator self rows st2).1
    /\ same_progress (for_row_in_iterator self rows st1).2
                     (for_row_in_iterator self rows st2).2.
Proof.
  induction rows as [|row rows IH]; intros st1 st2 Hsame; simpl; [auto|].
  destruct (on_row_same_progress row st1 st2 Hsame) as [Hres Hsame'].
  destruct (on_row self row st1) as [o1 st1'].
  destruct (on_row self row st2) as [o2 st2'].
  simpl in Hres, Hsame'. subst o2.
  destruct o1 as [e|]; [simpl; auto|]. apply IH. exact Hsame'.
Qed.

Lemma for_row_in_iterator_app (rows1 rows2 : list FetchedRow) :
  forall st,
    for_row_in_iterator self (rows1 ++ rows2) st
    = match for_row_in_iterator self rows1 st with
      | (Some e, st') => (Some e, st')
      | (None, st') => for_row_in_iterator self rows2 st'
      end.
Proof.
  induction rows1 as [|row rows1 IH]; intros st; simpl; [reflexivity|].
  destruct (on_row self row st) as [[e|] st']; [reflexivity | apply IH].
Qed.
End Transparency.

Section Paging.
Context `{N6Lib}.
Import _EventsQueryProcessor.
Variables (db : EventDB) (self : t).
Hypothesis db_never_fails : never_fails db.

Lemma build_actual_query_counting (step : Step) (offset : nat) (st : RunState) :
  counting (_opt_limit self) st ->
  exists query query_limit,
    _build_actual_query self step offset (produced st) = Return (query, query_limit).
Proof.
  intros [_ Hbelow]. unfold _build_actual_query.
  destruct (_opt_limit self) as [N|]; [|eauto].
  destruct (Z.ltb_spec 0 (N - Z.of_nat (produced st))); [eauto | lia].
Qed.

Lemma fetch_rows_for_single_step_loop_unpaged (step : Step) (fuel : nat) :
  forall offset st1 st2,
    counting (_opt_limit self) st1 ->
    same_progress st1 st2 ->
    (length (drop offset (db_rows db step)) < fuel)%nat ->
    (_opt_limit self = None -> offset = 0%nat) ->
    (_fetch_rows_for_single_step_loop fuel db self step offset st1).1
    = (for_row_in_iterator self (drop offset (db_rows db step)) st2).1
    /\ same_progress
         (_fetch_rows_for_single_step_loop fuel db self step offset st1).2
         (for_row_in_iterator self (drop offset (db_rows db step)) st2).2.
Proof.
  induction fuel as [|fuel IH]; intros offset st1 st2 Hinv Hsame Hfuel Hunlimited; [lia|].
  simpl.
  destruct (build_actual_query_counting step offset st1 Hinv)
    as (query & query_limit & Ebuild).
  rewrite Ebuild.
  destruct (build_actual_query_limit self _ _ _ _ _ Ebuild) as (Hstep & Hlimit & Hoffset).
  set (st_q := mkRunState (produced st1) (pending st1) (url_norm_cache st1)
                          (trace st1 ++ [EvQuery query])).
  destruct (handling_db_api_error_cases (execute db query))
    as [(rows & Hrows & ->)|(e & e' & logged & Hraised & _)].
  2:{ unfold execute in Hraised. rewrite db_never_fails in Hraised. discriminate. }
  assert (Hinv_l : counting (_opt_limit self) (log_all [] st_q)).
  { apply (counting_after_events _ _ (map EvLog [])); [reflexivity|].
    apply counting_after_events; [reflexivity | exact Hinv]. }
  assert (Hsame_l : same_progress (log_all [] st_q) st2).
  { apply (same_progress_trans _ st_q).
    - repeat split. simpl. rewrite app_nil_r. reflexivity.
    - apply (same_progress_trans _ st1); [apply same_progress_query | exact Hsame]. }
  assert (Hpage :
    drop offset (db_rows db step)
    = rows ++ match query_limit with
              | Some _ => drop (offset + length rows) (db_rows db step)
              | None => []
              end).
  { apply (execute_page db query); try assumption.
    destruct query_limit as [l|]; [apply Hoffset|].
    split; [exact Hoffset|]. apply Hunlimited.
    eapply build_actual_query_unlimited. exact Ebuild. }
  rewrite Hpage, for_row_in_iterator_app.
  destruct (for_row_in_iterator_same_progress self rows _ _ Hsame_l) as [Hres Hsame'].
  pose proof (for_row_in_iterator_counting self rows _ Hinv_l) as Hfeed.
  destruct (for_row_in_iterator self rows (log_all [] st_q)) as [o1 st1'].
  destruct (for_row_in_iterator self rows st2) as [o2 st2'].
  simpl in Hres, Hsame'. subst o2.
  destruct o1 as [e|]; [simpl; auto|].
  destruct query_limit as [l|]; [|simpl; auto].
  destruct Hoffset as [Hl Hoff].
  assert (Hlen : length rows
                 = Nat.min (Z.to_nat l) (length (db_rows db step) - offset)).
  { unfold execute in Hrows. rewrite db_never_fails in Hrows.
    rewrite Hstep, Hoff, Hlimit in Hrows. injection Hrows as <-.
    rewrite length_take, length_drop. reflexivity. }
  destruct (Z.ltb_spec (Z.of_nat (length rows)) l) as [Hshort|Hfull].
  - rewrite drop_ge by lia. simpl. auto.
  - apply IH; [exact Hfeed | exact Hsame' | |].
    + rewrite length_drop in *. lia.
    + intros Hnone. unfold _build_actual_query in Ebuild. rewrite Hnone in Ebuild.
      discriminate.
Qed.

Lemma fetch_rows_from_db_unpaged (steps : list Step) :
  forall st1 st2,
    counting (_opt_limit self) st1 ->
    same_progress st1 st2 ->
    (_fetch_rows_from_db db self steps st1).1
    = (for_row_in_iterator self (concat (map (db_rows db) steps)) st2).1
    /\ same_progress
         (_fetch_rows_from_db db self steps st1).2
         (for_row_in_iterator self (concat (map (db_rows db) steps)) st2).2.
Proof.
  induction steps as [|step steps IH]; intros st1 st2 Hinv Hsame; simpl; [auto|].
  rewrite for_row_in_iterator_app. unfold _fetch_rows_for_single_step.
  destruct (fetch_rows_for_single_step_loop_unpaged step (S (length (db_rows db step)))
              0%nat st1 st2 Hinv Hsame) as [Hres Hsame'].
  { rewrite length_drop. lia. }
  { reflexivity. }
  pose proof (fetch_rows_for_single_step_loop_counting db self step
                (S (length (db_rows db step))) 0%nat st1 Hinv) as Hcount.
  rewrite drop_0 in Hres, Hsame'.
  destruct (_fetch_rows_for_single_step_loop _ db self step 0 st1) as [o1 st1'].
  destruct (for_row_in_iterator self (db_rows db step) st2) as [o2 st2'].
  simpl in Hres, Hsame'. subst o2.
  destruct o1 as [e|]; [simpl; auto|].
  apply IH; [|exact Hsame']. apply Hcount. rewrite length_drop. lia.
Qed.

Lemma after_last_row_same_progress (stopped : option ending) (st1 st2 : RunState) :
  same_progress st1 st2 ->
  (after_last_row self stopped st1).1 = (after_last_row self stopped st2).1
  /\ same_progress (after_last_row self stopped st1).2 (after_last_row self stopped st2).2.
Proof.
  intros Hsame. pose proof Hsame as (Hp & Hq & Hc & Ht). unfold after_last_row.
  destruct stopped as [stop|]; simpl; [auto|].
  assert (Hlast :
    let last_group st :=
      match pending st with
      | [] => (None, st)
      | _ :: _ => for_same_time_rows self (pending st)
                    (mkRunState (produced st) [] (url_norm_cache st) (trace st))
      end in
    (last_group st1).1 = (last_group st2).1
    /\ same_progress (last_group st1).2 (last_group st2).2).
  { simpl. rewrite Hq. destruct (pending st2) as [|first rest]; [auto|].
    unfold for_same_time_rows. apply for_same_id_rows_same_progress.
    repeat split; assumption. }
  simpl in Hlast. destruct Hlast as [Hres Hsame'].
  destruct (match pending st1 with [] => _ | _ :: _ => _ end) as [o1 st1'].
  destruct (match pending st2 with [] => _ | _ :: _ => _ end) as [o2 st2'].
  simpl in Hres, Hsame'. subst o2.
  destruct o1 as [e|]; [simpl; auto|].
  destruct Hsame' as (Hp' & Hrest). rewrite Hp'.
  destruct (_opt_limit self) as [N|]; [|simpl; split; [reflexivity | split; assumption]].
  destruct (Z.of_nat (produced st2') <? N); simpl; (split; [reflexivity | split; assumption]).
Qed.
End Paging.

Lemma generate_query_results_unpaged `{N6Lib} (fuel : nat) (utcnow : DateTime)
    (db : EventDB) (self : _EventsQueryProcessor.t) :
  never_fails db ->
  counting (_EventsQueryProcessor._opt_limit self) initial_state ->
  (_EventsQueryProcessor.generate_query_results fuel utcnow db self).1
  = (unpaged_query_results fuel utcnow db self).1
  /\ same_progress (_EventsQueryProcessor.generate_query_results fuel utcnow db self).2
                   (unpaged_query_results fuel utcnow db self).2.
Proof.
  intros Hhealthy Hinit.
  unfold _EventsQueryProcessor.generate_query_results, unpaged_query_results.
  destruct (_EventsQueryProcessor._time_comparisons_per_step fuel utcnow self)
    as [steps stopped].
  destruct (fetch_rows_from_db_unpaged db self Hhealthy steps initial_state initial_state
              Hinit (same_progress_refl _)) as [Hres Hsame].
  destruct (_EventsQueryProcessor._fetch_rows_from_db db self steps initial_state)
    as [o1 st1].
  destruct (_EventsQueryProcessor.for_row_in_iterator self _ initial_state) as [o2 st2].
  simpl in Hres, Hsame. subst o2.
  destruct o1 as [e|]; [simpl; auto|].
  apply (after_last_row_same_progress self stopped st1 st2 Hsame).
Qed.


(** ** The queries of a run *)

Lemma queries_app (t1 t2 : list event) : queries (t1 ++ t2) = queries t1 ++ queries t2.
Proof. unfold queries. apply omap_app. Qed.

Lemma queries_logs (logged : list log_record) : queries (map EvLog logged) = [].
Proof. induction logged as [|l logged IH]; [reflexivity | exact IH]. Qed.

Lemma grows_quietly_refl (st : RunState) : grows_quietly st st.
Proof. exists []. split; [symmetry; apply app_nil_r | reflexivity]. Qed.

Lemma grows_quietly_same (st st' : RunState) :
  trace st' = trace st -> grows_quietly st st'.
Proof. intros Ht. exists []. rewrite Ht, app_nil_r. split; reflexivity. Qed.

Lemma grows_quietly_trans (st1 st2 st3 : RunState) :
  grows_quietly st1 st2 -> grows_quietly st2 st3 -> grows_quietly st1 st3.
Proof.
  intros (evs & Ht & Hq) (evs' & Ht' & Hq'). exists (evs ++ evs'). split.
  - rewrite Ht', Ht. symmetry. apply app_assoc.
  - rewrite queries_app, Hq, Hq'. reflexivity.
Qed.

Lemma grows_quietly_queries (st st' : RunState) :
  grows_quietly st st' -> queries (trace st') = queries (trace st).
Proof.
  intros (evs & -> & Hq). rewrite queries_app, Hq. apply app_nil_r.
Qed.

Section Quiet.
Context `{N6Lib}.
Import _EventsQueryProcessor.
Variable self : t.

Lemma produce_result_or_none_quiet (same_id_rows : list FetchedRow) (st : RunState) :
  grows_quietly st (produce_result_or_none self same_id_rows st).2.
Proof.
  unfold produce_result_or_none.
  destruct (_make_result_dict same_id_rows) as [rd|e]; [|apply grows_quietly_refl].
  destruct (_preprocess_result_dict self (url_norm_cache st) rd) as [[r cache'] logged].
  exists (map EvLog logged).
  destruct r as [[kept|]|e]; simpl; (split; [reflexivity | apply queries_logs]).
Qed.

Lemma for_same_id_rows_quiet (groups : list (list FetchedRow)) :
  forall st,
    grows_quietly st (for_same_id_rows self groups st).2
    /\ leaves_early (for_same_id_rows self groups st).1.
Proof.
  induction groups as [|g groups IH]; intros st; simpl.
  - split; [apply grows_quietly_refl | intros e; discriminate].
  - pose proof (produce_result_or_none_quiet g st) as Hprod.
    destruct (produce_result_or_none self g st) as [[r|e] st1]; simpl in Hprod.
    2:{ simpl. split; [exact Hprod|]. intros e' [= <-]. eauto. }
    set (st2 := match r with
                | Some result_dict =>
                    mkRunState (produced st1) (pending st1) (url_norm_cache st1)
                               (trace st1 ++ [EvYield result_dict])
                | None => st1
                end).
    assert (Hst2 : grows_quietly st st2).
    { apply (grows_quietly_trans _ st1); [exact Hprod|]. unfold st2.
      destruct r as [rd|]; [|apply grows_quietly_refl].
      exists [EvYield rd]. split; reflexivity. }
    destruct (enough_results_produced self st2).
    + destruct (bool_decide _); simpl; (split; [exact Hst2|]); intros e [= <-]; eauto.
    + destruct (IH st2) as [Hgrow Hend]. split; [|exact Hend].
      apply (grows_quietly_trans _ st2); assumption.
Qed.

Lemma on_row_quiet (row : FetchedRow) (st : RunState) :
  grows_quietly st (on_row self row st).2 /\ leaves_early (on_row self row st).1.
Proof.
  unfold on_row. destruct (pending st) as [|first rest].
  - split; [apply grows_quietly_same; reflexivity | intros e; discriminate].
  - destruct (bool_decide (row_time first = row_time row)).
    + split; [apply grows_quietly_same; reflexivity | intros e; discriminate].
    + unfold for_same_time_rows.
      destruct (for_same_id_rows_quiet (iter_grouped_by_id_presorted (first :: rest))
                  (mkRunState (produced st) [] (url_norm_cache st) (trace st)))
        as [Hgrow Hend].
      destruct (for_same_id_rows self _ _) as [[e|] st']; simpl in *.
      * split; [exact Hgrow | exact Hend].
      * split; [exact Hgrow | intros e; discriminate].
Qed.

Lemma for_row_in_iterator_quiet (rows : list FetchedRow) :
  forall st,
    grows_quietly st (for_row_in_iterator self rows st).2
    /\ leaves_early (for_row_in_iterator self rows st).1.
Proof.
  induction rows as [|row rows IH]; intros st; simpl.
  - split; [apply grows_quietly_refl | intros e; discriminate].
  - destruct (on_row_quiet row st) as [Hgrow Hend].
    destruct (on_row self row st) as [[e|] st']; simpl in *; [auto|].
    destruct (IH st') as [Hgrow' Hend']. split; [|exact Hend'].
    apply (grows_quietly_trans _ st'); assumption.
Qed.

Lemma after_last_row_quiet (stopped : option ending) (st : RunState) :
  grows_quietly st (after_last_row self stopped st).2.
Proof.
  unfold after_last_row. destruct stopped as [stop|]; simpl; [apply grows_quietly_refl|].
  assert (Hlast :
    grows_quietly st
      (match pending st with
       | [] => (None, st)
       | _ :: _ => for_same_time_rows self (pending st)
                     (mkRunState (produced st) [] (url_norm_cache st) (trace st))
       end).2).
  { destruct (pending st) as [|first rest]; [apply grows_quietly_refl|].
    unfold for_same_time_rows.
    apply (for_same_id_rows_quiet _
             (mkRunState (produced st) [] (url_norm_cache st) (trace st))). }
  destruct (match pending st with [] => _ | _ :: _ => _ end) as [[e|] st']; [exact Hlast|].
  simpl in Hlast. destruct (_opt_limit self) as [N|]; [|exact Hlast].
  destruct (Z.of_nat (produced st') <? N); exact Hlast.
Qed.

Lemma generate_query_results_after_last_row (fuel : nat) (utcnow : DateTime)
    (db : EventDB) :
  generate_query_results fuel utcnow db self
  = match _fetch_rows_from_db db self (_time_comparisons_per_step fuel utcnow self).1
            initial_state with
    | (Some e, st) => (e, st)
    | (None, st) =>
        after_last_row self (_time_comparisons_per_step fuel utcnow self).2 st
    end.
Proof.
  unfold generate_query_results.
  destruct (_time_comparisons_per_step fuel utcnow self) as [steps stopped].
  reflexivity.
Qed.
End Quiet.

Section Queries.
Context `{N6Lib}.
Import _EventsQueryProcessor.
Variables (db : EventDB) (self : t).

Lemma fetch_rows_for_single_step_unlimited (step : Step) (st : RunState) :
  _opt_limit self = None ->
  queries (trace (_fetch_rows_for_single_step db self step st).2)
  = queries (trace st) ++ [unlimited_query step]
  /\ ((_fetch_rows_for_single_step db self step st).1 <> Some Exhausted).
Proof.
  intros Hnone. unfold _fetch_rows_for_single_step. simpl.
  unfold _build_actual_query. rewrite Hnone.
  set (st_q := mkRunState (produced st) (pending st) (url_norm_cache st)
                          (trace st ++ [EvQuery (mkActualQuery step None None)])).
  destruct (_BaseQueryProcessor.handling_db_api_error _) as [[rows|e] logged].
  - destruct (for_row_in_iterator_quiet self rows (log_all logged st_q)) as [Hgrow Hend].
    assert (Hq : queries (trace (for_row_in_iterator self rows (log_all logged st_q)).2)
                 = queries (trace st) ++ [unlimited_query step]).
    { rewrite (grows_quietly_queries _ _ Hgrow). simpl.
      rewrite !queries_app, queries_logs, app_nil_r. reflexivity. }
    destruct (for_row_in_iterator self rows (log_all logged st_q)) as [[e|] st']; simpl in *.
    + split; [exact Hq|]. intros [= ->]. destruct (Hend Exhausted eq_refl) as [|[x ?]];
        discriminate.
    + split; [exact Hq | discriminate].
  - simpl. split; [|discriminate].
    rewrite !queries_app, queries_logs, app_nil_r. reflexivity.
Qed.

Lemma fetch_rows_from_db_unlimited (steps : list Step) :
  _opt_limit self = None ->
  forall st,
    (exists done todo,
        steps = done ++ todo
        /\ queries (trace (_fetch_rows_from_db db self steps st).2)
           = queries (trace st) ++ map unlimited_query done
        /\ ((_fetch_rows_from_db db self steps st).1 = None -> todo = []))
    /\ (_fetch_rows_from_db db self steps st).1 <> Some Exhausted.
Proof.
  intros Hnone. induction steps as [|step steps IH]; intros st; simpl.
  - split; [|discriminate]. exists [], []. simpl. rewrite app_nil_r. auto.
  - destruct (fetch_rows_for_single_step_unlimited step st Hnone) as [Hq Hend].
    destruct (_fetch_rows_for_single_step db self step st) as [[e|] st']; simpl in *.
    + split; [|exact Hend]. exists [step], steps. split; [reflexivity|].
      split; [exact Hq | discriminate].
    + destruct (IH st') as [(done & todo & -> & Hq' & Htodo) Hend']. split; [|exact Hend'].
      exists (step :: done), todo. split; [reflexivity|]. split; [|exact Htodo].
      rewrite Hq', Hq. simpl. rewrite <- app_assoc. reflexivity.
Qed.
End Queries.

(** X5 - Without [opt.limit] the events processor asks the database
    exactly one query per time window, without LIMIT and OFFSET, in the
    order of the windows: the queries of a run are those of the first
    windows yielded by [_time_comparisons_per_step], and those of all
    windows when the results are exhausted. *)
Theorem unlimited_run_asks_one_query_per_step `{N6Lib} (fuel : nat) (utcnow : DateTime)
    (db : EventDB) (self : _EventsQueryProcessor.t) :
  _EventsQueryProcessor._opt_limit self = None ->
  let run := _EventsQueryProcessor.generate_query_results fuel utcnow db self in
  let steps := (_EventsQueryProcessor._time_comparisons_per_step fuel utcnow self).1 in
  (exists done todo,
      steps = done ++ todo /\ queries (trace run.2) = map unlimited_query done)
  /\ (run.1 = Exhausted -> queries (trace run.2) = map unlimited_query steps).
Proof.
  intros Hnone run steps. unfold run.
  rewrite generate_query_results_after_last_row. fold steps.
  destruct (fetch_rows_from_db_unlimited db self steps Hnone initial_state)
    as [(done & todo & Hsteps & Hq & Htodo) Hend].
  destruct (_EventsQueryProcessor._fetch_rows_from_db db self steps initial_state)
    as [[e|] st]; simpl in *.
  - split; [exists done, todo; auto|]. intros ->. congruence.
  - pose proof (after_last_row_quiet self
                  (_EventsQueryProcessor._time_comparisons_per_step fuel utcnow self).2 st)
      as Hgrow.
    apply grows_quietly_queries in Hgrow. rewrite Hgrow, Hq.
    split; [exists done, todo; auto|]. intros _.
    rewrite Hsteps, (Htodo eq_refl), app_nil_r. reflexivity.
Qed.

Lemma all_answered_same_queries (db : EventDB) (t t' : list event) :
  queries t' = queries t -> all_answered db t -> all_answered db t'.
Proof. intros Hq Hall query Hin. apply Hall. rewrite <- Hq. exact Hin. Qed.

Lemma all_answered_query (db : EventDB) (t : list event) (query : ActualQuery) :
  db_fault db query = None -> all_answered db t -> all_answered db (t ++ [EvQuery query]).
Proof.
  intros Hok Hall q Hin. rewrite queries_app in Hin. simpl in Hin.
  apply elem_of_app in Hin as [Hin|Hin]; [apply Hall, Hin|].
  apply list_elem_of_singleton in Hin as ->. exact Hok.
Qed.

Section FailedQuery.
Context `{N6Lib}.
Import _EventsQueryProcessor.
Variables (db : EventDB) (self : t).

Lemma fetch_rows_for_single_step_loop_failure (step : Step) (fuel : nat) :
  forall offset st,
    all_answered db (trace st) ->
    all_answered db (trace (_fetch_rows_for_single_step_loop fuel db self step offset st).2)
    \/ exists e,
         (_fetch_rows_for_single_step_loop fuel db self step offset st).1 = Some e
         /\ ends_with_failed_query db e
              (trace (_fetch_rows_for_single_step_loop fuel db self step offset st).2).
Proof.
  induction fuel as [|fuel IH]; intros offset st Hall; simpl; [left; exact Hall|].
  destruct (_build_actual_query self step offset (produced st))
    as [[query query_limit]|e]; [|left; exact Hall].
  set (st_q := mkRunState (produced st) (pending st) (url_norm_cache st)
                          (trace st ++ [EvQuery query])).
  unfold execute. destruct (db_fault db query) as [err|] eqn:Efault.
  - right.
    destruct (_BaseQueryProcessor.handling_db_api_error (A := list FetchedRow) (Raise err))
      as [r logged] eqn:Ehandled.
    assert (Hraise : exists e', r = Raise e').
    { destruct (handling_db_api_error_cases (A := list FetchedRow) (Raise err))
        as [(a & Ha & _)|(e0 & e' & logged' & _ & Hh)]; [discriminate|].
      rewrite Ehandled in Hh. injection Hh as -> _. eauto. }
    destruct Hraise as [e' ->]. exists (Raised e'). split; [reflexivity|].
    exists (trace st), query, err, e'. rewrite Ehandled. simpl.
    repeat split; try assumption. symmetry. apply (app_assoc _ [_]).
  - simpl.
    assert (Hall_q : all_answered db (trace (log_all [] st_q))).
    { simpl. rewrite app_nil_r. apply all_answered_query; assumption. }
    set (rows := match aq_limit query with
                 | Some l => take (Z.to_nat l) _
                 | None => _
                 end).
    destruct (for_row_in_iterator_quiet self rows (log_all [] st_q)) as [Hgrow _].
    apply grows_quietly_queries in Hgrow.
    pose proof (all_answered_same_queries db _ _ Hgrow Hall_q) as Hall'.
    destruct (for_row_in_iterator self rows (log_all [] st_q)) as [[e|] st'];
      [left; exact Hall'|].
    destruct query_limit as [l|]; [|left; exact Hall'].
    destruct (Z.of_nat (length rows) <? l); [left; exact Hall'|].
    apply IH. exact Hall'.
Qed.

Lemma fetch_rows_from_db_failure (steps : list Step) :
  forall st,
    all_answered db (trace st) ->
    all_answered db (trace (_fetch_rows_from_db db self steps st).2)
    \/ exists e,
         (_fetch_rows_from_db db self steps st).1 = Some e
         /\ ends_with_failed_query db e (trace (_fetch_rows_from_db db self steps st).2).
Proof.
  induction steps as [|step steps IH]; intros st Hall; simpl; [left; exact Hall|].
  unfold _fetch_rows_for_single_step.
  destruct (fetch_rows_for_single_step_loop_failure step (S (length (db_rows db step)))
              0%nat st Hall) as [Hall'|(e & He & Hfailed)].
  - destruct (_fetch_rows_for_single_step_loop _ db self step 0 st) as [[e|] st'];
      [left; exact Hall'|].
    apply IH. exact Hall'.
  - destruct (_fetch_rows_for_single_step_loop _ db self step 0 st) as [o st'].
    simpl in He. subst o. right. exists e. split; [reflexivity | exact Hfailed].
Qed.
End FailedQuery.

(** X6 - A query whose execution fails is the last thing a run does.
    This is about a failure raised when the query is executed, before
    its first row is fetched (the failures [db_fault] stands for); an
    error arriving while the rows of a cursor are being fetched is not
    covered.  Either every query of the run has been answered, or the
    trace ends with the one query whose execution failed, followed only
    by what [handling_db_api_error] logs for it: no further query is
    made and no result is yielded after it, and the run ends with the
    exception [handling_db_api_error] raises ([EventDatabaseError] for a
    [DBAPIError], the exception itself otherwise). *)
Theorem failed_query_ends_the_run `{N6Lib} (fuel : nat) (utcnow : DateTime)
    (db : EventDB) (self : _EventsQueryProcessor.t) :
  let run := _EventsQueryProcessor.generate_query_results fuel utcnow db self in
  all_answered db (trace run.2) \/ ends_with_failed_query db run.1 (trace run.2).
Proof.
  intros run. unfold run. rewrite generate_query_results_after_last_row.
  destruct (fetch_rows_from_db_failure db self
              (_EventsQueryProcessor._time_comparisons_per_step fuel utcnow self).1
              initial_state) as [Hall|(e & He & Hfailed)].
  { intros query Hin. simpl in Hin. inversion Hin. }
  - destruct (_EventsQueryProcessor._fetch_rows_from_db db self _ initial_state)
      as [[e|] st]; [left; exact Hall|].
    left. eapply all_answered_same_queries; [|exact Hall].
    apply grows_quietly_queries, after_last_row_quiet.
  - destruct (_EventsQueryProcessor._fetch_rows_from_db db self _ initial_state)
      as [o st].
    simpl in He. subst o. right. exact Hfailed.
Qed.

(** ** The LIMIT of the queries under a cap *)

Lemma limits_follow_results_app (opt_limit : Z) (t1 t2 : list event) :
  forall seen,
    limits_follow_results opt_limit seen (t1 ++ t2)
    <-> limits_follow_results opt_limit seen t1
        /\ limits_follow_results opt_limit (seen + length (yielded t1)) t2.
Proof.
  induction t1 as [|ev t1 IH]; intros seen; simpl.
  - rewrite Nat.add_0_r. tauto.
  - destruct ev; simpl.
    + rewrite IH. unfold yielded. simpl. tauto.
    + rewrite IH. unfold yielded. simpl. fold (yielded t1).
      replace (seen + S (length (yielded t1)))%nat with (S (seen + length (yielded t1)))
        by lia.
      tauto.
    + rewrite IH. unfold yielded. simpl. tauto.
Qed.

Lemma limits_follow_results_quiet (opt_limit : Z) (evs : list event) :
  queries evs = [] -> forall seen, limits_follow_results opt_limit seen evs.
Proof.
  induction evs as [|ev evs IH]; intros Hq seen; simpl; [exact I|].
  destruct ev; simpl in *; [discriminate | apply IH, Hq | apply IH, Hq].
Qed.

Lemma limits_follow_results_grows (opt_limit : Z) (st st' : RunState) :
  grows_quietly st st' ->
  limits_follow_results opt_limit 0 (trace st) ->
  limits_follow_results opt_limit 0 (trace st').
Proof.
  intros (evs & -> & Hq) Hlimits. apply limits_follow_results_app.
  split; [exact Hlimits | apply limits_follow_results_quiet, Hq].
Qed.

Section Tally.
Context `{N6Lib}.
Import _EventsQueryProcessor.
Variable self : t.

Lemma for_same_id_rows_tallied (groups : list (list FetchedRow)) :
  forall st, tallied st -> tallied (for_same_id_rows self groups st).2.
Proof.
  induction groups as [|g groups IH]; intros st Htally; simpl; [exact Htally|].
  destruct (produce_result_or_none self g st) as [r st1] eqn:Eprod.
  destruct (produce_result_or_none_counting self g st r st1 Eprod) as (Hy & _ & Hn).
  unfold tallied in *.
  destruct r as [[rd|]|e]; simpl; [| |congruence].
  - set (st2 := mkRunState (produced st1) (pending st1) (url_norm_cache st1)
                           (trace st1 ++ [EvYield rd])).
    assert (Hst2 : tallied st2).
    { unfold tallied, st2. simpl. rewrite yielded_app, length_app, Hy. simpl. lia. }
    destruct (enough_results_produced self st2); [|apply IH, Hst2].
    destruct (bool_decide _); exact Hst2.
  - assert (Hst1 : tallied st1) by (unfold tallied; congruence).
    destruct (enough_results_produced self st1); [|apply IH, Hst1].
    destruct (bool_decide _); exact Hst1.
Qed.

Lemma on_row_tallied (row : FetchedRow) (st : RunState) :
  tallied st -> tallied (on_row self row st).2.
Proof.
  intros Htally. unfold on_row. destruct (pending st) as [|first rest]; [exact Htally|].
  destruct (bool_decide (row_time first = row_time row)); [exact Htally|].
  unfold for_same_time_rows.
  pose proof (for_same_id_rows_tallied (iter_grouped_by_id_presorted (first :: rest))
                (mkRunState (produced st) [] (url_norm_cache st) (trace st)) Htally)
    as Hloop.
  destruct (for_same_id_rows self _ _) as [[e|] st']; exact Hloop.
Qed.

Lemma for_row_in_iterator_tallied (rows : list FetchedRow) :
  forall st, tallied st -> tallied (for_row_in_iterator self rows st).2.
Proof.
  induction rows as [|row rows IH]; intros st Htally; simpl; [exact Htally|].
  pose proof (on_row_tallied row st Htally) as Hrow.
  destruct (on_row self row st) as [[e|] st']; [exact Hrow|].
  apply IH. exact Hrow.
Qed.
End Tally.

Section Limits.
Context `{N6Lib}.
Import _EventsQueryProcessor.
Variables (db : EventDB) (self : t) (opt_limit : Z).
Hypothesis capped : _opt_limit self = Some opt_limit.

Lemma fetch_rows_for_single_step_loop_limits (step : Step) (fuel : nat) :
  forall offset st,
    tallied st ->
    limits_follow_results opt_limit 0 (trace st) ->
    tallied (_fetch_rows_for_single_step_loop fuel db self step offset st).2
    /\ limits_follow_results opt_limit 0
         (trace (_fetch_rows_for_single_step_loop fuel db self step offset st).2).
Proof.
  induction fuel as [|fuel IH]; intros offset st Htally Hlimits; simpl; [auto|].
  unfold _build_actual_query. rewrite capped.
  destruct (Z.ltb_spec 0 (opt_limit - Z.of_nat (produced st))) as [Hstill|Hreached];
    [|auto].
  set (query := mkActualQuery step _ (Some offset)).
  set (st_q := mkRunState (produced st) (pending st) (url_norm_cache st)
                          (trace st ++ [EvQuery query])).
  assert (Hlimits_q : limits_follow_results opt_limit 0 (trace st_q)).
  { simpl. apply limits_follow_results_app. split; [exact Hlimits|]. simpl.
    rewrite <- Htally. split; [|exact I]. split; [lia|]. split; [reflexivity | eauto]. }
  destruct (_BaseQueryProcessor.handling_db_api_error (execute db query))
    as [[rows|e] logged].
  2:{ simpl. split.
      - unfold tallied in *. simpl. rewrite yielded_app_logs, yielded_app. simpl.
        rewrite app_nil_r. exact Htally.
      - apply limits_follow_results_app. split; [exact Hlimits_q|].
        apply limits_follow_results_quiet, queries_logs. }
  assert (Htally_l : tallied (log_all logged st_q)).
  { unfold tallied in *. simpl. rewrite yielded_app_logs, yielded_app. simpl.
    rewrite app_nil_r. exact Htally. }
  assert (Hlimits_l : limits_follow_results opt_limit 0 (trace (log_all logged st_q))).
  { simpl. apply limits_follow_results_app. split; [exact Hlimits_q|].
    apply limits_follow_results_quiet, queries_logs. }
  pose proof (for_row_in_iterator_tallied self rows _ Htally_l) as Htally'.
  destruct (for_row_in_iterator_quiet self rows (log_all logged st_q)) as [Hgrow _].
  pose proof (limits_follow_results_grows opt_limit _ _ Hgrow Hlimits_l) as Hlimits'.
  destruct (for_row_in_iterator self rows (log_all logged st_q)) as [[e|] st']; [auto|].
  simpl in Htally', Hlimits'.
  destruct (Z.of_nat (length rows) <? _); [auto|].
  apply IH; assumption.
Qed.

Lemma fetch_rows_from_db_limits (steps : list Step) :
  forall st,
    tallied st ->
    limits_follow_results opt_limit 0 (trace st) ->
    limits_follow_results opt_limit 0 (trace (_fetch_rows_from_db db self steps st).2).
Proof.
  induction steps as [|step steps IH]; intros st Htally Hlimits; simpl; [exact Hlimits|].
  unfold _fetch_rows_for_single_step.
  destruct (fetch_rows_for_single_step_loop_limits step (S (length (db_rows db step)))
              0%nat st Htally Hlimits) as [Htally' Hlimits'].
  destruct (_fetch_rows_for_single_step_loop _ db self step 0 st) as [[e|] st'];
    [exact Hlimits'|].
  apply IH; assumption.
Qed.
End Limits.

(** X7 - Under a cap of [opt_limit] results, every query of a run is
    made while fewer than [opt_limit] results have been yielded, and
    asks for as many rows as are still expected plus a reserve of a
    quarter of them, at least 100 ([YIELD_PER]): with [n] results
    yielded before the query its LIMIT is
    [(opt_limit - n) + max 100 ((opt_limit - n) / 4)], and it carries an
    OFFSET. *)
Theorem capped_run_query_limits `{N6Lib} (fuel : nat) (utcnow : DateTime) (db : EventDB)
    (self : _EventsQueryProcessor.t) (opt_limit : Z) :
  _EventsQueryProcessor._opt_limit self = Some opt_limit ->
  let run := _EventsQueryProcessor.generate_query_results fuel utcnow db self in
  forall earlier query later,
    trace run.2 = earlier ++ EvQuery query :: later ->
    let n := length (yielded earlier) in
    Z.of_nat n < opt_limit
    /\ aq_limit query
       = Some ((opt_limit - Z.of_nat n) + Z.max 100 ((opt_limit - Z.of_nat n) / 4))
    /\ is_Some (aq_offset query).
Proof.
  intros Hcapped run earlier query later Htrace n.
  assert (Hlimits : limits_follow_results opt_limit 0 (trace run.2)).
  { unfold run. rewrite generate_query_results_after_last_row.
    pose proof (fetch_rows_from_db_limits db self opt_limit Hcapped
                  (_EventsQueryProcessor._time_comparisons_per_step fuel utcnow self).1
                  initial_state eq_refl I) as Hfetch.
    destruct (_EventsQueryProcessor._fetch_rows_from_db db self _ initial_state)
      as [[e|] st]; [exact Hfetch|].
    eapply limits_follow_results_grows; [|exact Hfetch].
    apply after_last_row_quiet. }
  rewrite Htrace in Hlimits. apply limits_follow_results_app in Hlimits as [_ Hquery].
  simpl in Hquery. destruct Hquery as [Hquery _]. exact Hquery.
Qed.

(** ** The cap only cuts the results short *)

Lemma grows_quietly_prefix (st st' : RunState) :
  grows_quietly st st' -> trace st `prefix_of` trace st'.
Proof. intros (evs & Ht & _). exists evs. exact Ht. Qed.

Lemma yielded_prefix (t t' : list event) :
  t `prefix_of` t' -> yielded t `prefix_of` yielded t'.
Proof. intros [evs ->]. exists (yielded evs). apply yielded_app. Qed.

Section Cut.
Context `{N6Lib}.
Import _EventsQueryProcessor.
Variable self : t.

Lemma produce_result_or_none_without_limit (same_id_rows : list FetchedRow)
    (st : RunState) :
  produce_result_or_none (without_limit self) same_id_rows st
  = produce_result_or_none self same_id_rows st.
Proof. destruct self. reflexivity. Qed.

Lemma time_comparisons_per_step_without_limit (fuel : nat) (utcnow : DateTime) :
  _time_comparisons_per_step fuel utcnow (without_limit self)
  = _time_comparisons_per_step fuel utcnow self.
Proof. destruct self. reflexivity. Qed.

Lemma for_same_id_rows_cut_short (groups : list (list FetchedRow)) :
  forall st,
    cut_short (for_same_id_rows self groups st)
              (for_same_id_rows (without_limit self) groups st).
Proof.
  induction groups as [|g groups IH]; intros st; simpl; [left; reflexivity|].
  rewrite produce_result_or_none_without_limit.
  destruct (produce_result_or_none self g st) as [[r|e] st1]; [|left; reflexivity].
  set (st2 := match r with
              | Some result_dict =>
                  mkRunState (produced st1) (pending st1) (url_norm_cache st1)
                             (trace st1 ++ [EvYield result_dict])
              | None => st1
              end).
  change (enough_results_produced (without_limit self) st2) with false.
  destruct (enough_results_produced self st2); [|apply IH].
  right.
  pose proof (grows_quietly_prefix _ _
                (proj1 (for_same_id_rows_quiet (without_limit self) groups st2)))
    as Hprefix.
  destruct (bool_decide _); simpl; (split; [eauto | exact Hprefix]).
Qed.

Lemma on_row_cut_short (row : FetchedRow) (st : RunState) :
  cut_short (on_row self row st) (on_row (without_limit self) row st).
Proof.
  unfold on_row. destruct (pending st) as [|first rest]; [left; reflexivity|].
  destruct (bool_decide (row_time first = row_time row)); [left; reflexivity|].
  unfold for_same_time_rows.
  destruct (for_same_id_rows_cut_short (iter_grouped_by_id_presorted (first :: rest))
              (mkRunState (produced st) [] (url_norm_cache st) (trace st)))
    as [<-|[Hleft Hprefix]]; [left; reflexivity|].
  destruct (for_same_id_rows self _ _) as [[e|] sc]; [|destruct Hleft; discriminate].
  destruct (for_same_id_rows (without_limit self) _ _) as [[e'|] su];
    right; (split; [eauto | exact Hprefix]).
Qed.

Lemma for_row_in_iterator_cut_short (rows : list FetchedRow) :
  forall st,
    cut_short (for_row_in_iterator self rows st)
              (for_row_in_iterator (without_limit self) rows st).
Proof.
  induction rows as [|row rows IH]; intros st; simpl; [left; reflexivity|].
  destruct (on_row_cut_short row st) as [<-|[Hleft Hprefix]].
  - destruct (on_row self row st) as [[e|] st']; [left; reflexivity | apply IH].
  - destruct (on_row self row st) as [[e|] sc]; [|destruct Hleft; discriminate].
    destruct (on_row (without_limit self) row st) as [[e'|] su].
    + right. split; [eauto | exact Hprefix].
    + right. split; [eauto|]. simpl in *. etransitivity; [exact Hprefix|].
      apply grows_quietly_prefix, for_row_in_iterator_quiet.
Qed.

Lemma after_last_row_cut_short (stopped : option ending) (st : RunState) :
  trace (after_last_row self stopped st).2
    `prefix_of` trace (after_last_row (without_limit self) stopped st).2
  /\ ((after_last_row self stopped st).1 = Exhausted ->
      after_last_row (without_limit self) stopped st
      = (Exhausted, (after_last_row self stopped st).2)).
Proof.
  unfold after_last_row. destruct stopped as [stop|]; simpl;
    [split; [reflexivity | intros ->; reflexivity]|].
  assert (Hlast :
    cut_short
      (match pending st with
       | [] => (None, st)
       | _ :: _ => for_same_time_rows self (pending st)
                     (mkRunState (produced st) [] (url_norm_cache st) (trace st))
       end)
      (match pending st with
       | [] => (None, st)
       | _ :: _ => for_same_time_rows (without_limit self) (pending st)
                     (mkRunState (produced st) [] (url_norm_cache st) (trace st))
       end)).
  { destruct (pending st) as [|first rest]; [left; reflexivity|].
    apply for_same_id_rows_cut_short. }
  assert (Hearly :
    leaves_early
      (match pending st with
       | [] => (None, st)
       | _ :: _ => for_same_time_rows self (pending st)
                     (mkRunState (produced st) [] (url_norm_cache st) (trace st))
       end).1).
  { destruct (pending st) as [|first rest]; [intros e; discriminate|].
    apply for_same_id_rows_quiet. }
  destruct Hlast as [<-|[Hleft Hprefix]].
  - destruct (match pending st with [] => _ | _ :: _ => _ end) as [[e|] st'].
    + split; [reflexivity|]. simpl. intros ->. reflexivity.
    + change (_opt_limit (without_limit self)) with (@None Z).
      destruct (_opt_limit self) as [N|]; [|split; [reflexivity | reflexivity]].
      destruct (Z.of_nat (produced st') <? N); simpl;
        (split; [reflexivity|]); [reflexivity | discriminate].
  - destruct (match pending st with [] => _ | _ :: _ => _ end) as [[e|] sc];
      [|destruct Hleft; discriminate].
    simpl in Hprefix.
    assert (Hne : e <> Exhausted).
    { intros ->. destruct (Hearly Exhausted eq_refl) as [|[x ?]]; discriminate. }
    destruct (match pending st with [] => _ | _ :: _ => _ end) as [[e'|] su];
      simpl in *.
    + split; [exact Hprefix | intros ->; congruence].
    + split; [exact Hprefix | intros ->; congruence].
Qed.

Lemma unpaged_query_results_cut_short (fuel : nat) (utcnow : DateTime) (db : EventDB) :
  trace (unpaged_query_results fuel utcnow db self).2
    `prefix_of` trace (unpaged_query_results fuel utcnow db (without_limit self)).2
  /\ ((unpaged_query_results fuel utcnow db self).1 = Exhausted ->
      unpaged_query_results fuel utcnow db (without_limit self)
      = (Exhausted, (unpaged_query_results fuel utcnow db self).2)).
Proof.
  unfold unpaged_query_results. rewrite time_comparisons_per_step_without_limit.
  destruct (_time_comparisons_per_step fuel utcnow self) as [steps stopped].
  pose proof (proj2 (for_row_in_iterator_quiet self (concat (map (db_rows db) steps))
                       initial_state)) as Hearly.
  destruct (for_row_in_iterator_cut_short (concat (map (db_rows db) steps)) initial_state)
    as [<-|[Hleft Hprefix]].
  - destruct (for_row_in_iterator self _ initial_state) as [[e|] st].
    + split; [reflexivity|]. simpl. intros ->. reflexivity.
    + apply after_last_row_cut_short.
  - destruct (for_row_in_iterator self _ initial_state) as [[e|] sc];
      [|destruct Hleft; discriminate].
    assert (Hne : e <> Exhausted).
    { intros ->. destruct (Hearly Exhausted eq_refl) as [|[x ?]]; discriminate. }
    destruct (for_row_in_iterator (without_limit self) _ initial_state) as [[e'|] su];
      simpl in *.
    + split; [exact Hprefix | intros ->; congruence].
    + split; [|intros ->; congruence].
      etransitivity; [exact Hprefix|].
      apply grows_quietly_prefix, after_last_row_quiet.
Qed.
End Cut.


(** ** Where the results come from *)

Lemma execute_rows (db : EventDB) (query : ActualQuery) (rows : list FetchedRow) :
  execute db query = Return rows ->
  forall r, r ∈ rows -> r ∈ db_rows db (aq_step query).
Proof.
  unfold execute. destruct (db_fault db query); [discriminate|]. intros [= <-] r Hr.
  assert (Hdrop : r ∈ match aq_offset query with
                      | Some o => drop o (db_rows db (aq_step query))
                      | None => db_rows db (aq_step query)
                      end).
  { destruct (aq_limit query); [eapply subseteq_take; exact Hr | exact Hr]. }
  destruct (aq_offset query); [eapply subseteq_drop; exact Hdrop | exact Hdrop].
Qed.

Lemma iter_grouped_by_id_presorted_groups (same_time_rows : list FetchedRow) :
  forall g, g ∈ iter_grouped_by_id_presorted same_time_rows ->
    (forall r, r ∈ g -> r ∈ same_time_rows)
    /\ (forall r r', r ∈ g -> r' ∈ g -> row_id r = row_id r').
Proof.
  intros g Hg. unfold iter_grouped_by_id_presorted in Hg. split.
  - intros r Hr. rewrite <- (sorted_by_id_perm same_time_rows).
    rewrite <- (groupby_concat row_id (sorted_by_id same_time_rows)).
    apply list_elem_of_In, in_concat. exists g.
    split; apply list_elem_of_In; assumption.
  - pose proof (groupby_uniform row_id (sorted_by_id same_time_rows)) as Huni.
    rewrite Forall_forall in Huni. exact (Huni g Hg).
Qed.

Section Sourced.
Context `{N6Lib}.
Import _EventsQueryProcessor.
Variables (self : t) (from_db : FetchedRow -> Prop).

Lemma produce_result_or_none_backed (same_id_rows : list FetchedRow) (st st1 : RunState)
    (rd : ResultDict) :
  (forall r, r ∈ same_id_rows -> from_db r) ->
  (forall r r', r ∈ same_id_rows -> r' ∈ same_id_rows ->
                row_id r = row_id r' /\ row_time r = row_time r') ->
  produce_result_or_none self same_id_rows st = (Return (Some rd), st1) ->
  backed_by from_db rd.
Proof.
  intros Hfrom Hsame. unfold produce_result_or_none.
  destruct same_id_rows as [|sample others]; [discriminate|].
  destruct (make_result_dict_clients sample others) as (ids & -> & Hids).
  destruct (_preprocess_result_dict self (url_norm_cache st) _)
    as [[r cache'] logged] eqn:Epre.
  destruct r as [[kept|]|e]; intros [= <- <-].
  apply preprocess_result_dict_keeps_time in Epre as (Htime & Hid & Hclient).
  simpl in Htime, Hid, Hclient.
  assert (Hsample : sample ∈ sample :: others) by left.
  split.
  - exists sample. split; [apply Hfrom, Hsample | split; assumption].
  - intros org Horg. rewrite Hclient in Horg. apply Hids in Horg as (r & Hr & Hc).
    exists r. split; [apply Hfrom, Hr|]. split; [|exact Hc].
    destruct (Hsame r sample Hr Hsample) as [Hi Ht]. split; congruence.
Qed.

Lemma for_same_id_rows_backed (groups : list (list FetchedRow)) :
  (forall g r, g ∈ groups -> r ∈ g -> from_db r) ->
  (forall g r r', g ∈ groups -> r ∈ g -> r' ∈ g ->
                  row_id r = row_id r' /\ row_time r = row_time r') ->
  forall st,
    Forall (backed_by from_db) (yielded (trace st)) ->
    Forall (backed_by from_db) (yielded (trace (for_same_id_rows self groups st).2)).
Proof.
  induction groups as [|g groups IH]; intros Hfrom Hsame st Hback; simpl; [exact Hback|].
  assert (Hfrom' : forall g' r, g' ∈ groups -> r ∈ g' -> from_db r)
    by (intros g' r Hg'; apply Hfrom; right; exact Hg').
  assert (Hsame' : forall g' r r', g' ∈ groups -> r ∈ g' -> r' ∈ g' ->
                                   row_id r = row_id r' /\ row_time r = row_time r')
    by (intros g' r r' Hg'; apply Hsame; right; exact Hg').
  destruct (produce_result_or_none self g st) as [r st1] eqn:Eprod.
  destruct (produce_result_or_none_counting self g st r st1 Eprod) as (Hy & _ & _).
  destruct r as [[rd|]|e]; simpl; [| |rewrite Hy; exact Hback].
  - set (st2 := mkRunState (produced st1) (pending st1) (url_norm_cache st1)
                           (trace st1 ++ [EvYield rd])).
    assert (Hback2 : Forall (backed_by from_db) (yielded (trace st2))).
    { unfold st2. simpl. rewrite yielded_app, Hy. apply Forall_app. split; [exact Hback|].
      apply Forall_cons. split; [|apply Forall_nil; exact I].
      apply (produce_result_or_none_backed g st st1 rd); [| |exact Eprod].
      - intros r0. apply Hfrom. left.
      - intros r0 r'. apply Hsame. left. }
    destruct (enough_results_produced self st2); [|apply IH; assumption].
    destruct (bool_decide _); exact Hback2.
  - assert (Hback1 : Forall (backed_by from_db) (yielded (trace st1)))
      by (rewrite Hy; exact Hback).
    destruct (enough_results_produced self st1); [|apply IH; assumption].
    destruct (bool_decide _); exact Hback1.
Qed.

Lemma for_same_time_rows_backed (st : RunState) :
  sourced from_db st ->
  Forall (backed_by from_db)
    (yielded (trace (for_same_time_rows self (pending st)
                       (mkRunState (produced st) [] (url_norm_cache st) (trace st))).2)).
Proof.
  intros (Hfrom & Htime & Hback). unfold for_same_time_rows.
  apply for_same_id_rows_backed; [| |exact Hback].
  - intros g r Hg Hr. apply Hfrom.
    apply (proj1 (iter_grouped_by_id_presorted_groups _ g Hg)). exact Hr.
  - intros g r r' Hg Hr Hr'.
    destruct (iter_grouped_by_id_presorted_groups _ g Hg) as [Hin Hid].
    split; [apply Hid; assumption | apply Htime; apply Hin; assumption].
Qed.

Lemma on_row_sourced (row : FetchedRow) (st : RunState) :
  from_db row ->
  sourced from_db st ->
  match on_row self row st with
  | (None, st') => sourced from_db st'
  | (Some e, st') => Forall (backed_by from_db) (yielded (trace st'))
  end.
Proof.
  intros Hrow Hinv. pose proof (for_same_time_rows_backed st Hinv) as Hflush.
  destruct Hinv as (Hfrom & Htime & Hback).
  unfold on_row. destruct (pending st) as [|first rest] eqn:Epending.
  - split; [|split; [|exact Hback]]; simpl.
    + intros r Hr. apply list_elem_of_singleton in Hr as ->. exact Hrow.
    + intros r r' Hr Hr'. apply list_elem_of_singleton in Hr as ->.
      apply list_elem_of_singleton in Hr' as ->. reflexivity.
  - destruct (bool_decide_reflect (row_time first = row_time row)) as [Heq|Hne].
    + split; [|split; [|exact Hback]]; simpl.
      * intros r Hr. change (r ∈ (first :: rest) ++ [row]) in Hr.
        apply elem_of_app in Hr as [Hr|Hr]; [apply Hfrom, Hr|].
        apply list_elem_of_singleton in Hr as ->. exact Hrow.
      * assert (Hfirst : forall r, r ∈ (first :: rest) ++ [row] ->
                                   row_time r = row_time first).
        { intros r Hr. apply elem_of_app in Hr as [Hr|Hr].
          - apply Htime; [exact Hr | left].
          - apply list_elem_of_singleton in Hr as ->. symmetry. exact Heq. }
        intros r r' Hr Hr'. rewrite (Hfirst r Hr), (Hfirst r' Hr'). reflexivity.
    + destruct (for_same_time_rows self (first :: rest) _) as [[e|] st'];
        [exact Hflush|].
      split; [|split; [|exact Hflush]]; simpl.
      * intros r Hr. apply list_elem_of_singleton in Hr as ->. exact Hrow.
      * intros r r' Hr Hr'. apply list_elem_of_singleton in Hr as ->.
        apply list_elem_of_singleton in Hr' as ->. reflexivity.
Qed.

Lemma for_row_in_iterator_sourced (rows : list FetchedRow) :
  (forall r, r ∈ rows -> from_db r) ->
  forall st,
    sourced from_db st ->
    match for_row_in_iterator self rows st with
    | (None, st') => sourced from_db st'
    | (Some e, st') => Forall (backed_by from_db) (yielded (trace st'))
    end.
Proof.
  induction rows as [|row rows IH]; intros Hrows st Hinv; simpl; [exact Hinv|].
  pose proof (on_row_sourced row st (Hrows row ltac:(left)) Hinv) as Hrow.
  destruct (on_row self row st) as [[e|] st']; [exact Hrow|].
  apply IH; [|exact Hrow]. intros r Hr. apply Hrows. right. exact Hr.
Qed.

Lemma sourced_after_events (st : RunState) (evs : list event) :
  yielded evs = [] ->
  sourced from_db st ->
  sourced from_db
    (mkRunState (produced st) (pending st) (url_norm_cache st) (trace st ++ evs)).
Proof.
  intros Hevs (Hfrom & Htime & Hback). split; [exact Hfrom|]. split; [exact Htime|].
  simpl. rewrite yielded_app, Hevs, app_nil_r. exact Hback.
Qed.

Lemma fetch_rows_for_single_step_loop_sourced (db : EventDB) (step : Step) (fuel : nat) :
  (forall r, r ∈ db_rows db step -> from_db r) ->
  forall offset st,
    sourced from_db st ->
    match _fetch_rows_for_single_step_loop fuel db self step offset st with
    | (None, st') => sourced from_db st'
    | (Some e, st') => Forall (backed_by from_db) (yielded (trace st'))
    end.
Proof.
  intros Hstep. induction fuel as [|fuel IH]; intros offset st Hinv; simpl;
    [apply Hinv|].
  destruct (_build_actual_query self step offset (produced st))
    as [[query query_limit]|e] eqn:Ebuild; [|apply Hinv].
  destruct (build_actual_query_limit self _ _ _ _ _ Ebuild) as (Hquery & _ & _).
  set (st_q := mkRunState (produced st) (pending st) (url_norm_cache st)
                          (trace st ++ [EvQuery query])).
  assert (Hinv_q : sourced from_db st_q)
    by (apply sourced_after_events; [reflexivity | exact Hinv]).
  destruct (handling_db_api_error_cases (execute db query))
    as [(rows & Hrows & ->)|(e & e' & logged & _ & ->)].
  2:{ apply (sourced_after_events st_q (map EvLog logged));
        [apply yielded_logs | exact Hinv_q]. }
  assert (Hinv_l : sourced from_db (log_all [] st_q))
    by (apply (sourced_after_events st_q (map EvLog [])); [reflexivity | exact Hinv_q]).
  assert (Hfrom : forall r, r ∈ rows -> from_db r).
  { intros r Hr. apply Hstep. rewrite <- Hquery. eapply execute_rows; eassumption. }
  pose proof (for_row_in_iterator_sourced rows Hfrom _ Hinv_l) as Hfeed.
  destruct (for_row_in_iterator self rows (log_all [] st_q)) as [[e|] st'];
    [exact Hfeed|].
  destruct query_limit as [l|]; [|exact Hfeed].
  destruct (Z.of_nat (length rows) <? l); [exact Hfeed|].
  apply IH. exact Hfeed.
Qed.

Lemma fetch_rows_from_db_sourced (db : EventDB) (steps : list Step) :
  (forall step r, step ∈ steps -> r ∈ db_rows db step -> from_db r) ->
  forall st,
    sourced from_db st ->
    match _fetch_rows_from_db db self steps st with
    | (None, st') => sourced from_db st'
    | (Some e, st') => Forall (backed_by from_db) (yielded (trace st'))
    end.
Proof.
  induction steps as [|step steps IH]; intros Hsteps st Hinv; simpl; [exact Hinv|].
  pose proof (fetch_rows_for_single_step_loop_sourced db step
                (S (length (db_rows db step))) (fun r => Hsteps step r ltac:(left))
                0%nat st Hinv) as Hstep.
  unfold _fetch_rows_for_single_step.
  destruct (_fetch_rows_for_single_step_loop _ db self step 0 st) as [[e|] st'];
    [exact Hstep|].
  apply IH; [|exact Hstep]. intros step' r Hin. apply Hsteps. right. exact Hin.
Qed.

Lemma after_last_row_backed (stopped : option ending) (st : RunState) :
  sourced from_db st ->
  Forall (backed_by from_db) (yielded (trace (after_last_row self stopped st).2)).
Proof.
  intros Hinv. pose proof (for_same_time_rows_backed st Hinv) as Hflush.
  unfold after_last_row. destruct stopped as [stop|]; simpl; [apply Hinv|].
  assert (Hlast :
    Forall (backed_by from_db)
      (yielded (trace (match pending st with
                       | [] => (None, st)
                       | _ :: _ => for_same_time_rows self (pending st)
                                     (mkRunState (produced st) [] (url_norm_cache st)
                                                 (trace st))
                       end).2))).
  { destruct (pending st) as [|first rest]; [apply Hinv | exact Hflush]. }
  destruct (match pending st with [] => _ | _ :: _ => _ end) as [[e|] st'];
    [exact Hlast|].
  simpl in Hlast. destruct (_opt_limit self) as [N|]; [|exact Hlast].
  destruct (Z.of_nat (produced st') <? N); exact Hlast.
Qed.
End Sourced.

(** X9 - Nothing is made up.  Every result dict a run yields is about an
    event of which the database holds a row for one of the queried time
    windows (same [id], same [time]), and each organization in its
    [client] set is the [client] of such a row of that very event:
    whatever the database answers and wherever the run ends, no result
    gets a client from the rows of another event. *)
Theorem results_come_from_fetched_rows `{N6Lib} (fuel : nat) (utcnow : DateTime)
    (db : EventDB) (self : _EventsQueryProcessor.t) :
  let run := _EventsQueryProcessor.generate_query_results fuel utcnow db self in
  let steps := (_EventsQueryProcessor._time_comparisons_per_step fuel utcnow self).1 in
  Forall (backed_by (fetched_from db steps)) (yielded (trace run.2)).
Proof.
  intros run steps. unfold run. rewrite generate_query_results_after_last_row.
  fold steps.
  assert (Hinit : sourced (fetched_from db steps) initial_state).
  { split; [|split; [|constructor]]; simpl.
    - intros r Hr. inversion Hr.
    - intros r r' Hr. inversion Hr. }
  pose proof (fetch_rows_from_db_sourced self (fetched_from db steps) db steps
                (fun step r Hstep Hr => ex_intro _ step (conj Hstep Hr))
                initial_state Hinit) as Hfetch.
  destruct (_EventsQueryProcessor._fetch_rows_from_db db self steps initial_state)
    as [[e|] st]; [exact Hfetch|].
  apply after_last_row_backed. exact Hfetch.
Qed.

(** ** No event is lost *)

Lemma represented_prefix (row : FetchedRow) (results results' : list ResultDict) :
  results `prefix_of` results' -> represented row results -> represented row results'.
Proof.
  intros [more ->] (rd & Hin & Hrd). exists rd. split; [|exact Hrd].
  apply elem_of_app. left. exact Hin.
Qed.

Lemma represented_grows (row : FetchedRow) (st st' : RunState) :
  grows_quietly st st' ->
  represented row (yielded (trace st)) -> represented row (yielded (trace st')).
Proof.
  intros Hgrow. apply represented_prefix, yielded_prefix, grows_quietly_prefix, Hgrow.
Qed.

Section Covering.
Context `{N6Lib}.
Import _EventsQueryProcessor.
Variable self : t.

Lemma produce_result_or_none_plain (sample : FetchedRow) (others : list FetchedRow)
    (st : RunState) :
  plain_row sample ->
  exists rd st1,
    produce_result_or_none self (sample :: others) st = (Return (Some rd), st1)
    /\ stands_for rd sample
    /\ forall r org, r ∈ sample :: others -> row_client r = Some org -> org ∈ res_client rd.
Proof.
  intros [Hcustom Hurl]. unfold produce_result_or_none.
  destruct (make_result_dict_clients sample others) as (ids & -> & Hids).
  rewrite preprocess_without_url_data.
  2:{ unfold url_data_of. simpl. destruct (row_custom sample); [exact Hcustom | left].
      reflexivity. }
  assert (Hkept :
    match res_url (make_raw_result_dict sample ids) with
    | Some u =>
        if url_is_provisional (make_raw_result_dict sample ids)
        then (Return None, url_norm_cache st, [LogUrlWithoutUrlData u])
        else (Return (Some (without_url_data (make_raw_result_dict sample ids))),
              url_norm_cache st, [])
    | None => (Return (Some (without_url_data (make_raw_result_dict sample ids))),
               url_norm_cache st, [])
    end
    = (Return (Some (without_url_data (make_raw_result_dict sample ids))),
       url_norm_cache st, [])).
  { unfold url_is_provisional. simpl. destruct (row_url sample) as [u|]; [|reflexivity].
    rewrite Hurl. reflexivity. }
  rewrite Hkept. eexists _, _. split; [reflexivity|]. split; [split; reflexivity|].
  intros r org Hr Hc. simpl. apply Hids. eauto.
Qed.

Lemma for_same_id_rows_covers (groups : list (list FetchedRow)) :
  (forall g, g ∈ groups -> g <> []) ->
  (forall g r, g ∈ groups -> r ∈ g -> plain_row r) ->
  (forall g r r', g ∈ groups -> r ∈ g -> r' ∈ g ->
                  row_id r = row_id r' /\ row_time r = row_time r') ->
  forall st,
    (for_same_id_rows self groups st).1 = None ->
    forall g r, g ∈ groups -> r ∈ g ->
      represented r (yielded (trace (for_same_id_rows self groups st).2)).
Proof.
  induction groups as [|g groups IH]; intros Hne Hplain Hsame st;
    [intros _ g r Hg; inversion Hg|].
  simpl. destruct g as [|sample others]; [exfalso; apply (Hne []); [left | reflexivity]|].
  assert (Hsample : sample ∈ sample :: others) by left.
  destruct (produce_result_or_none_plain sample others st
              (Hplain (sample :: others) sample ltac:(left) Hsample)) as (rd & st1 & -> & Hrd & Hclients).
  set (st2 := mkRunState (produced st1) (pending st1) (url_norm_cache st1)
                         (trace st1 ++ [EvYield rd])).
  destruct (enough_results_produced self st2).
  { destruct (bool_decide _); discriminate. }
  intros Hcontinue g r Hg Hr.
  apply elem_of_cons in Hg as [->|Hg].
  - apply (represented_grows r st2); [apply for_same_id_rows_quiet|].
    exists rd. split; [|split].
    + unfold st2. simpl. rewrite yielded_app. apply elem_of_app. right. left.
    + destruct (Hsame (sample :: others) r sample ltac:(left) Hr Hsample) as [Hi Ht].
      destruct Hrd as [Hid Htime]. split; congruence.
    + intros org. apply Hclients. exact Hr.
  - apply (fun Hne' Hplain' Hsame' => IH Hne' Hplain' Hsame' st2 Hcontinue g r Hg Hr).
    + intros g' Hg'. apply Hne. right. exact Hg'.
    + intros g' r' Hg'. apply Hplain. right. exact Hg'.
    + intros g' r1 r2 Hg'. apply Hsame. right. exact Hg'.
Qed.

Lemma for_same_time_rows_covers (seen : list FetchedRow) (st : RunState) :
  covering seen st ->
  (for_same_time_rows self (pending st)
     (mkRunState (produced st) [] (url_norm_cache st) (trace st))).1 = None ->
  forall r, r ∈ seen ->
    represented r
      (yielded (trace (for_same_time_rows self (pending st)
                         (mkRunState (produced st) [] (url_norm_cache st) (trace st))).2)).
Proof.
  intros (Hplain & Htime & Hseen) Hcontinue r Hr. unfold for_same_time_rows in *.
  destruct (Hseen r Hr) as [Hpending|Hdone].
  - rewrite <- (sorted_by_id_perm (pending st)) in Hpending.
    rewrite <- (groupby_concat row_id (sorted_by_id (pending st))) in Hpending.
    apply list_elem_of_In, in_concat in Hpending as (g & Hg & Hin).
    apply list_elem_of_In in Hg, Hin.
    apply (for_same_id_rows_covers _) with (g := g); try assumption.
    + pose proof (groupby_nonempty row_id (sorted_by_id (pending st))) as Hne.
      rewrite Forall_forall in Hne. exact Hne.
    + intros g' r' Hg' Hr'. apply Hplain.
      apply (proj1 (iter_grouped_by_id_presorted_groups _ g' Hg')). exact Hr'.
    + intros g' r1 r2 Hg' Hr1 Hr2.
      destruct (iter_grouped_by_id_presorted_groups _ g' Hg') as [Hsub Hid].
      split; [apply Hid; assumption | apply Htime; apply Hsub; assumption].
  - eapply represented_grows; [|exact Hdone].
    apply (for_same_id_rows_quiet self _
             (mkRunState (produced st) [] (url_norm_cache st) (trace st))).
Qed.

Lemma on_row_covers (seen : list FetchedRow) (row : FetchedRow) (st : RunState) :
  plain_row row ->
  covering seen st ->
  (on_row self row st).1 = None ->
  covering (seen ++ [row]) (on_row self row st).2.
Proof.
  intros Hrow Hinv. pose proof (for_same_time_rows_covers seen st Hinv) as Hflush.
  destruct Hinv as (Hplain & Htime & Hseen).
  unfold on_row. destruct (pending st) as [|first rest] eqn:Epending.
  - intros _. split; [|split]; simpl.
    + intros r Hr. apply list_elem_of_singleton in Hr as ->. exact Hrow.
    + intros r r' Hr Hr'. apply list_elem_of_singleton in Hr as ->.
      apply list_elem_of_singleton in Hr' as ->. reflexivity.
    + intros r Hr. apply elem_of_app in Hr as [Hr|Hr]; [|left; exact Hr].
      destruct (Hseen r Hr) as [Hin|Hdone]; [inversion Hin | right; exact Hdone].
  - destruct (bool_decide_reflect (row_time first = row_time row)) as [Heq|Hne].
    + intros _. split; [|split]; simpl.
      * intros r Hr. change (r ∈ (first :: rest) ++ [row]) in Hr.
        apply elem_of_app in Hr as [Hr|Hr]; [apply Hplain, Hr|].
        apply list_elem_of_singleton in Hr as ->. exact Hrow.
      * assert (Hfirst : forall r, r ∈ (first :: rest) ++ [row] ->
                                   row_time r = row_time first).
        { intros r Hr. apply elem_of_app in Hr as [Hr|Hr].
          - apply Htime; [exact Hr | left].
          - apply list_elem_of_singleton in Hr as ->. symmetry. exact Heq. }
        intros r r' Hr Hr'. rewrite (Hfirst r Hr), (Hfirst r' Hr'). reflexivity.
      * intros r Hr. change (r ∈ (first :: rest) ++ [row] \/
                             represented r (yielded (trace st))).
        apply elem_of_app in Hr as [Hr|Hr].
        -- destruct (Hseen r Hr) as [Hin|Hdone]; [left | right; exact Hdone].
           apply elem_of_app. left. exact Hin.
        -- left. apply elem_of_app. right. exact Hr.
    + destruct (for_same_time_rows self (first :: rest) _) as [[e|] st'];
        [discriminate|].
      intros _. simpl in Hflush. split; [|split]; simpl.
      * intros r Hr. apply list_elem_of_singleton in Hr as ->. exact Hrow.
      * intros r r' Hr Hr'. apply list_elem_of_singleton in Hr as ->.
        apply list_elem_of_singleton in Hr' as ->. reflexivity.
      * intros r Hr. apply elem_of_app in Hr as [Hr|Hr]; [|left; exact Hr].
        right. apply Hflush; [reflexivity | exact Hr].
Qed.

Lemma for_row_in_iterator_covers (rows : list FetchedRow) :
  (forall r, r ∈ rows -> plain_row r) ->
  forall seen st,
    covering seen st ->
    (for_row_in_iterator self rows st).1 = None ->
    covering (seen ++ rows) (for_row_in_iterator self rows st).2.
Proof.
  induction rows as [|row rows IH]; intros Hrows seen st Hinv; simpl.
  - intros _. rewrite app_nil_r. exact Hinv.
  - pose proof (on_row_covers seen row st (Hrows row ltac:(left)) Hinv) as Hrow.
    destruct (on_row self row st) as [[e|] st']; [discriminate|].
    intros Hcontinue. rewrite (cons_middle row seen rows), app_assoc.
    apply IH; [|apply Hrow; reflexivity | exact Hcontinue].
    intros r Hr. apply Hrows. right. exact Hr.
Qed.

Lemma after_last_row_covers (seen : list FetchedRow) (stopped : option ending) (st : RunState) :
  covering seen st ->
  stopped <> Some Exhausted ->
  (after_last_row self stopped st).1 = Exhausted ->
  forall r, r ∈ seen ->
    represented r (yielded (trace (after_last_row self stopped st).2)).
Proof.
  intros Hinv Hstop. pose proof (for_same_time_rows_covers seen st Hinv) as Hflush.
  destruct Hinv as (_ & _ & Hseen).
  unfold after_last_row. destruct stopped as [stop|]; simpl; [congruence|].
  destruct (pending st) as [|first rest] eqn:Epending.
  - intros _ r Hr.
    assert (Hdone : represented r (yielded (trace st))).
    { destruct (Hseen r Hr) as [Hin|Hdone]; [inversion Hin | exact Hdone]. }
    destruct (_opt_limit self) as [N|]; [|exact Hdone].
    destruct (Z.of_nat (produced st) <? N); exact Hdone.
  - pose proof (proj2 (for_same_id_rows_quiet self
                         (iter_grouped_by_id_presorted (first :: rest))
                         (mkRunState (produced st) [] (url_norm_cache st) (trace st))))
      as Hearly.
    unfold for_same_time_rows in *.
    destruct (for_same_id_rows self _ _) as [[e|] st'].
    + simpl. intros ->. destruct (Hearly Exhausted eq_refl) as [|[x ?]]; discriminate.
    + intros _ r Hr. specialize (Hflush eq_refl r Hr). simpl in Hflush.
      destruct (_opt_limit self) as [N|]; [|exact Hflush].
      destruct (Z.of_nat (produced st') <? N); exact Hflush.
Qed.

Lemma unpaged_query_results_covers (fuel : nat) (utcnow : DateTime) (db : EventDB) :
  (forall row, fetched_from db (_time_comparisons_per_step fuel utcnow self).1 row ->
               plain_row row) ->
  (unpaged_query_results fuel utcnow db self).1 = Exhausted ->
  forall row, fetched_from db (_time_comparisons_per_step fuel utcnow self).1 row ->
    represented row (yielded (trace (unpaged_query_results fuel utcnow db self).2)).
Proof.
  unfold unpaged_query_results.
  pose proof (time_comparisons_per_step_stops fuel utcnow self) as Hstops.
  destruct (_time_comparisons_per_step fuel utcnow self) as [steps stopped]. simpl.
  simpl in Hstops.
  assert (Hstop : stopped <> Some Exhausted)
    by (destruct Hstops as [Hstop | [Hstop | Hstop]]; congruence).
  intros Hplain.
  assert (Hall : forall r, r ∈ concat (map (db_rows db) steps) <-> fetched_from db steps r).
  { intros r. unfold fetched_from. rewrite (list_elem_of_In (concat _) r), in_concat. split.
    - intros (rows & Hrows & Hr). apply in_map_iff in Hrows as (step & <- & Hstep).
      exists step. split; apply list_elem_of_In; assumption.
    - intros (step & Hstep & Hr). exists (db_rows db step).
      split; [apply in_map | ]; apply list_elem_of_In; assumption. }
  assert (Hinit : covering [] initial_state).
  { split; [|split]; simpl; [intros r Hr | intros r r' Hr | intros r Hr]; inversion Hr. }
  pose proof (for_row_in_iterator_covers (concat (map (db_rows db) steps))
                (fun r Hr => Hplain r (proj1 (Hall r) Hr)) [] initial_state Hinit)
    as Hfeed.
  pose proof (proj2 (for_row_in_iterator_quiet self (concat (map (db_rows db) steps))
                       initial_state)) as Hearly.
  destruct (for_row_in_iterator self _ initial_state) as [[e|] st].
  - simpl. intros ->. destruct (Hearly Exhausted eq_refl) as [|[x ?]]; discriminate.
  - intros Hdone row Hrow.
    apply (after_last_row_covers _ stopped st (Hfeed eq_refl) Hstop Hdone).
    simpl. apply Hall. exact Hrow.
Qed.
End Covering.

Lemma fetch_rows_from_db_leaves_early `{N6Lib} (db : EventDB)
    (self : _EventsQueryProcessor.t) (steps : list Step) :
  forall st, (_EventsQueryProcessor._fetch_rows_from_db db self steps st).1
             <> Some Exhausted.
Proof.
  assert (Hloop : forall step fuel offset st,
            (_EventsQueryProcessor._fetch_rows_for_single_step_loop
               fuel db self step offset st).1 <> Some Exhausted).
  { intros step. induction fuel as [|fuel IH]; intros offset st; simpl; [discriminate|].
    destruct (_EventsQueryProcessor._build_actual_query self step offset (produced st))
      as [[query query_limit]|e]; [|discriminate].
    destruct (_BaseQueryProcessor.handling_db_api_error (execute db query))
      as [[rows|e] logged]; [|discriminate].
    pose proof (proj2 (for_row_in_iterator_quiet self rows
                         (_EventsQueryProcessor.log_all logged
                            (mkRunState (produced st) (pending st) (url_norm_cache st)
                                        (trace st ++ [EvQuery query]))))) as Hearly.
    destruct (_EventsQueryProcessor.for_row_in_iterator self rows _) as [[e|] st'].
    - simpl. intros [= ->]. destruct (Hearly Exhausted eq_refl) as [|[x ?]]; discriminate.
    - destruct query_limit as [l|]; [|discriminate].
      destruct (Z.of_nat (length rows) <? l); [discriminate | apply IH]. }
  induction steps as [|step steps IH]; intros st; simpl; [discriminate|].
  unfold _EventsQueryProcessor._fetch_rows_for_single_step.
  specialize (Hloop step (S (length (db_rows db step))) 0%nat st).
  destruct (_EventsQueryProcessor._fetch_rows_for_single_step_loop _ db self step 0 st)
    as [[e|] st']; [exact Hloop | apply IH].
Qed.

Lemma exhausted_run_counting `{N6Lib} (fuel : nat) (utcnow : DateTime) (db : EventDB)
    (self : _EventsQueryProcessor.t) :
  (_EventsQueryProcessor.generate_query_results fuel utcnow db self).1 = Exhausted ->
  counting (_EventsQueryProcessor._opt_limit self) initial_state.
Proof.
  rewrite generate_query_results_after_last_row. intros Hdone.
  split; [reflexivity|]. simpl.
  destruct (_EventsQueryProcessor._opt_limit self) as [N|] eqn:Elimit; [|exact I].
  pose proof (fetch_rows_from_db_leaves_early db self
                (_EventsQueryProcessor._time_comparisons_per_step fuel utcnow self).1
                initial_state) as Hearly.
  destruct (_EventsQueryProcessor._fetch_rows_from_db db self _ initial_state)
    as [[e|] st]; [simpl in *; congruence|].
  unfold after_last_row in Hdone.
  pose proof (time_comparisons_per_step_stops fuel utcnow self) as Hstops.
  cbv zeta in Hstops.
  destruct (_EventsQueryProcessor._time_comparisons_per_step fuel utcnow self).2
    as [stop|];
    [simpl in Hdone; destruct Hstops as [Hstop | [Hstop | Hstop]]; congruence|].
  assert (Hlast :
    leaves_early
      (match pending st with
       | [] => (None, st)
       | _ :: _ => _EventsQueryProcessor.for_same_time_rows self (pending st)
                     (mkRunState (produced st) [] (url_norm_cache st) (trace st))
       end).1).
  { destruct (pending st) as [|first rest]; [intros e; discriminate|].
    apply for_same_id_rows_quiet. }
  destruct (match pending st with [] => _ | _ :: _ => _ end) as [[e|] st'].
  - simpl in Hdone. subst e.
    destruct (Hlast Exhausted eq_refl) as [|[x ?]]; discriminate.
  - rewrite Elimit in Hdone.
    destruct (Z.ltb_spec (Z.of_nat (produced st')) N); [lia | discriminate].
Qed.


(** ** A run as one pass over the rows fed to it *)

Section Feeding.
Context `{N6Lib}.
Import _EventsQueryProcessor.
Variables (db : EventDB) (self : t).

Lemma fetch_rows_for_single_step_loop_feeds (step : Step) (fuel : nat) :
  forall offset st1 st2,
    same_progress st1 st2 ->
    (_opt_limit self = None -> offset = 0%nat) ->
    exists fed,
      fed `prefix_of` drop offset (db_rows db step)
      /\ yielded (trace (_fetch_rows_for_single_step_loop fuel db self step offset st1).2)
         = yielded (trace (for_row_in_iterator self fed st2).2)
      /\ ((_fetch_rows_for_single_step_loop fuel db self step offset st1).1 = None ->
          (for_row_in_iterator self fed st2).1 = None
          /\ same_progress (_fetch_rows_for_single_step_loop fuel db self step offset st1).2
                           (for_row_in_iterator self fed st2).2
          /\ fed = drop offset (db_rows db step)).
Proof.
  assert (Hstop : forall offset (st1 st2 : RunState) (e : ending) (evs : list event),
            same_progress st1 st2 -> yielded evs = [] ->
            exists fed,
              fed `prefix_of` drop offset (db_rows db step)
              /\ yielded (trace st1 ++ evs)
                 = yielded (trace (for_row_in_iterator self fed st2).2)
              /\ (Some e = None -> False)).
  { intros offset st1 st2 e evs Hsame Hevs. exists []. split; [apply prefix_nil|].
    split; [|discriminate]. simpl. rewrite yielded_app, Hevs, app_nil_r.
    apply same_progress_yielded. exact Hsame. }
  induction fuel as [|fuel IH]; intros offset st1 st2 Hsame Hunlimited; simpl.
  { destruct (Hstop offset st1 st2 OutOfFuel [] Hsame eq_refl) as (fed & Hfed & Hy & _).
    exists fed. rewrite app_nil_r in Hy. split; [exact Hfed|]. split; [exact Hy|].
    discriminate. }
  destruct (_build_actual_query self step offset (produced st1))
    as [[query query_limit]|e] eqn:Ebuild.
  2:{ destruct (Hstop offset st1 st2 OutOfFuel [] Hsame eq_refl) as (fed & Hfed & Hy & _).
      exists fed. rewrite app_nil_r in Hy. split; [exact Hfed|]. split; [exact Hy|].
      discriminate. }
  destruct (build_actual_query_limit self _ _ _ _ _ Ebuild) as (Hstep & Hlimit & Hoffset).
  set (st_q := mkRunState (produced st1) (pending st1) (url_norm_cache st1)
                          (trace st1 ++ [EvQuery query])).
  destruct (handling_db_api_error_cases (execute db query))
    as [(rows & Hrows & ->)|(e & e' & logged & _ & ->)].
  2:{ destruct (Hstop offset st1 st2 OutOfFuel (EvQuery query :: map EvLog logged) Hsame)
        as (fed & Hfed & Hy & _).
      { apply yielded_logs. }
      exists fed. split; [exact Hfed|]. split; [|discriminate].
      simpl. rewrite <- app_assoc. exact Hy. }
  assert (Hsame_l : same_progress (log_all [] st_q) st2).
  { apply (same_progress_trans _ st_q).
    - repeat split. simpl. rewrite app_nil_r. reflexivity.
    - apply (same_progress_trans _ st1); [apply same_progress_query | exact Hsame]. }
  assert (Hpage :
    drop offset (db_rows db step)
    = rows ++ match query_limit with
              | Some _ => drop (offset + length rows) (db_rows db step)
              | None => []
              end).
  { apply (execute_page db query); try assumption.
    destruct query_limit as [l|]; [apply Hoffset|].
    split; [exact Hoffset|]. apply Hunlimited.
    eapply build_actual_query_unlimited. exact Ebuild. }
  destruct (for_row_in_iterator_same_progress self rows _ _ Hsame_l) as [Hres Hsame'].
  destruct (for_row_in_iterator self rows (log_all [] st_q)) as [o1 st1'] eqn:Efeed1.
  simpl in Hres, Hsame'.
  assert (Hthis :
    o1 = None -> rows = drop offset (db_rows db step) ->
    exists fed,
      fed `prefix_of` drop offset (db_rows db step)
      /\ yielded (trace st1') = yielded (trace (for_row_in_iterator self fed st2).2)
      /\ ((for_row_in_iterator self fed st2).1 = None
          /\ same_progress st1' (for_row_in_iterator self fed st2).2
          /\ fed = drop offset (db_rows db step))).
  { intros -> Hall. exists rows. split; [rewrite Hall; reflexivity|].
    split; [apply same_progress_yielded, Hsame'|]. auto. }
  destruct o1 as [e|].
  { exists rows. split; [rewrite Hpage; apply prefix_app_r; reflexivity|].
    split; [apply same_progress_yielded, Hsame' | discriminate]. }
  destruct query_limit as [l|].
  2:{ rewrite app_nil_r in Hpage. destruct (Hthis eq_refl (eq_sym Hpage))
        as (fed & Hfed & Hy & Hrest).
      exists fed. auto. }
  destruct Hoffset as [Hl Hoff].
  destruct (Z.ltb_spec (Z.of_nat (length rows)) l) as [Hshort|Hfull].
  - assert (Hlen : length rows
                   = Nat.min (Z.to_nat l) (length (db_rows db step) - offset)).
    { unfold execute in Hrows. destruct (db_fault db query); [discriminate|].
      rewrite Hstep, Hoff, Hlimit in Hrows. injection Hrows as <-.
      rewrite length_take, length_drop. reflexivity. }
    rewrite (drop_ge _ (offset + length rows)), app_nil_r in Hpage by lia.
    destruct (Hthis eq_refl (eq_sym Hpage)) as (fed & Hfed & Hy & Hrest).
    exists fed. auto.
  - destruct (IH (offset + length rows)%nat st1' (for_row_in_iterator self rows st2).2
                Hsame') as (fed & Hfed & Hy & Hrest).
    { intros Hnone. unfold _build_actual_query in Ebuild. rewrite Hnone in Ebuild.
      discriminate. }
    exists (rows ++ fed). rewrite for_row_in_iterator_app.
    destruct (for_row_in_iterator self rows st2) as [o2 st2']. simpl in Hres. subst o2.
    simpl in *. split; [rewrite Hpage; apply prefix_app; exact Hfed|].
    split; [exact Hy|]. intros Hcontinue.
    destruct (Hrest Hcontinue) as (Hnone & Hsame'' & ->). rewrite Hpage. auto.
Qed.

Lemma fetch_rows_from_db_feeds (steps : list Step) :
  forall st1 st2,
    same_progress st1 st2 ->
    exists fed,
      fed `prefix_of` concat (map (db_rows db) steps)
      /\ yielded (trace (_fetch_rows_from_db db self steps st1).2)
         = yielded (trace (for_row_in_iterator self fed st2).2)
      /\ ((_fetch_rows_from_db db self steps st1).1 = None ->
          (for_row_in_iterator self fed st2).1 = None
          /\ same_progress (_fetch_rows_from_db db self steps st1).2
                           (for_row_in_iterator self fed st2).2).
Proof.
  induction steps as [|step steps IH]; intros st1 st2 Hsame; simpl.
  - exists []. split; [reflexivity|]. simpl.
    split; [apply same_progress_yielded, Hsame | auto].
  - unfold _fetch_rows_for_single_step.
    destruct (fetch_rows_for_single_step_loop_feeds step (S (length (db_rows db step)))
                0%nat st1 st2 Hsame (fun _ => eq_refl)) as (fed & Hfed & Hy & Hrest).
    rewrite drop_0 in Hfed, Hrest.
    destruct (_fetch_rows_for_single_step_loop _ db self step 0 st1) as [[e|] st1'].
    + exists fed. split; [apply prefix_app_r; exact Hfed|].
      split; [exact Hy | discriminate].
    + destruct (Hrest eq_refl) as (Hnone & Hsame' & ->). simpl in Hsame'.
      destruct (IH st1' (for_row_in_iterator self (db_rows db step) st2).2 Hsame')
        as (fed' & Hfed' & Hy' & Hrest').
      exists (db_rows db step ++ fed'). rewrite for_row_in_iterator_app.
      destruct (for_row_in_iterator self (db_rows db step) st2) as [o2 st2'].
      simpl in Hnone. subst o2. simpl in *.
      split; [apply prefix_app; exact Hfed' | split; assumption].
Qed.

Lemma generate_query_results_feeds (fuel : nat) (utcnow : DateTime) :
  exists fed,
    fed `prefix_of`
      concat (map (db_rows db) (_time_comparisons_per_step fuel utcnow self).1)
    /\ (yielded (trace (generate_query_results fuel utcnow db self).2)
        = yielded (trace (for_row_in_iterator self fed initial_state).2)
        \/ exists stopped,
             (for_row_in_iterator self fed initial_state).1 = None
             /\ yielded (trace (generate_query_results fuel utcnow db self).2)
                = yielded (trace (after_last_row self stopped
                                    (for_row_in_iterator self fed initial_state).2).2)).
Proof.
  rewrite generate_query_results_after_last_row.
  destruct (fetch_rows_from_db_feeds (_time_comparisons_per_step fuel utcnow self).1
              initial_state initial_state (same_progress_refl _))
    as (fed & Hfed & Hy & Hrest).
  exists fed. split; [exact Hfed|].
  destruct (_fetch_rows_from_db db self _ initial_state) as [[e|] st]; [left; exact Hy|].
  right. exists (_time_comparisons_per_step fuel utcnow self).2.
  destruct (Hrest eq_refl) as [Hnone Hsame]. split; [exact Hnone|].
  apply same_progress_yielded, after_last_row_same_progress. exact Hsame.
Qed.
End Feeding.

(** ** No event is reported twice *)

Lemma rows_of_steps_newer_first (db : EventDB) (steps : list Step) :
  answers_in_time_order db ->
  StronglySorted step_before steps ->
  StronglySorted rows_newer_first (concat (map (db_rows db) steps)).
Proof.
  intros Hdb Hsteps. apply (steps_apart_rows_older db steps Hdb) in Hsteps.
  induction Hsteps as [|step steps Hsorted IH Hall]; simpl; [constructor|].
  apply StronglySorted_app_2; [|apply Hdb | exact IH].
  intros r r' Hr Hr'. apply list_elem_of_In, in_concat in Hr' as (rows & Hrows & Hr').
  apply in_map_iff in Hrows as (step' & <- & Hstep').
  rewrite Forall_forall in Hall.
  apply (Hall step'); [apply list_elem_of_In, Hstep' | exact Hr | apply list_elem_of_In, Hr'].
Qed.

Section Distinct.
Context `{N6Lib}.
Import _EventsQueryProcessor.
Variable self : t.

Lemma produce_result_or_none_key (same_id_rows : list FetchedRow) (st st1 : RunState)
    (rd : ResultDict) :
  produce_result_or_none self same_id_rows st = (Return (Some rd), st1) ->
  res_id rd = group_id same_id_rows.
Proof.
  unfold produce_result_or_none, _make_result_dict.
  destruct same_id_rows as [|sample others]; [discriminate|].
  destruct (_preprocess_result_dict self (url_norm_cache st) _)
    as [[r cache'] logged] eqn:Epre.
  destruct r as [[kept|]|e]; intros [= <- <-].
  apply preprocess_result_dict_keeps_time in Epre as (_ & -> & _). reflexivity.
Qed.

Lemma for_same_id_rows_new (tp : DateTime) (groups : list (list FetchedRow)) :
  (forall g r, g ∈ groups -> r ∈ g -> row_time r = tp) ->
  forall st,
    exists new,
      yielded (trace (for_same_id_rows self groups st).2) = yielded (trace st) ++ new
      /\ Forall (fun y => res_time y = tp) new
      /\ map res_id new `sublist_of` map group_id groups.
Proof.
  induction groups as [|g groups IH]; intros Htime st; simpl.
  - exists []. rewrite app_nil_r. split; [reflexivity|]. split; constructor.
  - destruct (produce_result_or_none self g st) as [r st1] eqn:Eprod.
    destruct (produce_result_or_none_counting self g st r st1 Eprod) as (Hy & _ & _).
    assert (Htime' : forall g' r', g' ∈ groups -> r' ∈ g' -> row_time r' = tp)
      by (intros g' r' Hg' Hr'; eapply Htime; [right; exact Hg' | exact Hr']).
    destruct r as [[rd|]|e]; simpl.
    + set (st2 := mkRunState (produced st1) (pending st1) (url_norm_cache st1)
                             (trace st1 ++ [EvYield rd])).
      assert (Hrd_time : res_time rd = tp).
      { eapply produce_result_or_none_time; [|exact Eprod].
        intros r0. apply Htime. left. }
      pose proof (produce_result_or_none_key g st st1 rd Eprod) as Hrd_id.
      assert (Hy2 : yielded (trace st2) = yielded (trace st) ++ [rd]).
      { unfold st2. simpl. rewrite yielded_app, Hy. reflexivity. }
      assert (Hstop : exists new,
                yielded (trace st2) = yielded (trace st) ++ new
                /\ Forall (fun y => res_time y = tp) new
                /\ map res_id new `sublist_of` group_id g :: map group_id groups).
      { exists [rd]. split; [exact Hy2|]. split; [repeat constructor; exact Hrd_time|].
        simpl. rewrite Hrd_id. apply sublist_skip, sublist_nil_l. }
      destruct (enough_results_produced self st2).
      { destruct (bool_decide _); exact Hstop. }
      destruct (IH Htime' st2) as (new & Hnew & Htimes & Hids).
      exists (rd :: new). split; [|split].
      * rewrite Hnew, Hy2, <- app_assoc. reflexivity.
      * constructor; assumption.
      * simpl. rewrite Hrd_id. apply sublist_skip, Hids.
    + assert (Hstop : exists new,
                yielded (trace st1) = yielded (trace st) ++ new
                /\ Forall (fun y => res_time y = tp) new
                /\ map res_id new `sublist_of` group_id g :: map group_id groups).
      { exists []. rewrite app_nil_r. split; [exact Hy|]. split; [constructor|].
        apply sublist_nil_l. }
      destruct (enough_results_produced self st1).
      { destruct (bool_decide _); exact Hstop. }
      destruct (IH Htime' st1) as (new & Hnew & Htimes & Hids).
      exists new. split; [rewrite Hnew, Hy; reflexivity|]. split; [exact Htimes|].
      apply sublist_cons, Hids.
    + exists []. rewrite app_nil_r. split; [exact Hy|]. split; [constructor|].
      apply sublist_nil_l.
Qed.

Lemma for_same_time_rows_distinct (st : RunState) :
  distinct_so_far st ->
  let flushed := (for_same_time_rows self (pending st)
                    (mkRunState (produced st) [] (url_norm_cache st) (trace st))).2 in
  NoDup (map event_key (yielded (trace flushed)))
  /\ forall rd r, rd ∈ yielded (trace flushed) -> r ∈ pending st ->
                  row_time r <= res_time rd.
Proof.
  intros (Hnodup & Hnewer & Htime & Hempty) flushed. unfold flushed, for_same_time_rows.
  destruct (pending st) as [|first rest] eqn:Epending.
  { simpl. split; [exact Hnodup|]. intros rd r _ Hr. inversion Hr. }
  set (tp := row_time first).
  destruct (for_same_id_rows_new tp (iter_grouped_by_id_presorted (first :: rest)))
    with (st := mkRunState (produced st) [] (url_norm_cache st) (trace st))
    as (new & Hnew & Htimes & Hids).
  { intros g r Hg Hr. apply Htime; [|left].
    apply (proj1 (iter_grouped_by_id_presorted_groups _ g Hg)). exact Hr. }
  rewrite Hnew. simpl. rewrite Forall_forall in Htimes.
  assert (Hfirst : forall r, r ∈ first :: rest -> row_time r = tp)
    by (intros r Hr; apply Htime; [exact Hr | left]).
  split.
  - rewrite map_app. apply NoDup_app. split; [exact Hnodup|]. split.
    + intros key Hold Hin.
      apply list_elem_of_fmap in Hold as (rd & -> & Hrd).
      apply list_elem_of_fmap in Hin as (rd' & Hkey & Hrd').
      injection Hkey as Ht _. rewrite (Htimes rd' Hrd') in Ht.
      specialize (Hnewer rd first Hrd ltac:(left)). fold tp in Hnewer. lia.
    + assert (Hkeys : map event_key new = map (pair tp) (map res_id new)).
      { rewrite map_map. apply map_ext_in. intros rd Hrd. unfold event_key.
        rewrite (Htimes rd); [reflexivity | apply list_elem_of_In, Hrd]. }
      rewrite Hkeys. apply (NoDup_fmap_2 (pair tp)).
      apply (sublist_NoDup _ _ (groupby_sorted_ids _ (sorted_by_id_sorted (first :: rest)))).
      exact Hids.
  - intros rd r Hrd Hr. rewrite (Hfirst r Hr).
    apply elem_of_app in Hrd as [Hrd|Hrd].
    + specialize (Hnewer rd first Hrd ltac:(left)). fold tp in Hnewer. lia.
    + rewrite (Htimes rd Hrd). lia.
Qed.

Lemma on_row_distinct (row : FetchedRow) (st : RunState) :
  distinct_so_far st ->
  (forall r, r ∈ pending st -> row_time row <= row_time r) ->
  match on_row self row st with
  | (None, st') =>
      distinct_so_far st' /\ forall r, r ∈ pending st' -> r ∈ pending st \/ r = row
  | (Some e, st') => NoDup (map event_key (yielded (trace st')))
  end.
Proof.
  intros Hinv Hrow. pose proof (for_same_time_rows_distinct st Hinv) as [Hflush Hflushed].
  destruct Hinv as (Hnodup & Hnewer & Htime & Hempty).
  unfold on_row. destruct (pending st) as [|first rest] eqn:Epending.
  - split; [|intros r Hr; right; apply list_elem_of_singleton; exact Hr].
    split; [exact Hnodup|]. simpl. rewrite (Hempty eq_refl).
    split; [intros rd r Hrd; inversion Hrd|]. split; [|discriminate].
    intros r r' Hr Hr'. apply list_elem_of_singleton in Hr as ->.
    apply list_elem_of_singleton in Hr' as ->. reflexivity.
  - destruct (bool_decide_reflect (row_time first = row_time row)) as [Heq|Hne].
    + split.
      2:{ simpl. intros r Hr. change (r ∈ (first :: rest) ++ [row]) in Hr.
          apply elem_of_app in Hr as [Hr|Hr]; [left; exact Hr | right].
          apply list_elem_of_singleton. exact Hr. }
      assert (Hfirst : forall r, r ∈ (first :: rest) ++ [row] ->
                                 row_time r = row_time first).
      { intros r Hr. apply elem_of_app in Hr as [Hr|Hr].
        - apply Htime; [exact Hr | left].
        - apply list_elem_of_singleton in Hr as ->. symmetry. exact Heq. }
      split; [exact Hnodup|]. simpl. split; [|split; [|discriminate]].
      * intros rd r Hrd Hr. rewrite (Hfirst r Hr). apply (Hnewer rd first Hrd). left.
      * intros r r' Hr Hr'. rewrite (Hfirst r Hr), (Hfirst r' Hr'). reflexivity.
    + destruct (for_same_time_rows self (first :: rest) _) as [[e|] st'];
        [exact Hflush|].
      simpl in Hflush, Hflushed.
      split; [|intros r Hr; right; apply list_elem_of_singleton; exact Hr].
      split; [exact Hflush|]. simpl. split; [|split; [|discriminate]].
      * intros rd r Hrd Hr. apply list_elem_of_singleton in Hr as ->.
        specialize (Hflushed rd first Hrd ltac:(left)).
        specialize (Hrow first ltac:(left)). lia.
      * intros r r' Hr Hr'. apply list_elem_of_singleton in Hr as ->.
        apply list_elem_of_singleton in Hr' as ->. reflexivity.
Qed.

Lemma for_row_in_iterator_distinct (rows : list FetchedRow) :
  StronglySorted rows_newer_first rows ->
  forall st,
    distinct_so_far st ->
    (forall r row, r ∈ pending st -> row ∈ rows -> row_time row <= row_time r) ->
    match for_row_in_iterator self rows st with
    | (None, st') => distinct_so_far st'
    | (Some e, st') => NoDup (map event_key (yielded (trace st')))
    end.
Proof.
  induction 1 as [|row rows Hsorted IH Hall]; intros st Hinv Hbelow; simpl; [exact Hinv|].
  pose proof (on_row_distinct row st Hinv (fun r Hr => Hbelow r row Hr ltac:(left)))
    as Hrow.
  destruct (on_row self row st) as [[e|] st']; [exact Hrow|].
  destruct Hrow as [Hinv' Hpending]. apply IH; [exact Hinv'|].
  intros r row' Hr Hrow'. destruct (Hpending r Hr) as [Hold | ->].
  - apply (Hbelow r row' Hold). right. exact Hrow'.
  - rewrite Forall_forall in Hall. apply (Hall row' Hrow').
Qed.

Lemma after_last_row_distinct (stopped : option ending) (st : RunState) :
  distinct_so_far st ->
  NoDup (map event_key (yielded (trace (after_last_row self stopped st).2))).
Proof.
  intros Hinv. pose proof (for_same_time_rows_distinct st Hinv) as [Hflush _].
  unfold after_last_row. destruct stopped as [stop|]; simpl; [apply Hinv|].
  assert (Hlast :
    NoDup (map event_key
      (yielded (trace (match pending st with
                       | [] => (None, st)
                       | _ :: _ => for_same_time_rows self (pending st)
                                     (mkRunState (produced st) [] (url_norm_cache st)
                                                 (trace st))
                       end).2)))).
  { destruct (pending st) as [|first rest]; [apply Hinv | exact Hflush]. }
  destruct (match pending st with [] => _ | _ :: _ => _ end) as [[e|] st'];
    [exact Hlast|].
  simpl in Hlast. destruct (_opt_limit self) as [N|]; [|exact Hlast].
  destruct (Z.of_nat (produced st') <? N); exact Hlast.
Qed.
End Distinct.

(** X11 - No event is reported twice.  When every per-step query
    returns the rows of its time window ordered by [time] descending, no
    two of the result dicts yielded by a run have the same [time] and
    the same [id]: the rows of one event, however many clients it has
    and however the pages and the time windows cut the row stream, end
    up in one result.  This holds with and without a cap, and also when
    a query fails on the way. *)
Theorem no_event_is_reported_twice `{N6Lib} (fuel : nat) (utcnow : DateTime)
    (db : EventDB) (self : _EventsQueryProcessor.t) :
  answers_in_time_order db ->
  NoDup (map event_key
           (yielded (trace (_EventsQueryProcessor.generate_query_results
                              fuel utcnow db self).2))).
Proof.
  intros Hdb.
  destruct (generate_query_results_feeds db self fuel utcnow) as (fed & [rest Hfed] & Hrun).
  pose proof (rows_of_steps_newer_first db _ Hdb
                (time_comparisons_per_step_apart fuel utcnow self)) as Hsorted.
  rewrite Hfed in Hsorted. apply StronglySorted_app_1_l in Hsorted.
  assert (Hinit : distinct_so_far initial_state).
  { split; [constructor|]. simpl. split; [intros rd r Hrd; inversion Hrd|].
    split; [intros r r' Hr; inversion Hr | reflexivity]. }
  pose proof (for_row_in_iterator_distinct self fed Hsorted initial_state Hinit) as Hpass.
  assert (Hbelow : forall r row : FetchedRow,
            r ∈ pending initial_state -> row ∈ fed -> row_time row <= row_time r)
    by (intros r row Hr; inversion Hr).
  specialize (Hpass Hbelow).
  destruct Hrun as [-> | (stopped & Hnone & ->)].
  - destruct (_EventsQueryProcessor.for_row_in_iterator self fed initial_state)
      as [[e|] st]; [exact Hpass | apply Hpass].
  - destruct (_EventsQueryProcessor.for_row_in_iterator self fed initial_state)
      as [[e|] st]; [discriminate|].
    apply after_last_row_distinct. exact Hpass.
Qed.

(** ** The transactional scope: what leaving it does to the session *)

Ltac session_cases :=
  repeat match goal with
         | |- context [match ?oracle ?calls ?c with Some _ => _ | None => _ end] =>
             let E := fresh "Ecall" in destruct (oracle calls c) as [?|] eqn:E; simpl
         | |- context [match ?e with NoContextToExitFrom => _ | _ => _ end] =>
             is_var e; destruct e; simpl
         end.

Ltac not_among Hin :=
  repeat (apply elem_of_cons in Hin as [Hin|Hin]; [discriminate|]); inversion Hin.

Ltac settle_exit :=
  eexists; split; [reflexivity|]; split; [reflexivity|];
  split;
  [ let Hin := fresh "Hin" in
    intros Hin; first [ solve [exfalso; not_among Hin] | solve [repeat split; eauto] ]
  | split;
    [ let Hret := fresh "Hret" in
      intros Hret; first [ discriminate Hret | solve [repeat split; eauto] ]
    | let Hc := fresh "Hc" in intros Hc; discriminate Hc ] ].

(** X12 - [__exit__] commits only after a successful flush, and returns
    only after a commit or a rollback.  Whatever the session does: the
    calls [__exit__] makes on it are appended to those made before and
    one nesting level is left; a commit is made only with no active
    exception, in the outermost scope and right after a flush that
    succeeded; [__exit__] returns normally only from the outermost
    scope, after exactly a successful flush and commit (no active
    exception) or exactly a successful rollback (active exception); and
    with no scope entered it raises [NoContextToExitFrom] without
    touching the session. *)
Theorem exit_commits_only_after_flush (oracle : SessionOracle) (exc : option exception)
    (s : State) :
  let outcome := __exit__ oracle exc s in
  exists added,
    session_calls outcome.2 = session_calls s ++ added
    /\ context_count outcome.2 = pred (context_count s)
    /\ (Commit ∈ added ->
        exc = None /\ context_count s = 1%nat
        /\ oracle (session_calls s) Flush = None
        /\ exists more, added = Flush :: Commit :: more)
    /\ (outcome.1 = Return tt ->
        context_count s = 1%nat
        /\ match exc with
           | None =>
               added = [Flush; Commit]
               /\ oracle (session_calls s) Flush = None
               /\ oracle (session_calls s ++ [Flush]) Commit = None
           | Some _ =>
               added = [Rollback] /\ oracle (session_calls s) Rollback = None
           end)
    /\ (context_count s = 0%nat -> outcome = (Raise NoContextToExitFrom, s)).
Proof.
  destruct s as [n calls]. destruct n as [|[|n]]; simpl.
  - exists []. rewrite app_nil_r. unfold __exit__, on_exit. simpl.
    split; [reflexivity|]. split; [reflexivity|].
    split; [intros Hin; inversion Hin|]. split; [discriminate | reflexivity].
  - unfold __exit__, on_exit, _transaction_finalizer, _DBSession, is_entered. simpl.
    destruct exc as [e|]; simpl; session_cases; rewrite <- ?app_assoc; simpl;
      settle_exit.
  - unfold __exit__, on_exit, _never_called, prog_raise, _DBSession. simpl.
    session_cases; settle_exit.
Qed.

Lemma exit_return_inv (oracle : SessionOracle) (exc : option exception) (s s' : State) :
  __exit__ oracle exc s = (Return tt, s') ->
  context_count s = 1%nat
  /\ match exc with
     | None =>
         oracle (session_calls s) Flush = None
         /\ oracle (session_calls s ++ [Flush]) Commit = None
         /\ s' = mkState 0 (session_calls s ++ [Flush; Commit])
     | Some _ =>
         oracle (session_calls s) Rollback = None
         /\ s' = mkState 0 (session_calls s ++ [Rollback])
     end.
Proof.
  destruct s as [n calls]. destruct n as [|[|n]]; simpl.
  - unfold __exit__, on_exit. simpl. discriminate.
  - unfold __exit__, on_exit, _transaction_finalizer, _DBSession, is_entered. simpl.
    destruct exc as [e|]; simpl; session_cases; rewrite <- ?app_assoc; simpl;
      intros Hret; try discriminate Hret; injection Hret as <-; auto.
  - unfold __exit__, on_exit, _never_called, prog_raise, _DBSession. simpl.
    session_cases; discriminate.
Qed.

(** X13 - A [with transact] block that ends normally has committed.
    If [with transact: body] returns [a], then no scope was entered
    before, the rollback made on entering succeeded, the body has run
    right after it and returned [a] (leaving the scope entered), and the
    last things done on the session are a successful flush and a
    successful commit. *)
Theorem with_transact_returns_only_committed {A : Type} (oracle : SessionOracle)
    (body : Prog State A) (s0 s3 : State) (a : A) :
  with_transact oracle body s0 = (Return a, s3) ->
  context_count s0 = 0%nat
  /\ oracle (session_calls s0) Rollback = None
  /\ exists s2,
       body (mkState 1 (session_calls s0 ++ [Rollback])) = (Return a, s2)
       /\ context_count s2 = 1%nat
       /\ oracle (session_calls s2) Flush = None
       /\ oracle (session_calls s2 ++ [Flush]) Commit = None
       /\ s3 = mkState 0 (session_calls s2 ++ [Flush; Commit]).
Proof.
  unfold with_transact, __enter__, on_enter, _DBSession.
  destruct s0 as [[|n] calls]; simpl; [|discriminate].
  destruct (oracle calls Rollback) as [e|]; [discriminate|].
  destruct (body _) as [[a'|exc] s2] eqn:Ebody.
  - destruct (__exit__ oracle None s2) as [[[]|e] s3'] eqn:Eexit; [|discriminate].
    intros [= -> ->]. apply exit_return_inv in Eexit as (Hcount & Hflush & Hcommit & ->).
    split; [reflexivity|]. split; [reflexivity|]. exists s2. auto.
  - destruct (__exit__ oracle (Some exc) s2) as [[[]|e] s3']; discriminate.
Qed.

(** X14 - Transactions do not nest.  A [with transact] block entered
    inside another one is refused before its body runs: the inner
    statement raises [ContextManagerIsNotReentrantError] without a call
    on the session, and the outer block, left with that exception, rolls
    its transaction back. *)
Theorem nested_transact_is_refused {A : Type} (oracle : SessionOracle)
    (inner : Prog State A) (s0 : State) :
  context_count s0 = 0%nat ->
  oracle (session_calls s0) Rollback = None ->
  oracle (session_calls s0 ++ [Rollback]) Rollback = None ->
  (forall s, context_count s = 1%nat ->
             with_transact oracle inner s = (Raise ContextManagerIsNotReentrantError, s))
  /\ with_transact oracle (with_transact oracle inner) s0
     = (Raise ContextManagerIsNotReentrantError,
        mkState 0 (session_calls s0 ++ [Rollback; Rollback])).
Proof.
  intros Hcount Henter Hexit.
  assert (Hinner : forall s, context_count s = 1%nat ->
            with_transact oracle inner s = (Raise ContextManagerIsNotReentrantError, s)).
  { intros s Hs. unfold with_transact, __enter__, on_enter. rewrite Hs. reflexivity. }
  split; [exact Hinner|].
  destruct s0 as [n calls]. simpl in *. subst n.
  unfold with_transact at 1. unfold __enter__, on_enter, _DBSession. simpl.
  rewrite Henter. rewrite Hinner by reflexivity.
  unfold __exit__, on_exit, _transaction_finalizer, _DBSession. simpl.
  rewrite Hexit. simpl. rewrite <- app_assoc. reflexivity.
Qed.

(** ** The counts of an organization in terms of the tables *)

Lemma joined_rows_intro (t : Tables) (on_ : ColumnElement) (e : EventRow)
    (cl : ClientToEventRow) :
  In e (tbl_event t) -> In cl (tbl_client_to_event t) -> on_ (e, Some cl) = true ->
  In (e, Some cl) (joined_rows t (Some on_)).
Proof.
  intros He Hcl Hon. unfold joined_rows. apply in_flat_map. exists e.
  split; [exact He|].
  assert (Hmatch : In cl (List.filter (fun cl => on_ (e, Some cl)) (tbl_client_to_event t)))
    by (apply filter_In; split; assumption).
  destruct (List.filter (fun cl => on_ (e, Some cl)) (tbl_client_to_event t))
    as [|cl0 matching]; [destruct Hmatch|].
  apply (in_map (fun cl => (e, Some cl))). exact Hmatch.
Qed.

Lemma or_on_event_alone (conds : list ColumnElement) (e : EventRow)
    (cl : option ClientToEventRow) :
  Forall on_event_alone conds -> or_ conds (e, cl) = or_ conds (e, None).
Proof.
  intros Hconds. unfold or_. induction Hconds as [|c conds Hc _ IH]; [reflexivity|].
  simpl. rewrite IH, (Hc e cl). reflexivity.
Qed.

Lemma remove_dups_same_length {A} `{EqDecision A} (l k : list A) :
  (forall x, x ∈ l <-> x ∈ k) -> length (remove_dups l) = length (remove_dups k).
Proof.
  intros Hsame. apply Permutation_length.
  apply NoDup_Permutation; try apply NoDup_remove_dups.
  intros x. rewrite !elem_of_remove_dups. apply Hsame.
Qed.

Lemma selected_ids_of_own_events (tables : Tables) (org : string)
    (conds : list ColumnElement) (since : DateTime) (category : string) :
  Forall on_event_alone conds ->
  count_distinct_ids category
    (selected_rows tables
       (mkQuery (Some (and_ [cl_model_id_eq_model_id; cl_model_time_ge since]))
                [model_time_ge since; or_ conds; client_column_in_ [org]]))
  = length (remove_dups (own_event_ids tables org conds since category)).
Proof.
  intros Hconds. unfold count_distinct_ids, own_event_ids.
  apply remove_dups_same_length. intros x.
  rewrite !list_elem_of_In, !in_map_iff. split.
  - intros (j & <- & Hj). apply filter_In in Hj as [Hj Hcat].
    unfold selected_rows in Hj. apply filter_In in Hj as [Hjoin Hwhere].
    simpl in Hjoin, Hwhere.
    apply andb_prop in Hwhere as [Htime Hwhere].
    apply andb_prop in Hwhere as [Hacc Hwhere].
    apply andb_prop in Hwhere as [Hcli _].
    destruct j as [e [cl|]]; [|discriminate]. simpl in *.
    apply bool_decide_eq_true_1 in Hcli. apply list_elem_of_singleton in Hcli.
    apply joined_rows_inv in Hjoin as [He Hjoin].
    destruct (Hjoin cl eq_refl) as [Hcl Hon]. simpl in He.
    unfold and_ in Hon. simpl in Hon.
    apply andb_prop in Hon as [Hid Hon]. apply andb_prop in Hon as [Hcltime _].
    exists e. split; [reflexivity|]. apply filter_In. split; [exact He|].
    rewrite Hcat. unfold model_time_ge in Htime. simpl in Htime. rewrite Htime.
    rewrite <- (or_on_event_alone conds e (Some cl) Hconds), Hacc. simpl.
    apply existsb_exists. exists cl. split; [exact Hcl|].
    unfold cl_model_id_eq_model_id in Hid. simpl in Hid. rewrite Hid.
    unfold cl_model_time_ge in Hcltime. simpl in Hcltime. rewrite Hcltime.
    rewrite bool_decide_eq_true_2 by exact Hcli. reflexivity.
  - intros (e & <- & He). apply filter_In in He as [He Hok].
    apply andb_prop in Hok as [Hok Hown]. apply andb_prop in Hok as [Hok Hacc].
    apply andb_prop in Hok as [Hcat Htime].
    apply existsb_exists in Hown as (cl & Hcl & Hown).
    apply andb_prop in Hown as [Hown Hcli]. apply andb_prop in Hown as [Hid Hcltime].
    exists (e, Some cl). split; [reflexivity|]. apply filter_In. split; [|exact Hcat].
    unfold selected_rows. apply filter_In. split.
    + apply joined_rows_intro; try assumption. unfold and_. simpl.
      unfold cl_model_id_eq_model_id, cl_model_time_ge. simpl.
      rewrite Hid, Hcltime. reflexivity.
    + simpl. unfold model_time_ge. simpl. rewrite Htime.
      rewrite (or_on_event_alone conds e (Some cl) Hconds), Hacc.
      unfold client_column_in_. simpl. apply bool_decide_eq_true_1 in Hcli.
      rewrite bool_decide_eq_true_2 by (rewrite Hcli; left). reflexivity.
Qed.

(** X15 - The counts of an organization in terms of the two tables.
    When the access conditions look at the event columns only and the
    categories stored in [event] are canonical, the count
    [get_counts_per_category] returns for a category is the number of
    distinct ids among the [event] rows of that category that are not
    older than [since], pass the access conditions and are associated
    with the caller's organization by a [client_to_event] row of the
    same id that is not older than [since] either.  The outer join
    neither multiplies an event that has several such rows nor lets in
    an event that has none. *)
Theorem api_counts_in_terms_of_tables `{N6Lib} (tables : Tables) (auth_data : AuthData)
    (access_filtering_conditions : list ColumnElement) (since : DateTime) :
  access_filtering_conditions <> [] ->
  Forall on_event_alone access_filtering_conditions ->
  (forall e, e ∈ tbl_event tables -> ev_category e ∈ CATEGORY_ENUMS) ->
  exists m : gmap string nat,
    N6DataBackendAPI.get_counts_per_category
      (sql_counts tables) auth_data access_filtering_conditions since
    = (Return m, [])
    /\ forall category, category ∈ CATEGORY_ENUMS ->
         m !! category
         = Some (length (remove_dups
                   (own_event_ids tables (org_id auth_data) access_filtering_conditions
                                  since category))).
Proof.
  intros Hnonempty Hconds Hlegal.
  destruct access_filtering_conditions as [|c0 conds] eqn:Econds; [congruence|].
  rewrite <- Econds in *.
  assert (Hinit : _BaseQueryProcessor.__init__ access_filtering_conditions
                    (Some [org_id auth_data])
                  = Return (_BaseQueryProcessor.mk access_filtering_conditions
                              (Some [org_id auth_data]))).
  { rewrite Econds. reflexivity. }
  pose proof (build_query_for_counts _ _ _ since Hinit) as Hq. simpl in Hq.
  assert (Hapi : N6DataBackendAPI.get_counts_per_category
                   (sql_counts tables) auth_data access_filtering_conditions since
                 = _CountsQueryProcessor.get_counts_per_category (sql_counts tables)
                     (_BaseQueryProcessor.mk access_filtering_conditions
                        (Some [org_id auth_data])) since).
  { unfold N6DataBackendAPI.get_counts_per_category. rewrite Hinit.
    rewrite Econds. reflexivity. }
  rewrite Hapi. eexists. split.
  - eapply get_counts_per_category_legal; [exact Hq | reflexivity |].
    intros c Hc. rewrite category_counts_keys in Hc.
    rewrite elem_of_remove_dups in Hc. apply list_elem_of_fmap in Hc as (j & -> & Hj).
    apply Hlegal. apply list_elem_of_In in Hj. unfold selected_rows in Hj.
    apply filter_In in Hj as [Hj _]. apply joined_rows_inv in Hj as [Hj _].
    apply list_elem_of_In. exact Hj.
  - intros category Hcategory. rewrite dict_update_category_counts by exact Hcategory.
    f_equal. apply selected_ids_of_own_events. exact Hconds.
Qed.

(** ** The request parameters of the event methods *)

Lemma pop_single_or_none_inv (key : string) (params params' : ParamsDict)
    (r : option ParamValue) :
  EventsAPI.pop_single_or_none key params = (Return r, params') ->
  params' = delete key params
  /\ params !! key = option_map (fun x => [x]) r.
Proof.
  unfold EventsAPI.pop_single_or_none.
  destruct (params !! key) as [[|x [|y l]]|] eqn:Ekey; simpl; intros [= <- <-].
  - auto.
  - split; [|reflexivity]. symmetry. apply delete_id. exact Ekey.
Qed.

Lemma pop_time_constraints_inv (params params' : ParamsDict)
    (time_min : ParamValue) (time_max time_until : option ParamValue) :
  EventsAPI._pop_time_constraints params = (Return (time_min, time_max, time_until), params') ->
  params' = delete "time.until" (delete "time.max" (delete "time.min" params))
  /\ params !! "time.min" = Some [time_min]
  /\ params !! "time.max" = option_map (fun x => [x]) time_max
  /\ params !! "time.until" = option_map (fun x => [x]) time_until.
Proof.
  unfold EventsAPI._pop_time_constraints.
  destruct (params !! "time.min") as [[|x [|y l]]|] eqn:Emin; simpl; try discriminate.
  destruct (EventsAPI.pop_single_or_none "time.max" _) as [[tmax|e] params1] eqn:Emax;
    [|discriminate].
  destruct (EventsAPI.pop_single_or_none "time.until" _) as [[tuntil|e] params2] eqn:Euntil;
    [|discriminate].
  intros [= <- <- <- <-].
  apply pop_single_or_none_inv in Emax as [-> Hmax].
  apply pop_single_or_none_inv in Euntil as [-> Huntil].
  rewrite lookup_delete_ne in Hmax by discriminate.
  rewrite !lookup_delete_ne in Huntil by discriminate.
  auto.
Qed.

(** X16 - What the query processor gets of the request parameters.
    When [_generate_result_dicts] gets as far as building the query
    processor, the filtering parameters it passes on are the request
    parameters without any [client], [time.*] or [opt.*] item, every
    other item unchanged (and the caller's dict has become just that);
    the time constraints and the limit are the single values of
    [time.min] (which must be there), [time.max], [time.until] and
    [opt.limit]; the access conditions are the non-empty list given for
    the access zone, which is one of the known zones; and the client
    organizations are exactly one for "inside", and never an empty
    list. *)
Theorem generate_result_dicts_arguments (day_step : Z)
    (access_zone_conditions : AccessZoneConditionsDict) (access_zone : string)
    (client_org_ids : option (list ParamValue)) (params params' : ParamsDict)
    (args : EventsQueryProcessorArgs) :
  EventsAPI._generate_result_dicts day_step access_zone_conditions access_zone
    client_org_ids params = (Return args, params') ->
  arg_filtering_params args = params'
  /\ (forall key,
        params' !! key
        = if EventsAPI._allowed_to_have_query_func key then params !! key else None)
  /\ params !! "time.min" = Some [(arg_time_constraints args).1.1]
  /\ params !! "time.max" = option_map (fun x => [x]) (arg_time_constraints args).1.2
  /\ params !! "time.until" = option_map (fun x => [x]) (arg_time_constraints args).2
  /\ params !! "opt.limit" = option_map (fun x => [x]) (arg_opt_limit args)
  /\ access_zone_conditions !! access_zone = Some (arg_access_filtering_conditions args)
  /\ arg_access_filtering_conditions args <> []
  /\ access_zone ∈ ACCESS_ZONES
  /\ arg_client_org_ids args = client_org_ids
  /\ arg_day_step args = day_step
  /\ (access_zone = "inside" -> exists org, client_org_ids = Some [org])
  /\ client_org_ids <> Some [].
Proof.
  unfold EventsAPI._generate_result_dicts, EventsAPI._get_access_filtering_conditions,
    EventsAPI._pop_opt_limit.
  destruct (access_zone_conditions !! access_zone) as [[|c conds]|] eqn:Ezone;
    try discriminate.
  destruct (EventsAPI.pop_single_or_none "opt.limit" params)
    as [[opt_limit|e] params1] eqn:Elimit; [|discriminate].
  apply pop_single_or_none_inv in Elimit as [-> Hlimit].
  destruct (EventsAPI._pop_time_constraints _)
    as [[[[time_min time_max] time_until]|e] params2] eqn:Etime; [|discriminate].
  apply pop_time_constraints_inv in Etime as (-> & Hmin & Hmax & Huntil).
  rewrite lookup_delete_ne in Hmin, Hmax, Huntil by discriminate.
  unfold EventsAPI._delete_opt_prefixed_params.
  set (kept := filter _ _).
  unfold EventsAPI._assert_internal_guarantees.
  destruct (bool_decide (is_Some (kept !! "client"))); [discriminate|].
  destruct (bool_decide_reflect (access_zone ∈ ACCESS_ZONES)) as [Hzone|]; [|discriminate].
  simpl.
  assert (Hclients :
    (if bool_decide (access_zone = "inside")
     then match client_org_ids with
          | Some [_] => Return ()
          | _ => Raise (AssertionError "")
          end
     else match client_org_ids with
          | Some [] => Raise (AssertionError "")
          | _ => Return ()
          end) = Return () ->
    (access_zone = "inside" -> exists org, client_org_ids = Some [org])
    /\ client_org_ids <> Some []).
  { destruct (bool_decide_reflect (access_zone = "inside")) as [Hinside|Hother].
    - destruct client_org_ids as [[|org [|org' l]]|]; try discriminate.
      intros _. split; [eauto | discriminate].
    - destruct client_org_ids as [[|org l]|]; try discriminate;
        (intros _; split; [intros Hz; contradiction | discriminate]). }
  destruct (if bool_decide (access_zone = "inside") then _ else _) as [[]|e];
    [|discriminate].
  specialize (Hclients eq_refl). destruct Hclients as [Hinside Hnonempty].
  unfold EventsAPI.__init__. simpl.
  destruct (bool_decide_reflect
              (map_Forall (fun key _ => EventsAPI._allowed_to_have_query_func key = true)
                          kept)) as [Hallowed|]; [|discriminate].
  simpl. destruct client_org_ids as [[|org l]|] eqn:Eclients; try discriminate;
    intros [= <- <-]; simpl;
    (split; [reflexivity|]; split;
     [|split; [exact Hmin|]; split; [exact Hmax|]; split; [exact Huntil|];
       split; [exact Hlimit|]; split; [reflexivity|]; split; [discriminate|];
       split; [exact Hzone|]; split; [reflexivity|]; split; [reflexivity|];
       split; [exact Hinside | exact Hnonempty]]).
  all: intros key;
    destruct (EventsAPI._allowed_to_have_query_func key) eqn:Ekey;
    [ unfold EventsAPI._allowed_to_have_query_func in Ekey;
      apply andb_prop in Ekey as [_ Ekey]; apply negb_true_iff in Ekey;
      apply orb_false_elim in Ekey as [Etime Eopt];
      apply option_eq; intros values; unfold kept;
      rewrite map_lookup_filter_Some; simpl;
      rewrite !lookup_delete_ne
        by (intros <-; simpl in Etime, Eopt; discriminate);
      split; [intros [Hv _]; exact Hv | intros Hv; split; [exact Hv | exact Eopt]]
    | destruct (kept !! key) as [values|] eqn:Hkey; [|reflexivity];
      specialize (Hallowed key values Hkey); simpl in Hallowed; congruence ].
Qed.

Lemma generate_result_dicts_arguments_inv (day_step : Z)
    (access_zone_conditions : AccessZoneConditionsDict) (access_zone : string)
    (client_org_ids : option (list ParamValue)) (params params' : ParamsDict)
    (args : EventsQueryProcessorArgs) :
  EventsAPI._generate_result_dicts day_step access_zone_conditions access_zone
    client_org_ids params = (Return args, params') ->
  access_zone_conditions !! access_zone = Some (arg_access_filtering_conditions args)
  /\ arg_client_org_ids args = client_org_ids
  /\ params' !! "client" = None.
Proof.
  unfold EventsAPI._generate_result_dicts, EventsAPI._get_access_filtering_conditions.
  destruct (access_zone_conditions !! access_zone) as [[|c conds]|]; try discriminate.
  destruct (EventsAPI._pop_opt_limit params) as [[opt_limit|e] params1]; [|discriminate].
  destruct (EventsAPI._pop_time_constraints params1) as [[time_constraints|e] params2];
    [|discriminate].
  simpl. set (kept := filter _ _).
  unfold EventsAPI._assert_internal_guarantees.
  destruct (bool_decide_reflect (is_Some (kept !! "client"))) as [|Hclient];
    [discriminate|].
  assert (Hnone : kept !! "client" = None).
  { destruct (kept !! "client"); [exfalso; apply Hclient; eauto | reflexivity]. }
  destruct (if negb _ then _ else _); [|discriminate].
  unfold EventsAPI.__init__. simpl.
  destruct (negb (bool_decide _)); [discriminate|].
  destruct client_org_ids as [[|org l]|]; try discriminate; intros [= <- <-]; auto.
Qed.

(** X17 - "inside" reports are restricted to the caller's own
    organization.  [report_inside] refuses request parameters with a
    [client] item (leaving them untouched); and when it gets as far as
    building the query processor, the access conditions are those of the
    "inside" zone and the client organizations are the caller's
    organization alone. *)
Theorem report_inside_own_organization_only (day_step : Z) (auth_data : AuthData)
    (access_zone_conditions : AccessZoneConditionsDict) (params : ParamsDict) :
  (is_Some (params !! "client") ->
   exists msg,
     EventsAPI.report_inside day_step auth_data access_zone_conditions params
     = (Raise (AssertionError msg), params))
  /\ (forall args params',
        EventsAPI.report_inside day_step auth_data access_zone_conditions params
        = (Return args, params') ->
        params !! "client" = None
        /\ arg_client_org_ids args = Some [PvStr (org_id auth_data)]
        /\ access_zone_conditions !! "inside" = Some (arg_access_filtering_conditions args)).
Proof.
  unfold EventsAPI.report_inside. split.
  - intros Hclient. rewrite bool_decide_eq_true_2 by exact Hclient. eauto.
  - intros args params'.
    destruct (bool_decide_reflect (is_Some (params !! "client"))) as [|Hnone];
      [discriminate|].
    intros Hrun. apply generate_result_dicts_arguments_inv in Hrun.
    destruct Hrun as (Hzone & Hclients & _).
    split; [|split; assumption].
    destruct (params !! "client"); [exfalso; apply Hnone; eauto | reflexivity].
Qed.

(** X18 - The client filter of "threats" and "search" reports.
    When [report_threats] or [search_events] gets as far as building the
    query processor, the access conditions are those of its own zone and
    the client organizations are the values of the [client] request
    parameter, or none at all (no restriction by client) when the
    parameter is missing or its list is empty; the [client] item has
    been taken out of the caller's dict. *)
Theorem zone_reports_client_filter (day_step : Z) (auth_data : AuthData)
    (access_zone_conditions : AccessZoneConditionsDict) (params : ParamsDict) :
  let requested :=
    match params !! "client" with
    | Some (v :: vs) => Some (v :: vs)
    | _ => None
    end in
  (forall args params',
     EventsAPI.report_threats day_step auth_data access_zone_conditions params
     = (Return args, params') ->
     access_zone_conditions !! "threats" = Some (arg_access_filtering_conditions args)
     /\ arg_client_org_ids args = requested
     /\ params' !! "client" = None)
  /\ (forall args params',
        EventsAPI.search_events day_step auth_data access_zone_conditions params
        = (Return args, params') ->
        access_zone_conditions !! "search" = Some (arg_access_filtering_conditions args)
        /\ arg_client_org_ids args = requested
        /\ params' !! "client" = None).
Proof.
  intros requested.
  assert (Hpop : exists params1,
            EventsAPI.pop_client_org_ids params = (Return requested, params1)).
  { unfold EventsAPI.pop_client_org_ids, requested.
    destruct (params !! "client") as [[|v vs]|]; eauto. }
  destruct Hpop as [params1 Hpop].
  split; intros args params';
    unfold EventsAPI.report_threats, EventsAPI.search_events; rewrite Hpop;
    intros Hrun; apply generate_result_dicts_arguments_inv in Hrun; exact Hrun.
Qed.

(** ** Configuring the database session *)

(** X19 - The database session can be configured only once.  Of any
    number of calls of [configure_db_session] made one after the other
    the first succeeds, binding the session and the metadata to its
    engine; every later call raises [RuntimeError] and leaves the
    binding as it is. *)
Theorem configure_db_session_only_once (Engine : Type) (engine : Engine)
    (later : list Engine) :
  DBSessionSetup.configure_each Engine (engine :: later) (DBSessionSetup.initial Engine)
  = (Return tt :: map (fun _ => Raise (OtherException "RuntimeError")) later,
     DBSessionSetup.mkState Engine [] (Some engine) (Some engine)).
Proof.
  simpl.
  assert (Hlater : forall st,
            DBSessionSetup.db_config_guard Engine st = [] ->
            DBSessionSetup.configure_each Engine later st
            = (map (fun _ => Raise (OtherException "RuntimeError")) later, st)).
  { induction later as [|e later IH]; intros st Hguard; simpl; [reflexivity|].
    unfold DBSessionSetup.configure_db_session. rewrite Hguard.
    rewrite (IH st Hguard). reflexivity. }
  rewrite Hlater by reflexivity. reflexivity.
Qed.

(** ** What no result carries *)

Lemma preprocess_result_dict_drops_url_data `{N6Lib} (self : _EventsQueryProcessor.t)
    (cache cache' : UrlNormCache) (rd rd' : ResultDict) (logged : list log_record) :
  _EventsQueryProcessor._preprocess_result_dict self cache rd
  = (Return (Some rd'), cache', logged) ->
  url_data_of rd' = None
  /\ (url_data_of rd = None \/ url_data_of rd = Some PyNone ->
      res_url rd' = res_url rd /\ url_is_provisional rd' = false).
Proof.
  unfold _EventsQueryProcessor._preprocess_result_dict, url_data_of, url_is_provisional.
  destruct (res_custom rd) as [c|] eqn:Ecustom; simpl.
  - destruct (custom_url_data c) as [[|d|]|] eqn:Edata; simpl.
    + destruct (res_url rd) as [u|] eqn:Eurl;
        [destruct (_EventsQueryProcessor.startswith u _) eqn:Eprov|];
        intros [= <- <- <-]; simpl; rewrite ?Eurl, ?Eprov; auto.
    + destruct (negb _); [discriminate|].
      destruct (bool_decide _); [|discriminate].
      intros Hpre. split; [|intros [?|?]; discriminate].
      repeat case_match; simplify_eq; simpl in *; simplify_eq; reflexivity.
    + destruct (negb _); discriminate.
    + destruct (res_url rd) as [u|] eqn:Eurl;
        [destruct (_EventsQueryProcessor.startswith u _) eqn:Eprov|];
        intros [= <- <- <-]; simpl; rewrite ?Eurl, ?Eprov; auto.
  - destruct (res_url rd) as [u|] eqn:Eurl;
      [destruct (_EventsQueryProcessor.startswith u _) eqn:Eprov|];
      intros [= <- <- <-]; simpl; rewrite ?Eurl, ?Eprov; auto.
Qed.

Section YieldedAll.
Context `{N6Lib}.
Import _EventsQueryProcessor.
Variables (self : t) (Q : ResultDict -> Prop).
Hypothesis produced_results :
  forall same_id_rows st rd st1,
    produce_result_or_none self same_id_rows st = (Return (Some rd), st1) -> Q rd.

Lemma for_same_id_rows_all (groups : list (list FetchedRow)) :
  forall st,
    Forall Q (yielded (trace st)) ->
    Forall Q (yielded (trace (for_same_id_rows self groups st).2)).
Proof.
  induction groups as [|g groups IH]; intros st Hall; simpl; [exact Hall|].
  destruct (produce_result_or_none self g st) as [r st1] eqn:Eprod.
  destruct (produce_result_or_none_counting self g st r st1 Eprod) as (Hy & _ & _).
  destruct r as [[rd|]|e]; simpl; [| |rewrite Hy; exact Hall].
  - set (st2 := mkRunState (produced st1) (pending st1) (url_norm_cache st1)
                           (trace st1 ++ [EvYield rd])).
    assert (Hall2 : Forall Q (yielded (trace st2))).
    { unfold st2. simpl. rewrite yielded_app, Hy. apply Forall_app. split; [exact Hall|].
      apply Forall_cons. split; [|apply Forall_nil; exact I].
      eapply produced_results. exact Eprod. }
    destruct (enough_results_produced self st2); [|apply IH; exact Hall2].
    destruct (bool_decide _); exact Hall2.
  - assert (Hall1 : Forall Q (yielded (trace st1))) by (rewrite Hy; exact Hall).
    destruct (enough_results_produced self st1); [|apply IH; exact Hall1].
    destruct (bool_decide _); exact Hall1.
Qed.

Lemma on_row_all (row : FetchedRow) (st : RunState) :
  Forall Q (yielded (trace st)) -> Forall Q (yielded (trace (on_row self row st).2)).
Proof.
  intros Hall. unfold on_row. destruct (pending st) as [|first rest]; [exact Hall|].
  destruct (bool_decide (row_time first = row_time row)); [exact Hall|].
  unfold for_same_time_rows.
  pose proof (for_same_id_rows_all (iter_grouped_by_id_presorted (first :: rest))
                (mkRunState (produced st) [] (url_norm_cache st) (trace st)) Hall) as Hloop.
  destruct (for_same_id_rows self _ _) as [[e|] st']; exact Hloop.
Qed.

Lemma for_row_in_iterator_all (rows : list FetchedRow) :
  forall st,
    Forall Q (yielded (trace st)) ->
    Forall Q (yielded (trace (for_row_in_iterator self rows st).2)).
Proof.
  induction rows as [|row rows IH]; intros st Hall; simpl; [exact Hall|].
  pose proof (on_row_all row st Hall) as Hrow.
  destruct (on_row self row st) as [[e|] st']; [exact Hrow | apply IH; exact Hrow].
Qed.

Lemma after_last_row_all (stopped : option ending) (st : RunState) :
  Forall Q (yielded (trace st)) ->
  Forall Q (yielded (trace (after_last_row self stopped st).2)).
Proof.
  intros Hall. unfold after_last_row. destruct stopped as [stop|]; simpl; [exact Hall|].
  assert (Hlast :
    Forall Q
      (yielded (trace (match pending st with
                       | [] => (None, st)
                       | _ :: _ => for_same_time_rows self (pending st)
                                     (mkRunState (produced st) [] (url_norm_cache st)
                                                 (trace st))
                       end).2))).
  { destruct (pending st) as [|first rest]; [exact Hall|].
    apply (for_same_id_rows_all _
             (mkRunState (produced st) [] (url_norm_cache st) (trace st))). exact Hall. }
  destruct (match pending st with [] => _ | _ :: _ => _ end) as [[e|] st'];
    [exact Hlast|].
  simpl in Hlast. destruct (_opt_limit self) as [N|]; [|exact Hlast].
  destruct (Z.of_nat (produced st') <? N); exact Hlast.
Qed.

Lemma generate_query_results_all (fuel : nat) (utcnow : DateTime) (db : EventDB) :
  Forall Q (yielded (trace (generate_query_results fuel utcnow db self).2)).
Proof.
  destruct (generate_query_results_feeds db self fuel utcnow)
    as (fed & _ & [-> | (stopped & _ & ->)]).
  - apply for_row_in_iterator_all. constructor.
  - apply after_last_row_all, for_row_in_iterator_all. constructor.
Qed.
End YieldedAll.

(** X20 - No result carries [url_data].  Whatever the rows fetched from
    the database hold in their [custom] column, no result dict yielded
    by a run has a [url_data] item in its [custom] (the item only serves
    the secondary URL filter).  And a result whose row had no [url_data]
    (or a null one) has the [url] of its row, which is not a provisional
    search key: the rows with such a key and without [url_data] are
    skipped. *)
Theorem no_result_carries_url_data `{N6Lib} (fuel : nat) (utcnow : DateTime)
    (db : EventDB) (self : _EventsQueryProcessor.t) :
  Forall (fun rd => url_data_of rd = None)
    (yielded (trace (_EventsQueryProcessor.generate_query_results fuel utcnow db self).2))
  /\ forall cache cache' rd rd' logged,
       url_data_of rd = None \/ url_data_of rd = Some PyNone ->
       _EventsQueryProcessor._preprocess_result_dict self cache rd
       = (Return (Some rd'), cache', logged) ->
       res_url rd' = res_url rd /\ url_is_provisional rd' = false.
Proof.
  split.
  - apply generate_query_results_all. intros g st rd st1.
    unfold _EventsQueryProcessor.produce_result_or_none.
    destruct (_EventsQueryProcessor._make_result_dict g) as [raw|e]; [|discriminate].
    destruct (_EventsQueryProcessor._preprocess_result_dict self (url_norm_cache st) raw)
      as [[r cache'] logged] eqn:Epre.
    destruct r as [[kept|]|e]; intros [= <- <-].
    apply preprocess_result_dict_drops_url_data in Epre as [Hnone _]. exact Hnone.
  - intros cache cache' rd rd' logged Hno Hpre.
    apply preprocess_result_dict_drops_url_data in Hpre as [_ Hurl]. apply Hurl, Hno.
Qed.

(** * The further properties at work on the samples *)

Lemma steps_partition_closed_range_on_sample :
  exists steps,
    _EventsQueryProcessor._time_comparisons_per_step 3 0 open_ended_processor = (steps, None)
    /\ length steps = 2%nat
    /\ (forall t, (exists step, step ∈ steps /\ admits step t = true)
                  <-> 3600000000 - 86400000000 - 5 <= t <= effective_time_upper 0 None)
    /\ (forall t i j step step',
          steps !! i = Some step -> steps !! j = Some step' ->
          admits step t = true -> admits step' t = true -> i = j).
Proof.
  eexists. split; [vm_compute; reflexivity|]. split; [reflexivity|].
  exact (steps_partition_closed_range 3 0 open_ended_processor
           (3600000000 - 86400000000 - 5) None _ eq_refl ltac:(simpl; lia) eq_refl).
Defined.

Lemma steps_partition_range_until_on_sample :
  exists steps,
    _EventsQueryProcessor._time_comparisons_per_step 3 0 until_processor = (steps, None)
    /\ length steps = 2%nat
    /\ (forall t, (exists step, step ∈ steps /\ admits step t = true)
                  <-> 100 <= t < 100 + 86400000000 + 5).
Proof.
  eexists. split; [vm_compute; reflexivity|]. split; [reflexivity|].
  exact (proj1 (proj2 (proj2
           (steps_partition_range_until 3 0 until_processor 100 (100 + 86400000000 + 5)
              None _ eq_refl ltac:(simpl; lia) eq_refl)))).
Defined.

Lemma steps_number_on_sample :
  exists steps,
    _EventsQueryProcessor._time_comparisons_per_step 3 0 open_ended_processor = (steps, None)
    /\ (timedelta_days 1 < 86400000005 ->
        (Z.of_nat (length steps) - 1) * timedelta_days 1 < 86400000005
        /\ 86400000005 <= Z.of_nat (length steps) * timedelta_days 1).
Proof.
  eexists. split; [vm_compute; reflexivity|].
  exact (proj2 (steps_number 3 0 open_ended_processor
                  (3600000000 - 86400000000 - 5) None _ eq_refl ltac:(simpl; lia) eq_refl)).
Defined.

Lemma sample_db_never_fails : never_fails sample_db.
Proof. intros query. reflexivity. Qed.

Lemma NoDup_map_filter {A B : Type} (f : A -> B) (p : A -> bool) (l : list A) :
  NoDup (map f l) -> NoDup (map f (List.filter p l)).
Proof.
  induction l as [|x l IH]; simpl; [auto|]. intros Hnd.
  apply NoDup_cons in Hnd as [Hx Hl].
  destruct (p x); simpl; [|auto]. apply NoDup_cons. split; [|auto].
  intros Hin. apply Hx. apply list_elem_of_fmap in Hin as (y & -> & Hy).
  apply list_elem_of_fmap. exists y. split; [reflexivity|].
  apply list_elem_of_In, filter_In in Hy as [Hy _]. apply list_elem_of_In. exact Hy.
Qed.

Lemma distinct_times_db_never_fails : never_fails distinct_times_db.
Proof. intros query. reflexivity. Qed.

Lemma distinct_times_db_answers_in_time_order : answers_in_time_order distinct_times_db.
Proof.
  intros step. split.
  - apply filter_strongly_sorted. unfold distinct_times_rows, rows_newer_first.
    repeat (constructor; [|repeat (constructor; [simpl; lia|]); constructor]).
    constructor.
  - apply Forall_forall. intros r Hr.
    apply list_elem_of_In, filter_In in Hr as [_ Hadm]. exact Hadm.
Qed.

Lemma distinct_times_db_tie_free : tie_free distinct_times_db.
Proof.
  intros step. apply NoDup_map_filter. simpl.
  repeat (apply NoDup_cons; split; [intros Hin; not_among Hin|]). apply NoDup_nil. exact I.
Qed.


Lemma unlimited_run_asks_one_query_per_step_on_samples :
  let run := _EventsQueryProcessor.generate_query_results (H := sample_lib)
               5 0 sample_db (sample_processor None) in
  run.1 = Exhausted
  /\ queries (trace run.2)
     = map unlimited_query
         (_EventsQueryProcessor._time_comparisons_per_step 5 0 (sample_processor None)).1.
Proof.
  intros run.
  assert (Hend : run.1 = Exhausted) by (vm_compute; reflexivity).
  split; [exact Hend|].
  exact (proj2 (unlimited_run_asks_one_query_per_step (H := sample_lib) 5 0 sample_db
                  (sample_processor None) eq_refl) Hend).
Defined.

Lemma capped_run_query_limits_on_samples :
  let run := _EventsQueryProcessor.generate_query_results (H := sample_lib)
               5 0 sample_db (sample_processor (Some 2)) in
  exists query later,
    trace run.2 = [] ++ EvQuery query :: later
    /\ aq_limit query = Some (2 - 0 + Z.max 100 ((2 - 0) / 4))
    /\ is_Some (aq_offset query).
Proof.
  intros run.
  assert (Htrace : exists query later, trace run.2 = [] ++ EvQuery query :: later).
  { eexists _, _. vm_compute. reflexivity. }
  destruct Htrace as (query & later & Htrace). exists query, later.
  split; [exact Htrace|].
  exact (proj2 (capped_run_query_limits (H := sample_lib) 5 0 sample_db
                  (sample_processor (Some 2)) 2 eq_refl [] query later Htrace)).
Defined.


Lemma sample_rows_plain (row : FetchedRow) :
  fetched_from sample_db
    (_EventsQueryProcessor._time_comparisons_per_step 5 0 (sample_processor None)).1 row ->
  plain_row (H := sample_lib) row.
Proof.
  intros (step & _ & Hrow). unfold sample_db, db_rows in Hrow.
  apply list_elem_of_In, filter_In in Hrow as [Hrow _].
  unfold sample_rows in Hrow. simpl in Hrow.
  repeat (destruct Hrow as [<-|Hrow]; [split; exact I|]). destruct Hrow.
Qed.


Lemma no_event_is_reported_twice_on_samples :
  NoDup (map event_key
           (yielded (trace (_EventsQueryProcessor.generate_query_results (H := sample_lib)
                              5 0 sample_db (sample_processor None)).2))).
Proof.
  exact (no_event_is_reported_twice (H := sample_lib) 5 0 sample_db (sample_processor None)
           sample_db_answers_in_time_order).
Defined.

Lemma with_transact_returns_only_committed_on_sample :
  with_transact healthy_session (fun s => (Return 7, s)) (mkState 0 [])
  = (Return 7, mkState 0 [Rollback; Flush; Commit])
  /\ exists s2,
       (fun s : State => (Return 7, s)) (mkState 1 ([] ++ [Rollback])) = (Return 7, s2)
       /\ context_count s2 = 1%nat
       /\ healthy_session (session_calls s2) Flush = None
       /\ healthy_session (session_calls s2 ++ [Flush]) Commit = None
       /\ mkState 0 [Rollback; Flush; Commit] = mkState 0 (session_calls s2 ++ [Flush; Commit]).
Proof.
  split; [reflexivity|].
  exact (proj2 (proj2 (with_transact_returns_only_committed healthy_session
                         (fun s => (Return 7, s)) (mkState 0 [])
                         (mkState 0 [Rollback; Flush; Commit]) 7 eq_refl))).
Defined.

Lemma nested_transact_is_refused_on_sample :
  with_transact healthy_session
    (with_transact healthy_session (fun s => (Return 7, s))) (mkState 0 [])
  = (Raise ContextManagerIsNotReentrantError, mkState 0 [Rollback; Rollback]).
Proof.
  exact (proj2 (nested_transact_is_refused healthy_session (fun s => (Return 7, s))
                  (mkState 0 []) eq_refl eq_refl eq_refl)).
Defined.

Lemma sample_tables_categories (e : EventRow) :
  e ∈ tbl_event sample_tables -> ev_category e ∈ CATEGORY_ENUMS (N6Lib := sample_lib).
Proof.
  intros He. apply list_elem_of_In in He. simpl in He.
  repeat (destruct He as [<-|He]; [simpl; set_solver|]). destruct He.
Qed.

Lemma api_counts_in_terms_of_tables_on_samples :
  exists m : gmap string nat,
    N6DataBackendAPI.get_counts_per_category (H := sample_lib)
      (sql_counts sample_tables) sample_auth_data [any_row] 0
    = (Return m, [])
    /\ m !! "bots" = Some 1%nat
    /\ m !! "cnc" = Some 0%nat.
Proof.
  destruct (api_counts_in_terms_of_tables (H := sample_lib) sample_tables sample_auth_data
              [any_row] 0 ltac:(discriminate)
              ltac:(repeat constructor) sample_tables_categories) as (m & Hrun & Hcounts).
  exists m. split; [exact Hrun|]. split.
  - rewrite (Hcounts "bots") by (simpl; set_solver). reflexivity.
  - rewrite (Hcounts "cnc") by (simpl; set_solver). reflexivity.
Defined.

Lemma generate_result_dicts_arguments_on_sample :
  exists args params',
    EventsAPI._generate_result_dicts 1 sample_access_zone_conditions "threats" None
      sample_params = (Return args, params')
    /\ arg_filtering_params args = params'
    /\ params' !! "category" = Some [PvStr "bots"; PvStr "cnc"]
    /\ params' !! "opt.primary" = None
    /\ arg_opt_limit args = Some (PvInt 10)
    /\ arg_time_constraints args = (PvDateTime 0, None, None).
Proof.
  destruct (EventsAPI._generate_result_dicts 1 sample_access_zone_conditions "threats" None
              sample_params) as [[args|e] params'] eqn:Erun.
  2:{ exfalso. vm_compute in Erun. discriminate. }
  exists args, params'. split; [reflexivity|].
  pose proof (generate_result_dicts_arguments 1 sample_access_zone_conditions "threats" None
                sample_params params' args Erun)
    as (Hparams & Hkeys & Hmin & Hmax & Huntil & Hlimit & _).
  split; [exact Hparams|]. split; [rewrite Hkeys; reflexivity|].
  split; [rewrite Hkeys; reflexivity|].
  destruct args as [conds ids step limit [[tmin tmax] tuntil] fparams]. simpl in *.
  destruct limit as [limit|]; [|discriminate]. injection Hlimit as <-.
  injection Hmin as <-. destruct tmax; [discriminate|]. destruct tuntil; [discriminate|].
  auto.
Defined.
